(** * Self-healing locator framework: fingerprints, matcher, store, engine

    A shallow embedding of the TypeScript sources

      - [element-fingerprint.ts]  (capture and locator synthesis),
      - [element-matcher.ts]      (strategy loop, similarity scoring),
      - [locator-store.ts]        (fingerprint map and healing-event log),
      - [index.ts]                (the healing orchestrator),

    followed by the properties established about them.

    Conventions of the embedding.
      - A JavaScript string is a [string]; one [ascii] stands for one code
        unit, so [String.length] is the [.length] of the source.
      - A JavaScript number that holds a length, an index or a counter is a
        [nat] or a [Z]; a score, a weight or a coordinate is an exact
        rational [Q] in the matcher and the engine, where [Math.sqrt] is a
        parameter.  The scoring function is embedded a second time over
        the arithmetic it runs on ([Scoring]), to be read in exact
        arithmetic and in IEEE 754 binary64, the doubles of JavaScript:
        what is proved of the exact score by equality is proved of the
        doubles there.
      - An optional field [f?: T] is an [option T]; the truthiness test
        [if (x.f)] is [truthy], which an absent and an empty string fail.
      - Objects that the source shares by reference (the fingerprints kept in
        the store's [Map]) live in an explicit heap and are named by address.
      - The document is a parameter: a function from a selector to either a
        thrown error or the list of matching elements.  [cy.get] asks
        jQuery's selector engine, which is a parameter of its own. *)

From Stdlib Require Import List String Ascii Bool Arith ZArith QArith.
From Stdlib Require Import Qabs Qminmax Lia Lqa Sorted Permutation.
From Stdlib Require Floats Uint63.
Import ListNotations.

Local Close Scope Q_scope.
Local Open Scope list_scope.
Local Open Scope string_scope.
Local Open Scope nat_scope.

(* ================================================================== *)
(** * Part I. Definitions                                              *)
(* ================================================================== *)

(** ** JavaScript string primitives used by the sources *)

Module JS.

(** [!s] for a string: only the empty string is falsy. *)
Definition is_empty (s : string) : bool :=
  match s with EmptyString => true | String _ _ => false end.

(** [o] used as a condition, for an optional string field. *)
Definition truthy (o : option string) : bool :=
  match o with
  | Some s => negb (is_empty s)
  | None => false
  end.

(** [s || undefined]. *)
Definition or_undefined (s : string) : option string :=
  if is_empty s then None else Some s.

(** [o || undefined] and [o || ''] for a value that may already be absent. *)
Definition opt_or_undefined (o : option string) : option string :=
  match o with Some s => or_undefined s | None => None end.

Definition or_empty (o : option string) : string :=
  match o with Some s => s | None => EmptyString end.

(** White space stripped by [String.prototype.trim], within one code unit:
    TAB, LF, VT, FF, CR, SPACE and NBSP. *)
Definition is_white_space (c : ascii) : bool :=
  let n := nat_of_ascii c in
  ((9 <=? n) && (n <=? 13)) || (n =? 32) || (n =? 160).

Fixpoint trim_start (s : string) : string :=
  match s with
  | String c s' => if is_white_space c then trim_start s' else s
  | EmptyString => EmptyString
  end.

(** Drops the trailing white space: a character is kept when it is not white
    space or when something is kept after it. *)
Fixpoint trim_end (s : string) : string :=
  match s with
  | String c s' =>
      let r := trim_end s' in
      if is_white_space c && is_empty r then EmptyString else String c r
  | EmptyString => EmptyString
  end.

Definition trim (s : string) : string := trim_end (trim_start s).

(** [s.substring(0, n)]. *)
Fixpoint substring0 (n : nat) (s : string) : string :=
  match n, s with
  | S n', String c s' => String c (substring0 n' s')
  | _, _ => EmptyString
  end.

(** [s.toLowerCase()], code unit by code unit: the letters A-Z and the
    capital letters of Latin-1 (U+00C0 to U+00DE, the sign U+00D7 apart). *)
Definition lower_char (c : ascii) : ascii :=
  let n := nat_of_ascii c in
  if ((65 <=? n) && (n <=? 90))
     || ((192 <=? n) && (n <=? 222) && negb (n =? 215))
  then ascii_of_nat (n + 32) else c.

Fixpoint toLowerCase (s : string) : string :=
  match s with
  | String c s' => String (lower_char c) (toLowerCase s')
  | EmptyString => EmptyString
  end.

Definition space : ascii := ascii_of_nat 32.
Definition dquote : ascii := ascii_of_nat 34.
Definition backslash : ascii := ascii_of_nat 92.

(** [s.includes(' ')]. *)
Fixpoint includes_space (s : string) : bool :=
  match s with
  | String c s' => Ascii.eqb c space || includes_space s'
  | EmptyString => false
  end.

(** [s.split(' ')]: never empty; an empty string yields one empty piece. *)
Fixpoint split_space (s : string) : list string :=
  match s with
  | EmptyString => [EmptyString]
  | String c s' =>
      if Ascii.eqb c space then EmptyString :: split_space s'
      else match split_space s' with
           | piece :: rest => String c piece :: rest
           | [] => [String c EmptyString]
           end
  end.

(** [parts.join(sep)]. *)
Fixpoint join (sep : string) (parts : list string) : string :=
  match parts with
  | [] => EmptyString
  | [p] => p
  | p :: rest => p ++ sep ++ join sep rest
  end.

(** [s.replace(/"/g, '\\"')]: a backslash before every double quote. *)
Fixpoint escape_quotes (s : string) : string :=
  match s with
  | String c s' =>
      if Ascii.eqb c dquote
      then String backslash (String dquote (escape_quotes s'))
      else String c (escape_quotes s')
  | EmptyString => EmptyString
  end.

(** [new Set(xs)] keeps the first occurrence of each value, in order. *)
Fixpoint mem (x : string) (xs : list string) : bool :=
  match xs with
  | [] => false
  | y :: ys => String.eqb x y || mem x ys
  end.

Fixpoint set_add_all (seen : list string) (xs : list string) : list string :=
  match xs with
  | [] => seen
  | x :: xs' =>
      if mem x seen then set_add_all seen xs'
      else set_add_all (seen ++ [x])%list xs'
  end.

Definition new_Set (xs : list string) : list string := set_add_all [] xs.

(** A plain object used as a string-keyed record: entries in insertion
    order, one per key. *)
Definition Record_ (V : Type) := list (string * V).

Fixpoint prop_get {V} (k : string) (o : Record_ V) : option V :=
  match o with
  | [] => None
  | (k', v) :: o' => if String.eqb k k' then Some v else prop_get k o'
  end.

Fixpoint prop_set {V} (k : string) (v : V) (o : Record_ V) : Record_ V :=
  match o with
  | [] => [(k, v)]
  | (k', v') :: o' =>
      if String.eqb k k' then (k, v) :: o' else (k', v') :: prop_set k v o'
  end.

(** [xs.push(x)]. *)
Definition push {A} (xs : list A) (x : A) : list A := (xs ++ [x])%list.

(** [s.startsWith(p)]. *)
Definition startsWith (p s : string) : bool := String.prefix p s.

End JS.

(** ** Edit distance and string similarity ([element-matcher.ts]) *)

Module Levenshtein.

(** One pass of the inner loop [for j = 1 .. str1.length] on row [i]:
    [c] is [str2.charAt(i - 1)], [diag] is [matrix[i-1][j-1]], [left] is
    [matrix[i][j-1]] and [up] holds [matrix[i-1][j ..]].  The result is
    [matrix[i][j ..]]. *)
Fixpoint fill_row (c : ascii) (str1 : list ascii) (diag left : nat)
    (up : list nat) : list nat :=
  match str1, up with
  | d :: str1', u :: up' =>
      let v := if Ascii.eqb c d then diag
               else Nat.min (diag + 1) (Nat.min (left + 1) (u + 1)) in
      v :: fill_row c str1' u v up'
  | _, _ => []
  end.

(** Row [i] from row [i - 1]; [matrix[i][0] = i]. *)
Definition next_row (c : ascii) (str1 : list ascii) (i : nat)
    (prev : list nat) : list nat :=
  match prev with
  | diag :: up => i :: fill_row c str1 diag i up
  | [] => [i]
  end.

(** The outer loop [for i = 1 .. str2.length], threading the last row. *)
Fixpoint rows (str1 str2 : list ascii) (i : nat) (prev : list nat)
    : list nat :=
  match str2 with
  | [] => prev
  | c :: str2' => rows str1 str2' (S i) (next_row c str1 i prev)
  end.

(** [matrix[0][j] = j] for [j = 0 .. str1.length]. *)
Definition first_row (str1 : list ascii) : list nat :=
  seq 0 (S (List.length str1)).

(** [levenshteinDistance(str1, str2)]: the entry
    [matrix[str2.length][str1.length]], the last of the last row. *)
Definition levenshteinDistance (str1 str2 : string) : nat :=
  let s1 := list_ascii_of_string str1 in
  let s2 := list_ascii_of_string str2 in
  last (rows s1 s2 1 (first_row s1)) 0%nat.

(** The Levenshtein recurrence: equal heads cost nothing, and otherwise one
    more than the cheapest of a substitution, an insertion and a deletion.
    The matrix tabulates it on the prefixes of the two strings, read
    backwards. *)
Fixpoint lev (q p : list ascii) : nat :=
  match q with
  | [] => List.length p
  | c :: q' =>
      (fix lev_q (p : list ascii) : nat :=
         match p with
         | [] => List.length q
         | d :: p' =>
             if Ascii.eqb c d then lev q' p'
             else Nat.min (lev q' p' + 1)
                          (Nat.min (lev_q p' + 1) (lev q' p + 1))
         end) p
  end.

(** Row [qq] of the matrix from column [|p| + 1] on, where [p] is the
    reversed prefix of [str1] already passed. *)
Fixpoint lev_row (qq p str1 : list ascii) : list nat :=
  match str1 with
  | [] => []
  | d :: str1' => lev qq (d :: p) :: lev_row qq (d :: p) str1'
  end.

(** An edit script of cost [n] from [a] to [b]: characters are kept, or
    substituted, deleted and inserted at the cost of one each. *)
Inductive edits : list ascii -> list ascii -> nat -> Prop :=
  | edits_nil : edits [] [] 0
  | edits_keep c a b n : edits a b n -> edits (c :: a) (c :: b) n
  | edits_substitute c d a b n : edits a b n -> edits (c :: a) (d :: b) (S n)
  | edits_delete c a b n : edits a b n -> edits (c :: a) b (S n)
  | edits_insert d a b n : edits a b n -> edits a (d :: b) (S n).

(** The Levenshtein distance of two strings: the recurrence on the strings
    themselves, which is the cost of the cheapest edit script. *)
Definition distance (a b : string) : nat :=
  lev (list_ascii_of_string a) (list_ascii_of_string b).

End Levenshtein.

Module StringSimilarity.
Import Levenshtein.

Definition length_Q (s : string) : Q := inject_Z (Z.of_nat (String.length s)).

(** [stringSimilarity(str1, str2)]. *)
Definition stringSimilarity (str1 str2 : string) : Q :=
  if String.eqb str1 str2 then 1%Q
  else if JS.is_empty str1 || JS.is_empty str2 then 0%Q
  else
    let longer :=
      if String.length str2 <? String.length str1 then str1 else str2 in
    let shorter :=
      if String.length str2 <? String.length str1 then str2 else str1 in
    if String.length longer =? 0 then 1%Q
    else
      let distance := levenshteinDistance longer shorter in
      ((length_Q longer - inject_Z (Z.of_nat distance)) / length_Q longer)%Q.

End StringSimilarity.
Import StringSimilarity.

(** ** The data model ([types.ts]) *)

Inductive LocatorType : Type :=
  | LT_id | LT_data_testid | LT_data_cy | LT_aria_label | LT_text | LT_css
  | LT_xpath | LT_class | LT_name | LT_placeholder | LT_title | LT_role.

Definition LocatorType_eqb (a b : LocatorType) : bool :=
  match a, b with
  | LT_id, LT_id | LT_data_testid, LT_data_testid | LT_data_cy, LT_data_cy
  | LT_aria_label, LT_aria_label | LT_text, LT_text | LT_css, LT_css
  | LT_xpath, LT_xpath | LT_class, LT_class | LT_name, LT_name
  | LT_placeholder, LT_placeholder | LT_title, LT_title
  | LT_role, LT_role => true
  | _, _ => false
  end.

Record LocatorStrategy : Type := mkLocator {
  l_type : LocatorType;
  l_value : string;
  l_priority : Z;
  l_confidence : Q
}.

Record ElementPosition : Type := mkPosition {
  pos_x : Q;
  pos_y : Q;
  pos_width : Q;
  pos_height : Q
}.

Record ParentInfo : Type := mkParentInfo {
  pi_tagName : string;
  pi_className : option string;
  pi_id : option string
}.

Record ElementAttributes : Type := mkAttributes {
  tagName : option string;
  text : option string;
  innerText : option string;
  className : option string;
  id : option string;
  name : option string;
  placeholder : option string;
  title : option string;
  ariaLabel : option string;
  role : option string;
  type_ : option string;
  href : option string;
  src : option string;
  value : option string;
  dataAttributes : option (JS.Record_ string);
  position : option ElementPosition;
  parentInfo : option ParentInfo
}.

(** [lastSeen] is a [Date]: a time stamp read from the clock. *)
Record ElementFingerprint : Type := mkFingerprint {
  fp_name : string;
  fp_primaryLocator : string;
  alternativeLocators : list LocatorStrategy;
  attributes : ElementAttributes;
  lastSeen : option Z;
  healCount : Z
}.

(** What [MatchResult.matchedBy] ranges over: [LocatorType | 'similarity']. *)
Inductive MatchedBy : Type :=
  | ByLocator (t : LocatorType)
  | BySimilarity.

Record HealingEvent : Type := mkEvent {
  ev_timestamp : Z;
  elementName : string;
  originalLocator : string;
  healedLocator : string;
  strategy : MatchedBy;
  ev_confidence : Q;
  testFile : string;
  testName : string
}.

Record SelfHealingConfig : Type := mkConfig {
  enabled : bool;
  confidenceThreshold : Q;
  maxAlternatives : Z;
  reportPath : string;
  autoUpdateLocators : bool
}.

(** ** The part of the DOM the sources read *)

Module DOM.

(** [element.parentElement], as far as it is read. *)
Record ParentElement : Type := mkParent {
  par_tagName : string;
  par_className : string;
  par_id : string
}.

(** An [HTMLElement]: its tag name, its content attributes in document
    order, the text properties, the [value] property, the bounding rectangle
    and the parent. *)
Record HTMLElement : Type := mkElement {
  el_tagName : string;
  el_attributes : list (string * string);
  textContent : option string;
  el_innerText : option string;
  el_value : option string;
  getBoundingClientRect : ElementPosition;
  parentElement : option ParentElement
}.

(** [element.getAttribute(k)]. *)
Fixpoint lookup_attr (k : string) (attrs : list (string * string))
    : option string :=
  match attrs with
  | [] => None
  | (k', v) :: rest => if String.eqb k k' then Some v else lookup_attr k rest
  end.

Definition getAttribute (element : HTMLElement) (k : string) : option string :=
  lookup_attr k (el_attributes element).

(** [element.className] and [element.id] reflect the content attributes. *)
Definition el_className (element : HTMLElement) : string :=
  JS.or_empty (getAttribute element "class").

Definition el_id (element : HTMLElement) : string :=
  JS.or_empty (getAttribute element "id").

(** The outcome of [querySelectorAll]: the matching elements, or a thrown
    [SyntaxError] for a selector that does not parse. *)
Inductive QueryResult : Type :=
  | Matches (elements : list HTMLElement)
  | Throws.

Definition Document : Type := string -> QueryResult.

End DOM.
Import DOM.

(** ** Fingerprint capture ([element-fingerprint.ts]) *)

Module Fingerprint.

Definition q : string := String JS.dquote EmptyString.

(** The loop of [extractAttributes] over [element.attributes]. *)
Fixpoint collect_data (attrs : list (string * string))
    (dataAttributes : JS.Record_ string) : JS.Record_ string :=
  match attrs with
  | [] => dataAttributes
  | (attr_name, attr_value) :: rest =>
      if JS.startsWith "data-" attr_name
      then collect_data rest (JS.prop_set attr_name attr_value dataAttributes)
      else collect_data rest dataAttributes
  end.

Definition extractAttributes (element : HTMLElement) : ElementAttributes :=
  let rect := getBoundingClientRect element in
  let parent := parentElement element in
  let dataAttributes := collect_data (el_attributes element) [] in
  let parentInfo :=
    match parent with
    | Some par =>
        Some {| pi_tagName := JS.toLowerCase (par_tagName par);
                pi_className := JS.or_undefined (par_className par);
                pi_id := JS.or_undefined (par_id par) |}
    | None => None
    end in
  {| tagName := Some (JS.toLowerCase (el_tagName element));
     text :=
       JS.opt_or_undefined
         (option_map (fun t => JS.substring0 100 (JS.trim t))
                     (textContent element));
     innerText :=
       JS.opt_or_undefined
         (option_map (fun t => JS.substring0 100 (JS.trim t))
                     (el_innerText element));
     className := JS.or_undefined (el_className element);
     id := JS.or_undefined (el_id element);
     name := JS.opt_or_undefined (getAttribute element "name");
     placeholder := JS.opt_or_undefined (getAttribute element "placeholder");
     title := JS.opt_or_undefined (getAttribute element "title");
     ariaLabel := JS.opt_or_undefined (getAttribute element "aria-label");
     role := JS.opt_or_undefined (getAttribute element "role");
     type_ := JS.opt_or_undefined (getAttribute element "type");
     href := JS.opt_or_undefined (getAttribute element "href");
     src := JS.opt_or_undefined (getAttribute element "src");
     value := JS.opt_or_undefined (el_value element);
     dataAttributes :=
       match dataAttributes with
       | [] => None
       | _ :: _ => Some dataAttributes
       end;
     position :=
       Some {| pos_x := pos_x rect; pos_y := pos_y rect;
               pos_width := pos_width rect; pos_height := pos_height rect |};
     parentInfo := parentInfo |}.

(** [attributes.dataAttributes?.[k]]. *)
Definition data_attr (attrs : ElementAttributes) (k : string) : option string :=
  match dataAttributes attrs with
  | Some d => JS.prop_get k d
  | None => None
  end.

Definition generateTextLocator (tag : string) (txt : string) : option string :=
  let safeText := JS.escape_quotes txt in
  if String.eqb tag "button" then
    Some ("button:contains(" ++ q ++ safeText ++ q ++ ")")
  else if String.eqb tag "a" then
    Some ("a:contains(" ++ q ++ safeText ++ q ++ ")")
  else if String.eqb tag "label" then
    Some ("label:contains(" ++ q ++ safeText ++ q ++ ")")
  else
    Some (tag ++ ":contains(" ++ q ++ safeText ++ q ++ ")").

(** [attributes.parentInfo?.id] and [attributes.parentInfo?.className]. *)
Definition parent_id (attrs : ElementAttributes) : option string :=
  match parentInfo attrs with Some p => pi_id p | None => None end.

Definition parent_className (attrs : ElementAttributes) : option string :=
  match parentInfo attrs with Some p => pi_className p | None => None end.

Definition generateContextualCss (element : HTMLElement)
    (attrs : ElementAttributes) : option string :=
  let parts : list string := [] in
  (* parent context, if available *)
  let parts :=
    if JS.truthy (parent_id attrs) then
      JS.push parts ("#" ++ JS.or_empty (parent_id attrs))
    else if JS.truthy (parent_className attrs) then
      let firstClass :=
        hd EmptyString (JS.split_space (JS.or_empty (parent_className attrs))) in
      if negb (JS.is_empty firstClass) then JS.push parts ("." ++ firstClass)
      else parts
    else parts in
  (* element selector *)
  let elementSelector := JS.or_empty (tagName attrs) in
  let elementSelector :=
    if JS.truthy (type_ attrs)
    then elementSelector ++ "[type=" ++ q ++ JS.or_empty (type_ attrs) ++ q ++ "]"
    else elementSelector in
  let parts :=
    if negb (JS.is_empty elementSelector) then JS.push parts elementSelector
    else parts in
  match parts with
  | [] => None
  | _ :: _ => Some (JS.join " > " parts)
  end.

(** [locators.sort((a, b) => a.priority - b.priority)]: a stable sort; [a]
    goes before [b] when the comparator is not positive. *)
Fixpoint insert_by_priority (a : LocatorStrategy) (l : list LocatorStrategy)
    : list LocatorStrategy :=
  match l with
  | [] => [a]
  | b :: l' =>
      if (l_priority a - l_priority b <=? 0)%Z then a :: b :: l'
      else b :: insert_by_priority a l'
  end.

Fixpoint sort_by_priority (l : list LocatorStrategy) : list LocatorStrategy :=
  match l with
  | [] => []
  | a :: l' => insert_by_priority a (sort_by_priority l')
  end.

(** Each [if (...) locators.push({...})] of the source, in order. *)
Definition push_if (cond : bool) (loc : LocatorStrategy)
    (locators : list LocatorStrategy) : list LocatorStrategy :=
  if cond then JS.push locators loc else locators.

Definition generateAlternativeLocators (element : HTMLElement)
    (attrs : ElementAttributes) : list LocatorStrategy :=
  let locators : list LocatorStrategy := [] in
  (* data-testid (highest priority for testing) *)
  let locators :=
    push_if (JS.truthy (data_attr attrs "data-testid"))
      {| l_type := LT_data_testid;
         l_value := "[data-testid=" ++ q
                    ++ JS.or_empty (data_attr attrs "data-testid") ++ q ++ "]";
         l_priority := 1; l_confidence := 95 # 100 |} locators in
  (* data-cy *)
  let locators :=
    push_if (JS.truthy (data_attr attrs "data-cy"))
      {| l_type := LT_data_cy;
         l_value := "[data-cy=" ++ q
                    ++ JS.or_empty (data_attr attrs "data-cy") ++ q ++ "]";
         l_priority := 2; l_confidence := 95 # 100 |} locators in
  (* ID *)
  let locators :=
    push_if (JS.truthy (id attrs))
      {| l_type := LT_id;
         l_value := "#" ++ JS.or_empty (id attrs);
         l_priority := 3; l_confidence := 9 # 10 |} locators in
  (* aria-label *)
  let locators :=
    push_if (JS.truthy (ariaLabel attrs))
      {| l_type := LT_aria_label;
         l_value := "[aria-label=" ++ q
                    ++ JS.or_empty (ariaLabel attrs) ++ q ++ "]";
         l_priority := 4; l_confidence := 85 # 100 |} locators in
  (* name attribute *)
  let locators :=
    push_if (JS.truthy (name attrs))
      {| l_type := LT_name;
         l_value := "[name=" ++ q ++ JS.or_empty (name attrs) ++ q ++ "]";
         l_priority := 5; l_confidence := 8 # 10 |} locators in
  (* placeholder *)
  let locators :=
    push_if (JS.truthy (placeholder attrs))
      {| l_type := LT_placeholder;
         l_value := "[placeholder=" ++ q
                    ++ JS.or_empty (placeholder attrs) ++ q ++ "]";
         l_priority := 6; l_confidence := 75 # 100 |} locators in
  (* role + text combination *)
  let locators :=
    push_if (JS.truthy (role attrs) && JS.truthy (text attrs))
      {| l_type := LT_role;
         l_value := "[role=" ++ q ++ JS.or_empty (role attrs) ++ q ++ "]";
         l_priority := 7; l_confidence := 7 # 10 |} locators in
  (* text content *)
  let locators :=
    if JS.truthy (text attrs)
       && (String.length (JS.or_empty (text attrs)) <? 50)
    then
      let textLocator :=
        generateTextLocator (JS.toLowerCase (el_tagName element))
                            (JS.or_empty (text attrs)) in
      push_if (JS.truthy textLocator)
        {| l_type := LT_text;
           l_value := JS.or_empty textLocator;
           l_priority := 8; l_confidence := 7 # 10 |} locators
    else locators in
  (* class-based *)
  let locators :=
    push_if (JS.truthy (className attrs)
             && negb (JS.includes_space (JS.or_empty (className attrs))))
      {| l_type := LT_class;
         l_value := "." ++ JS.or_empty (className attrs);
         l_priority := 9; l_confidence := 5 # 10 |} locators in
  (* CSS selector with parent context *)
  let cssWithContext := generateContextualCss element attrs in
  let locators :=
    push_if (JS.truthy cssWithContext)
      {| l_type := LT_css;
         l_value := JS.or_empty cssWithContext;
         l_priority := 10; l_confidence := 6 # 10 |} locators in
  sort_by_priority locators.

(** [captureElementFingerprint]; [now] is the value of [new Date()]. *)
Definition captureElementFingerprint (now : Z) (element : HTMLElement)
    (name primaryLocator : string) : ElementFingerprint :=
  let attrs := extractAttributes element in
  let alternativeLocators := generateAlternativeLocators element attrs in
  {| fp_name := name;
     fp_primaryLocator := primaryLocator;
     alternativeLocators := alternativeLocators;
     attributes := attrs;
     lastSeen := Some now;
     healCount := 0 |}.

End Fingerprint.

(** ** Observable effects *)

(** What an operation does besides computing its result: the structural
    queries it sends to the document, the candidates whose similarity score
    it computes, and the healing events it hands to the runner's logger
    ([cy.task('logHealingEvent', ...)]). *)
Inductive Effect : Type :=
  | DomQuery (selector : string)
  | Scored (candidate : HTMLElement)
  | TaskLogHealingEvent (event : HealingEvent).

(** A computation together with the effects it performed, in order. *)
Definition Traced (A : Type) : Type := (A * list Effect)%type.

Definition ret {A} (a : A) : Traced A := (a, []).

Definition bind {A B} (m : Traced A) (f : A -> Traced B) : Traced B :=
  let '(a, t1) := m in
  let '(b, t2) := f a in
  (b, (t1 ++ t2)%list).

Declare Scope traced_scope.
Delimit Scope traced_scope with traced.
Notation "x <- m ;; k" := (bind m (fun x => k))
  (at level 61, m at next level, right associativity) : traced_scope.

(** A result, or the error that was thrown instead. *)
Inductive Error : Type :=
  | ElementNotFound (message : string)
  | NoFingerprintAvailable (message : string)
  | LowConfidenceHeal (elementName : string) (achieved required : Q)
  | CyGetFailed (locator : string)
  | SyntaxError (selector : string).

Inductive Completion (A : Type) : Type :=
  | Normal (a : A)
  | Thrown (err : Error).
Arguments Normal {A} a.
Arguments Thrown {A} err.

(** ** The element matcher ([element-matcher.ts]) *)

Module ElementMatcher.

Record MatchResult : Type := mkMatchResult {
  element : option HTMLElement;
  locator : option LocatorStrategy;
  confidence : Q;
  matchedBy : MatchedBy
}.

Record BestMatch : Type := mkBestMatch {
  bm_element : option HTMLElement;
  bm_confidence : Q
}.

(** [a < b] and [a >= b] on numbers. *)
Definition Qltb (a b : Q) : bool := negb (Qle_bool b a).
Definition Qgeb (a b : Q) : bool := Qle_bool b a.

(** The weights table of [calculateSimilarityScore]. *)
Module weights.
Definition text : Q := 25 # 100.
Definition ariaLabel : Q := 2 # 10.
Definition dataAttributes : Q := 15 # 100.
Definition placeholder : Q := 1 # 10.
Definition name : Q := 1 # 10.
Definition className : Q := 5 # 100.
Definition position : Q := 1 # 10.
Definition role : Q := 5 # 100.
End weights.

(** The loop over [Object.entries(target.dataAttributes)]: the pair
    [(dataScore, dataCount)]. *)
Fixpoint data_loop (element : HTMLElement) (entries : list (string * string))
    (dataScore dataCount : Z) : Z * Z :=
  match entries with
  | [] => (dataScore, dataCount)
  | (key, v) :: rest =>
      let elementValue := getAttribute element key in
      let dataScore :=
        match elementValue with
        | Some ev => if String.eqb ev v then (dataScore + 1)%Z else dataScore
        | None => dataScore
        end in
      data_loop element rest dataScore (dataCount + 1)%Z
  end.

(** [x === y ? 1 : 0] on strings. *)
Definition exact (x y : string) : Q := if String.eqb x y then 1%Q else 0%Q.

Section WithSqrt.

(** [Math.sqrt]. *)
Variable Math_sqrt : Q -> Q.

Definition calculatePositionSimilarity (rect target : ElementPosition) : Q :=
  let maxDistance : Q := 200%Q in
  let distance :=
    Math_sqrt ((pos_x rect - pos_x target) * (pos_x rect - pos_x target)
               + (pos_y rect - pos_y target) * (pos_y rect - pos_y target))%Q in
  let sizeMatch : Q :=
    if Qltb (Qabs (pos_width rect - pos_width target)) 50%Q
       && Qltb (Qabs (pos_height rect - pos_height target)) 50%Q
    then (5 # 10)%Q else 0%Q in
  let positionMatch := (Qmax 0 (1 - distance / maxDistance) * (5 # 10))%Q in
  (positionMatch + sizeMatch)%Q.

(** [calculateSimilarityScore(element, target)]: the running pair
    [(totalScore, totalWeight)] goes through the eight blocks in order. *)
Definition calculateSimilarityScore (element : HTMLElement)
    (target : ElementAttributes) : Q :=
  let totalScore : Q := 0%Q in
  let totalWeight : Q := 0%Q in
  (* Text similarity *)
  let '(totalScore, totalWeight) :=
    if JS.truthy (text target) then
      let elementText :=
        JS.or_empty (option_map JS.trim (textContent element)) in
      let textSimilarity :=
        stringSimilarity elementText (JS.or_empty (text target)) in
      (totalScore + textSimilarity * weights.text,
       totalWeight + weights.text)%Q
    else (totalScore, totalWeight) in
  (* aria-label *)
  let '(totalScore, totalWeight) :=
    if JS.truthy (ariaLabel target) then
      let elementAriaLabel := JS.or_empty (getAttribute element "aria-label") in
      let ariaScore := exact elementAriaLabel (JS.or_empty (ariaLabel target)) in
      (totalScore + ariaScore * weights.ariaLabel,
       totalWeight + weights.ariaLabel)%Q
    else (totalScore, totalWeight) in
  (* data attributes *)
  let '(totalScore, totalWeight) :=
    match dataAttributes target with
    | Some entries =>
        let '(dataScore, dataCount) := data_loop element entries 0 0 in
        if (0 <? dataCount)%Z then
          (totalScore
           + (inject_Z dataScore / inject_Z dataCount) * weights.dataAttributes,
           totalWeight + weights.dataAttributes)%Q
        else (totalScore, totalWeight)
    | None => (totalScore, totalWeight)
    end in
  (* Placeholder *)
  let '(totalScore, totalWeight) :=
    if JS.truthy (placeholder target) then
      let elementPlaceholder :=
        JS.or_empty (getAttribute element "placeholder") in
      let placeholderScore :=
        exact elementPlaceholder (JS.or_empty (placeholder target)) in
      (totalScore + placeholderScore * weights.placeholder,
       totalWeight + weights.placeholder)%Q
    else (totalScore, totalWeight) in
  (* Name attribute *)
  let '(totalScore, totalWeight) :=
    if JS.truthy (name target) then
      let elementName := JS.or_empty (getAttribute element "name") in
      let nameScore := exact elementName (JS.or_empty (name target)) in
      (totalScore + nameScore * weights.name,
       totalWeight + weights.name)%Q
    else (totalScore, totalWeight) in
  (* Class similarity (partial match) *)
  let '(totalScore, totalWeight) :=
    if JS.truthy (className target) then
      let elementClasses := JS.new_Set (JS.split_space (el_className element)) in
      let targetClasses :=
        JS.new_Set (JS.split_space (JS.or_empty (className target))) in
      let intersection :=
        filter (fun c => JS.mem c elementClasses) targetClasses in
      let classScore :=
        (inject_Z (Z.of_nat (List.length intersection))
         / inject_Z (Z.of_nat (List.length targetClasses)))%Q in
      (totalScore + classScore * weights.className,
       totalWeight + weights.className)%Q
    else (totalScore, totalWeight) in
  (* Position proximity *)
  let '(totalScore, totalWeight) :=
    match position target with
    | Some target_position =>
        let rect := getBoundingClientRect element in
        let positionScore := calculatePositionSimilarity rect target_position in
        (totalScore + positionScore * weights.position,
         totalWeight + weights.position)%Q
    | None => (totalScore, totalWeight)
    end in
  (* Role *)
  let '(totalScore, totalWeight) :=
    if JS.truthy (role target) then
      let elementRole := JS.or_empty (getAttribute element "role") in
      let roleScore := exact elementRole (JS.or_empty (role target)) in
      (totalScore + roleScore * weights.role,
       totalWeight + weights.role)%Q
    else (totalScore, totalWeight) in
  if Qltb 0 totalWeight then (totalScore / totalWeight)%Q else 0%Q.

(** [document] of the page, and [this.confidenceThreshold]. *)
Variable document : Document.
Variable confidenceThreshold : Q.

Local Open Scope traced_scope.

Definition querySelectorAll (selector : string) : Traced QueryResult :=
  (document selector, [DomQuery selector]).

Definition score_of (element : HTMLElement) (target : ElementAttributes)
    : Traced Q :=
  (calculateSimilarityScore element target, [Scored element]).

(** The loop of [findBestMatch], with [bestElement] and [bestScore]. *)
Fixpoint findBestMatch_loop (elements : list HTMLElement)
    (targetAttributes : ElementAttributes)
    (bestElement : option HTMLElement) (bestScore : Q) : Traced BestMatch :=
  match elements with
  | [] => ret {| bm_element := bestElement; bm_confidence := bestScore |}
  | element :: rest =>
      score <- score_of element targetAttributes ;;
      if Qltb bestScore score
      then findBestMatch_loop rest targetAttributes (Some element) score
      else findBestMatch_loop rest targetAttributes bestElement bestScore
  end.

Definition findBestMatch (elements : list HTMLElement)
    (targetAttributes : ElementAttributes) : Traced BestMatch :=
  findBestMatch_loop elements targetAttributes None 0%Q.

(** [findBySimilarity]; its query is outside every [try], so a selector the
    document rejects is thrown to the caller. *)
Definition findBySimilarity (targetAttributes : ElementAttributes)
    : Traced (Completion MatchResult) :=
  if negb (JS.truthy (tagName targetAttributes)) then
    ret (Normal {| element := None; locator := None; confidence := 0%Q;
                   matchedBy := BySimilarity |})
  else
    candidates <- querySelectorAll (JS.or_empty (tagName targetAttributes)) ;;
    match candidates with
    | Throws => ret (Thrown (SyntaxError (JS.or_empty (tagName targetAttributes))))
    | Matches candidates =>
        best <- findBestMatch candidates targetAttributes ;;
        ret (Normal {| element := bm_element best; locator := None;
                       confidence := bm_confidence best;
                       matchedBy := BySimilarity |})
    end.

(** One turn of the [for (const locator of fingerprint.alternativeLocators)]
    loop of [findElement]: [Some] result when the body returns, [None] when
    the loop goes on; the [catch] arm is [Throws]. *)
Definition try_locator (fingerprint : ElementFingerprint)
    (locator_ : LocatorStrategy) : Traced (option MatchResult) :=
  elements <- querySelectorAll (l_value locator_) ;;
  match elements with
  | Throws =>
      (* Invalid selector, continue to next *)
      ret None
  | Matches [] => ret None
  | Matches [element0] =>
      ret (Some {| element := Some element0;
                   locator := Some locator_;
                   confidence := l_confidence locator_;
                   matchedBy := ByLocator (l_type locator_) |})
  | Matches elements =>
      (* If multiple elements found, try to narrow down using attributes *)
      bestMatch <- findBestMatch elements (attributes fingerprint) ;;
      if Qgeb (bm_confidence bestMatch) confidenceThreshold then
        ret (Some {| element := bm_element bestMatch;
                     locator := Some locator_;
                     confidence := bm_confidence bestMatch;
                     matchedBy := ByLocator (l_type locator_) |})
      else ret None
  end.

Fixpoint findElement_loop (fingerprint : ElementFingerprint)
    (locators : list LocatorStrategy) : Traced (Completion MatchResult) :=
  match locators with
  | [] =>
      (* Last resort: similarity-based search *)
      findBySimilarity (attributes fingerprint)
  | locator_ :: rest =>
      returned <- try_locator fingerprint locator_ ;;
      match returned with
      | Some result => ret (Normal result)
      | None => findElement_loop fingerprint rest
      end
  end.

Definition findElement (fingerprint : ElementFingerprint)
    : Traced (Completion MatchResult) :=
  findElement_loop fingerprint (alternativeLocators fingerprint).

End WithSqrt.

End ElementMatcher.

(** ** Heap and store ([locator-store.ts]) *)

(** Fingerprint objects are shared by reference between the store's [Map]
    and the code that read them from it; the heap holds them by address. *)
Module Heap.

Definition addr : Type := nat.
Definition t : Type := list ElementFingerprint.

Definition deref (h : t) (r : addr) : option ElementFingerprint :=
  nth_error h r.

(** A new object; its address is the next free one. *)
Definition alloc (h : t) (fp : ElementFingerprint) : addr * t :=
  (List.length h, (h ++ [fp])%list).

(** Assignment to the fields of the object at [r]. *)
Fixpoint update (h : t) (r : addr) (f : ElementFingerprint -> ElementFingerprint)
    : t :=
  match h, r with
  | [], _ => []
  | fp :: h', O => f fp :: h'
  | fp :: h', S r' => fp :: update h' r' f
  end.

End Heap.

(** A [Map<string, V>]: entries in insertion order; [set] on a present key
    replaces the value where it stands. *)
Module Map_.

Definition t (V : Type) : Type := list (string * V).

Fixpoint get {V} (k : string) (m : t V) : option V :=
  match m with
  | [] => None
  | (k', v) :: m' => if String.eqb k k' then Some v else get k m'
  end.

Definition has {V} (k : string) (m : t V) : bool :=
  match get k m with Some _ => true | None => false end.

Fixpoint set {V} (k : string) (v : V) (m : t V) : t V :=
  match m with
  | [] => [(k, v)]
  | (k', v') :: m' =>
      if String.eqb k k' then (k, v) :: m' else (k', v') :: set k v m'
  end.

Definition values {V} (m : t V) : list V := map snd m.
Definition keys {V} (m : t V) : list string := map fst m.

End Map_.

Module LocatorStore.

Record t : Type := mkStore {
  fingerprints : Map_.t Heap.addr;
  healingEvents : list HealingEvent
}.

(** [new LocatorStore()]. *)
Definition empty : t := {| fingerprints := []; healingEvents := [] |}.

(** The snapshot type of [export] and [import]. *)
Record Snapshot : Type := mkSnapshot {
  snap_fingerprints : list Heap.addr;
  snap_healingEvents : list HealingEvent
}.

(** The store's methods act on a heap and a store. *)
Definition State : Type := (Heap.t * t)%type.

Definition saveFingerprint (fingerprint : Heap.addr) (st : State) : State :=
  let '(h, s) := st in
  match Heap.deref h fingerprint with
  | Some fp =>
      (h, {| fingerprints := Map_.set (fp_name fp) fingerprint (fingerprints s);
             healingEvents := healingEvents s |})
  | None => st
  end.

Definition getFingerprint (name : string) (st : State) : option Heap.addr :=
  Map_.get name (fingerprints (snd st)).

Definition hasFingerprint (name : string) (st : State) : bool :=
  Map_.has name (fingerprints (snd st)).

Definition recordHealingEvent (event : HealingEvent) (st : State) : State :=
  let '(h, s) := st in
  let events := JS.push (healingEvents s) event in
  (* Update heal count on fingerprint *)
  match Map_.get (elementName event) (fingerprints s) with
  | Some fingerprint =>
      let h :=
        Heap.update h fingerprint
          (fun fp =>
             {| fp_name := fp_name fp;
                fp_primaryLocator := fp_primaryLocator fp;
                alternativeLocators := alternativeLocators fp;
                attributes := attributes fp;
                lastSeen := lastSeen fp;
                healCount := (healCount fp + 1)%Z |}) in
      (h, {| fingerprints :=
               Map_.set (elementName event) fingerprint (fingerprints s);
             healingEvents := events |})
  | None => (h, {| fingerprints := fingerprints s; healingEvents := events |})
  end.

Definition getHealingEvents (st : State) : list HealingEvent :=
  healingEvents (snd st).

Definition getAllFingerprints (st : State) : list Heap.addr :=
  Map_.values (fingerprints (snd st)).

Definition clearHealingEvents (st : State) : State :=
  let '(h, s) := st in
  (h, {| fingerprints := fingerprints s; healingEvents := [] |}).

Definition export (st : State) : Snapshot :=
  {| snap_fingerprints := getAllFingerprints st;
     snap_healingEvents := getHealingEvents st |}.

(** [data.fingerprints.forEach((fp) => this.fingerprints.set(fp.name, fp))]. *)
Fixpoint import_loop (fps : list Heap.addr) (st : State) : State :=
  match fps with
  | [] => st
  | fp :: rest => import_loop rest (saveFingerprint fp st)
  end.

Definition import (data : Snapshot) (st : State) : State :=
  let '(h, s) := import_loop (snap_fingerprints data) st in
  (h, {| fingerprints := fingerprints s;
         healingEvents := snap_healingEvents data |}).

(** The fingerprint stored under [name], read through the heap. *)
Definition stored (name : string) (st : State) : option ElementFingerprint :=
  match getFingerprint name st with
  | Some r => Heap.deref (fst st) r
  | None => None
  end.

End LocatorStore.

(** ** The healing orchestrator ([index.ts]) *)

Module SelfHealingEngine.

(** [{ testFile, testName }]. *)
Record Context : Type := mkContext {
  ctx_testFile : string;
  ctx_testName : string
}.

(** Everything the engine reads or changes: the heap, the singleton
    [locatorStore], the number of [new Date()] evaluated so far and the
    effects performed so far. *)
Record World : Type := mkWorld {
  heap : Heap.t;
  store : LocatorStore.t;
  dates : nat;
  trace : list Effect
}.

Definition initial : World :=
  {| heap := []; store := LocatorStore.empty; dates := 0; trace := [] |}.

Definition store_state (w : World) : LocatorStore.State := (heap w, store w).

Definition with_store_state (w : World) (st : LocatorStore.State) : World :=
  {| heap := fst st; store := snd st; dates := dates w; trace := trace w |}.

Definition perform (w : World) (effects : list Effect) : World :=
  {| heap := heap w; store := store w; dates := dates w;
     trace := (trace w ++ effects)%list |}.

(** The default configuration of the constructor. *)
Definition default_config : SelfHealingConfig :=
  {| enabled := true;
     confidenceThreshold := 6 # 10;
     maxAlternatives := 5;
     reportPath := "cypress/reports/healing-report.json";
     autoUpdateLocators := false |}.

Definition q : string := String JS.dquote EmptyString.

(** The message of the error thrown when no fingerprint is stored. *)
Definition no_fingerprint_message (elementName primaryLocator : string)
    : string :=
  "Element " ++ q ++ elementName ++ q
  ++ " not found and no fingerprint available for self-healing. "
  ++ "Original locator: " ++ primaryLocator.

Section Engine.

Variable Math_sqrt : Q -> Q.
Variable document : Document.
Variable config : SelfHealingConfig.

(** [cy.get] resolves its selector with jQuery's engine, not with
    [querySelectorAll]: it accepts selectors that [querySelectorAll] rejects,
    such as [button:contains("Login")].  [jQuery selector] is what [cy.get]
    ends with on the page: the elements it yields, none when it gives up, or
    the error of a selector that jQuery rejects too. *)
Variable jQuery : Document.

(** The clock: [clock n] is the value of the [n]-th [new Date()]. *)
Variable clock : nat -> Z.

Definition new_Date (w : World) : Z * World :=
  (clock (dates w),
   {| heap := heap w; store := store w; dates := S (dates w);
      trace := trace w |}).

(** [this.matcher], built from [this.config.confidenceThreshold]. *)
Definition matcher_findElement (fingerprint : ElementFingerprint)
    : Traced (Completion ElementMatcher.MatchResult) :=
  ElementMatcher.findElement Math_sqrt document (confidenceThreshold config)
    fingerprint.

(** [locatorStore.saveFingerprint] of a newly built fingerprint object. *)
Definition save_new (fingerprint : ElementFingerprint) (w : World) : World :=
  let '(r, h) := Heap.alloc (heap w) fingerprint in
  with_store_state w (LocatorStore.saveFingerprint r (h, store w)).

(** [healAndFind(primaryLocator, elementName, context)]. *)
Definition healAndFind (primaryLocator elementName : string)
    (context : Context) (w : World) : Completion HTMLElement * World :=
  match LocatorStore.getFingerprint elementName (store_state w) with
  | None =>
      (Thrown (NoFingerprintAvailable
                 (no_fingerprint_message elementName primaryLocator)), w)
  | Some fingerprint =>
      match Heap.deref (heap w) fingerprint with
      | None =>
          (* no address in the map is dangling: see [wf_state] *)
          (Thrown (NoFingerprintAvailable
                     (no_fingerprint_message elementName primaryLocator)), w)
      | Some fingerprint_now =>
      (* Use the matcher to find the element *)
      let '(result, effects) := matcher_findElement fingerprint_now in
      let w := perform w effects in
      match result with
      | Thrown err => (Thrown err, w)
      | Normal result =>
          match ElementMatcher.element result with
          | None =>
              (Thrown (LowConfidenceHeal elementName
                         (ElementMatcher.confidence result)
                         (confidenceThreshold config)), w)
          | Some result_element =>
              if ElementMatcher.Qltb (ElementMatcher.confidence result)
                                     (confidenceThreshold config)
              then
                (Thrown (LowConfidenceHeal elementName
                           (ElementMatcher.confidence result)
                           (confidenceThreshold config)), w)
              else
                (* Record the healing event *)
                let '(timestamp, w) := new_Date w in
                let healingEvent :=
                  {| ev_timestamp := timestamp;
                     elementName := elementName;
                     originalLocator := primaryLocator;
                     healedLocator :=
                       match ElementMatcher.locator result with
                       | Some l =>
                           if JS.is_empty (l_value l) then "similarity-based"
                           else l_value l
                       | None => "similarity-based"
                       end;
                     strategy := ElementMatcher.matchedBy result;
                     ev_confidence := ElementMatcher.confidence result;
                     testFile := ctx_testFile context;
                     testName := ctx_testName context |} in
                let w :=
                  with_store_state w
                    (LocatorStore.recordHealingEvent healingEvent
                       (store_state w)) in
                (* Also log to terminal *)
                let w := perform w [TaskLogHealingEvent healingEvent] in
                (* Update fingerprint with new heal count: the fields of
                   [fingerprint] are read here, after [recordHealingEvent] *)
                match Heap.deref (heap w) fingerprint with
                | None => (Normal result_element, w)
                | Some fp =>
                    let '(seen, w) := new_Date w in
                    let updatedFingerprint :=
                      {| fp_name := fp_name fp;
                         fp_primaryLocator := fp_primaryLocator fp;
                         alternativeLocators := alternativeLocators fp;
                         attributes := attributes fp;
                         lastSeen := Some seen;
                         healCount := (healCount fp + 1)%Z |} in
                    let w := save_new updatedFingerprint w in
                    (Normal result_element, w)
                end
          end
      end
      end
  end.

(** [findElement(primaryLocator, elementName, context)], the body of the
    [heal] command. *)
Definition findElement (primaryLocator elementName : string)
    (context : Context) (w : World) : Completion HTMLElement * World :=
  (* First, try the primary locator *)
  let w := perform w [DomQuery primaryLocator] in
  match document primaryLocator with
  | Throws => (Thrown (SyntaxError primaryLocator), w)
  | Matches [element] =>
      (* Primary locator works - update fingerprint *)
      let '(now, w) := new_Date w in
      let fingerprint :=
        Fingerprint.captureElementFingerprint now element elementName
                                              primaryLocator in
      let w := save_new fingerprint w in
      (Normal element, w)
  | Matches _ =>
      (* Primary locator failed - attempt self-healing *)
      if negb (enabled config) then
        (Thrown (ElementNotFound ("Element not found: " ++ primaryLocator)), w)
      else healAndFind primaryLocator elementName context w
  end.

(** [registerElement(locator, elementName)]; [cy.get] fails when nothing
    matches, and otherwise yields the matches, the first of which is
    fingerprinted.  The selector goes to jQuery, not to the [document] of
    [findElement]. *)
Definition registerElement (locator elementName : string) (w : World)
    : Completion (list HTMLElement) * World :=
  let w := perform w [DomQuery locator] in
  match jQuery locator with
  | Throws => (Thrown (SyntaxError locator), w)
  | Matches [] => (Thrown (CyGetFailed locator), w)
  | Matches (element :: rest) =>
      let '(now, w) := new_Date w in
      let fingerprint :=
        Fingerprint.captureElementFingerprint now element elementName locator in
      let w := save_new fingerprint w in
      (Normal (element :: rest), w)
  end.

End Engine.

End SelfHealingEngine.

(** ** The signals of the score, and the score in exact arithmetic *)

Module ScoreSpec.
Import ElementMatcher.

(** The eight signals of the scoring table. *)
Inductive Signal : Type :=
  | S_text | S_ariaLabel | S_dataAttributes | S_placeholder | S_name
  | S_className | S_position | S_role.

Definition signals : list Signal :=
  [S_text; S_ariaLabel; S_dataAttributes; S_placeholder; S_name;
   S_className; S_position; S_role].

(** text 0.25, aria-label 0.20, data-* 0.15, placeholder 0.10, name 0.10,
    class 0.05, position 0.10, role 0.05. *)
Definition weight (s : Signal) : Q :=
  match s with
  | S_text => 25 # 100
  | S_ariaLabel => 2 # 10
  | S_dataAttributes => 15 # 100
  | S_placeholder => 1 # 10
  | S_name => 1 # 10
  | S_className => 5 # 100
  | S_position => 1 # 10
  | S_role => 5 # 100
  end.

(** A signal is present in the target attributes when the target records a
    value for it: a non-empty string, at least one [data-*] pair, a
    position. *)
Definition present (s : Signal) (target : ElementAttributes) : bool :=
  match s with
  | S_text => JS.truthy (text target)
  | S_ariaLabel => JS.truthy (ariaLabel target)
  | S_dataAttributes =>
      match dataAttributes target with
      | Some (_ :: _) => true
      | _ => false
      end
  | S_placeholder => JS.truthy (placeholder target)
  | S_name => JS.truthy (name target)
  | S_className => JS.truthy (className target)
  | S_position =>
      match position target with Some _ => true | None => false end
  | S_role => JS.truthy (role target)
  end.

(** The target has a field for the signal at all. *)
Definition recorded (s : Signal) (target : ElementAttributes) : Prop :=
  match s with
  | S_text => text target <> None
  | S_ariaLabel => ariaLabel target <> None
  | S_dataAttributes => dataAttributes target <> None
  | S_placeholder => placeholder target <> None
  | S_name => name target <> None
  | S_className => className target <> None
  | S_position => position target <> None
  | S_role => role target <> None
  end.

(** Whether the candidate carries the pair [(key, v)]. *)
Definition pair_matched (element : HTMLElement) (kv : string * string) : bool :=
  match getAttribute element (fst kv) with
  | Some ev => String.eqb ev (snd kv)
  | None => false
  end.

Definition ratio (a b : nat) : Q :=
  (inject_Z (Z.of_nat a) / inject_Z (Z.of_nat b))%Q.

Section WithSqrt.
Variable Math_sqrt : Q -> Q.

(** The comparison score of one signal as the block of the source computes
    it, in exact arithmetic; [ScoreTable.comparison] below words the table's
    third column, and the two agree. *)
Definition comparison (s : Signal) (element : HTMLElement)
    (target : ElementAttributes) : Q :=
  match s with
  | S_text =>
      stringSimilarity (JS.or_empty (option_map JS.trim (textContent element)))
                       (JS.or_empty (text target))
  | S_ariaLabel =>
      exact (JS.or_empty (getAttribute element "aria-label"))
            (JS.or_empty (ariaLabel target))
  | S_dataAttributes =>
      match dataAttributes target with
      | Some entries =>
          ratio (List.length (filter (pair_matched element) entries))
                (List.length entries)
      | None => 0%Q
      end
  | S_placeholder =>
      exact (JS.or_empty (getAttribute element "placeholder"))
            (JS.or_empty (placeholder target))
  | S_name =>
      exact (JS.or_empty (getAttribute element "name"))
            (JS.or_empty (name target))
  | S_className =>
      let elementClasses := JS.new_Set (JS.split_space (el_className element)) in
      let targetClasses :=
        JS.new_Set (JS.split_space (JS.or_empty (className target))) in
      ratio (List.length (filter (fun c => JS.mem c elementClasses)
                                 targetClasses))
            (List.length targetClasses)
  | S_position =>
      match position target with
      | Some target_position =>
          calculatePositionSimilarity Math_sqrt
            (getBoundingClientRect element) target_position
      | None => 0%Q
      end
  | S_role =>
      exact (JS.or_empty (getAttribute element "role"))
            (JS.or_empty (role target))
  end.

Definition weighted_sum (element : HTMLElement) (target : ElementAttributes)
    (ss : list Signal) : Q :=
  fold_right (fun s acc => (comparison s element target * weight s + acc)%Q)
             0%Q ss.

Definition weight_total (ss : list Signal) : Q :=
  fold_right (fun s acc => (weight s + acc)%Q) 0%Q ss.

(** Weighted sum over the present signals, divided by the sum of their
    weights; 0 when no signal is present. *)
Definition score (element : HTMLElement) (target : ElementAttributes) : Q :=
  match filter (fun s => present s target) signals with
  | [] => 0%Q
  | ss => (weighted_sum element target ss / weight_total ss)%Q
  end.

(** The running pair of the source after the block of signal [s]. *)
Definition step (element : HTMLElement) (target : ElementAttributes)
    (acc : Q * Q) (s : Signal) : Q * Q :=
  if present s target
  then (fst acc + comparison s element target * weight s,
        snd acc + weight s)%Q
  else acc.

(** How the source ends: [totalWeight > 0 ? totalScore / totalWeight : 0]. *)
Definition finish (acc : Q * Q) : Q :=
  if Qltb 0 (snd acc) then (fst acc / snd acc)%Q else 0%Q.

End WithSqrt.

End ScoreSpec.

(** ** The synthesis rules as the specification words them *)

Module LocatorSpec.
Import Fingerprint.

Definition priority_le (a b : LocatorStrategy) : Prop :=
  (l_priority a <= l_priority b)%Z.

(** The qualifiers from which [generateContextualCss] builds a selector:
    the tag name, a [type], the parent's id, or the first class token of the
    parent when the parent has no id. *)
Definition css_qualifier (attrs : ElementAttributes) : Prop :=
  JS.truthy (tagName attrs) = true
  \/ JS.truthy (type_ attrs) = true
  \/ JS.truthy (parent_id attrs) = true
  \/ (JS.truthy (parent_className attrs) = true
      /\ hd EmptyString
            (JS.split_space (JS.or_empty (parent_className attrs)))
         <> EmptyString).

(** The condition under which the code emits each strategy kind on
    captured attributes: a [data-*] value or a class string that is empty
    counts as missing, and the class test looks for the space character
    only. *)
Definition precondition (kind : LocatorType) (attrs : ElementAttributes)
    : Prop :=
  match kind with
  | LT_data_testid =>
      exists v, data_attr attrs "data-testid" = Some v /\ v <> EmptyString
  | LT_data_cy =>
      exists v, data_attr attrs "data-cy" = Some v /\ v <> EmptyString
  | LT_id => id attrs <> None
  | LT_aria_label => ariaLabel attrs <> None
  | LT_name => name attrs <> None
  | LT_placeholder => placeholder attrs <> None
  | LT_role => role attrs <> None /\ text attrs <> None
  | LT_text => exists t, text attrs = Some t /\ String.length t < 50
  | LT_class =>
      exists c, className attrs = Some c /\ JS.includes_space c = false
  | LT_css => css_qualifier attrs
  | LT_xpath => False
  | LT_title => False
  end.

(** No character of [s] is white space. *)
Fixpoint no_white_space (s : string) : bool :=
  match s with
  | String c s' => negb (JS.is_white_space c) && no_white_space s'
  | EmptyString => true
  end.

(** The preconditions read to the letter: test-id as soon as [data-testid]
    is present, css-class exactly when the class string contains no white
    space. *)
Definition precondition_as_stated (kind : LocatorType)
    (attrs : ElementAttributes) : Prop :=
  match kind with
  | LT_data_testid => exists v, data_attr attrs "data-testid" = Some v
  | LT_data_cy => exists v, data_attr attrs "data-cy" = Some v
  | LT_class =>
      exists c, className attrs = Some c /\ no_white_space c = true
  | _ => precondition kind attrs
  end.

(** White space in the class string: a css-class locator is promised when
    the string holds none, and excluded when it holds a space character;
    of a string whose only white space is a TAB or a line break nothing is
    said. *)
Definition class_promised (attrs : ElementAttributes) : Prop :=
  exists c, className attrs = Some c /\ no_white_space c = true.

Definition class_excluded (attrs : ElementAttributes) : Prop :=
  className attrs = None
  \/ exists c, className attrs = Some c /\ JS.includes_space c = true.

(** The rule of one kind, given whether the kind is among the locators. *)
Definition rule (kind : LocatorType) (attrs : ElementAttributes)
    (emitted : Prop) : Prop :=
  match kind with
  | LT_class =>
      (class_promised attrs -> emitted)
      /\ (class_excluded attrs -> ~ emitted)
  | _ => emitted <-> precondition kind attrs
  end.

(** The priority-ordering property with the rules above. *)
Definition priority_ordering_by_rule (fp : ElementFingerprint) : Prop :=
  StronglySorted priority_le (alternativeLocators fp)
  /\ forall kind,
       rule kind (attributes fp)
         (In kind (map l_type (alternativeLocators fp))).

(** The priority-ordering property of a captured fingerprint, for a given
    reading of the preconditions. *)
Definition priority_ordering
    (pre : LocatorType -> ElementAttributes -> Prop)
    (fp : ElementFingerprint) : Prop :=
  StronglySorted priority_le (alternativeLocators fp)
  /\ forall kind,
       In kind (map l_type (alternativeLocators fp))
       <-> pre kind (attributes fp).

End LocatorSpec.

(** ** Sample pages and elements *)

Module Samples.

Definition tab : string := String (ascii_of_nat 9) EmptyString.

(** A [Math.sqrt] for the samples: exact wherever the root is rational. *)
Definition sqrt_Q (x : Q) : Q :=
  (inject_Z (Z.sqrt (Qnum x * Zpos (Qden x))) / inject_Z (Zpos (Qden x)))%Q.

Definition rect (x y w h : Z) : ElementPosition :=
  {| pos_x := inject_Z x; pos_y := inject_Z y;
     pos_width := inject_Z w; pos_height := inject_Z h |}.

(** [<div data-testid="" class="a&#9;b"></div>]: an empty test id and a
    class string whose two tokens are separated by a TAB. *)
Definition odd_div : HTMLElement :=
  {| el_tagName := "DIV";
     el_attributes := [("data-testid", EmptyString); ("class", "a" ++ tab ++ "b")];
     textContent := Some EmptyString;
     el_innerText := Some EmptyString;
     el_value := None;
     getBoundingClientRect := rect 0 0 10 10;
     parentElement := None |}.

End Samples.

(** ** The matcher's acceptance paths *)

Module MatcherSpec.
Import ElementMatcher.

Section WithPage.
Variable Math_sqrt : Q -> Q.
Variable document : Document.
Variable confidenceThreshold : Q.

(** [r] was accepted through the uniqueness short-circuit: some strategy of
    the fingerprint yielded exactly one structural match, returned with the
    strategy's static confidence and kind. *)
Definition short_circuit (fp : ElementFingerprint) (r : MatchResult) : Prop :=
  exists l e,
    In l (alternativeLocators fp)
    /\ document (l_value l) = Matches [e]
    /\ r = {| element := Some e; locator := Some l;
              confidence := l_confidence l;
              matchedBy := ByLocator (l_type l) |}.

(** The label of a result of the similarity scan. *)
Definition similarity_fallback (r : MatchResult) : Prop :=
  matchedBy r = BySimilarity /\ locator r = None.

(** The strategy [l] yielded nothing acceptable: the document rejected its
    selector, or the selector matched no element, or it matched several
    and none of them scored at or above the threshold. *)
Definition strategy_failed (fp : ElementFingerprint) (l : LocatorStrategy)
    : Prop :=
  match document (l_value l) with
  | Throws => True
  | Matches [] => True
  | Matches [_] => False
  | Matches candidates =>
      forall c, In c candidates ->
        (calculateSimilarityScore Math_sqrt c (attributes fp)
         < confidenceThreshold)%Q
  end.

(** [r] is the result of the last-resort similarity scan: every strategy
    of the fingerprint failed, and [r] holds an element of the
    fingerprint's tag name that no other such element outscores, with its
    score, whatever that is, attributed to ['similarity'] and without a
    locator. *)
Definition last_resort_scan (fp : ElementFingerprint) (r : MatchResult)
    : Prop :=
  (forall l, In l (alternativeLocators fp) -> strategy_failed fp l)
  /\ exists tag candidates e,
       tagName (attributes fp) = Some tag
       /\ document tag = Matches candidates
       /\ In e candidates
       /\ element r = Some e
       /\ confidence r = calculateSimilarityScore Math_sqrt e (attributes fp)
       /\ (forall c, In c candidates ->
             (calculateSimilarityScore Math_sqrt c (attributes fp)
              <= confidence r)%Q)
       /\ matchedBy r = BySimilarity
       /\ locator r = None.

(** The threshold gate on the matcher alone: each result with an element
    and a confidence strictly below the threshold is one of [exceptions]. *)
Definition threshold_gate (exceptions : MatchResult -> Prop)
    (fp : ElementFingerprint) : Prop :=
  forall r effects,
    findElement Math_sqrt document confidenceThreshold fp
    = (Normal r, effects) ->
    element r <> None ->
    (confidence r < confidenceThreshold)%Q ->
    exceptions r.

(** The effects of the strategies that were tried and did not return. *)
Definition effects_of (fp : ElementFingerprint)
    (tried : list LocatorStrategy) : list Effect :=
  flat_map
    (fun l => snd (try_locator Math_sqrt document confidenceThreshold fp l))
    tried.

End WithPage.

End MatcherSpec.

(** ** Sample scenarios: a login page before and after a redesign *)

Module Scenarios.
Import Samples.

(** A page given by the selectors that match something on it. *)
Fixpoint page (entries : list (string * QueryResult)) : Document :=
  fun selector =>
    match entries with
    | [] => Matches []
    | (sel, result) :: rest =>
        if String.eqb selector sel then result else page rest selector
    end.

Definition login_form : ParentElement :=
  {| par_tagName := "FORM"; par_className := EmptyString;
     par_id := "login-form" |}.

(** [<input id="username" data-testid="username-input" class="field"
     placeholder="Enter username" name="username" type="text">]. *)
Definition username_input : HTMLElement :=
  {| el_tagName := "INPUT";
     el_attributes :=
       [("id", "username"); ("data-testid", "username-input");
        ("class", "field"); ("placeholder", "Enter username");
        ("name", "username"); ("type", "text")];
     textContent := Some EmptyString;
     el_innerText := Some EmptyString;
     el_value := Some EmptyString;
     getBoundingClientRect := rect 100 80 200 30;
     parentElement := Some login_form |}.

Definition password_input : HTMLElement :=
  {| el_tagName := "INPUT";
     el_attributes :=
       [("id", "password"); ("data-testid", "password-input");
        ("class", "field"); ("placeholder", "Enter password");
        ("name", "password"); ("type", "password")];
     textContent := Some EmptyString;
     el_innerText := Some EmptyString;
     el_value := Some EmptyString;
     getBoundingClientRect := rect 100 130 200 30;
     parentElement := Some login_form |}.

(** The user-name field after its id and test id were renamed. *)
Definition username_renamed : HTMLElement :=
  {| el_tagName := "INPUT";
     el_attributes :=
       [("id", "user-email-field"); ("data-testid", "email-input");
        ("class", "field"); ("placeholder", "Enter username");
        ("name", "username"); ("type", "text")];
     textContent := Some EmptyString;
     el_innerText := Some EmptyString;
     el_value := Some EmptyString;
     getBoundingClientRect := rect 100 80 200 30;
     parentElement := Some login_form |}.

(** A search box far from where the user-name field was. *)
Definition search_input : HTMLElement :=
  {| el_tagName := "INPUT";
     el_attributes :=
       [("id", "search-input"); ("data-testid", "search-input");
        ("class", "field"); ("placeholder", "Search products");
        ("name", "q"); ("type", "search")];
     textContent := Some EmptyString;
     el_innerText := Some EmptyString;
     el_value := Some EmptyString;
     getBoundingClientRect := rect 400 480 600 90;
     parentElement := None |}.

Definition newsletter_input : HTMLElement :=
  {| el_tagName := "INPUT";
     el_attributes :=
       [("id", "newsletter"); ("class", "field wide");
        ("placeholder", "Your e-mail"); ("name", "email"); ("type", "email")];
     textContent := Some EmptyString;
     el_innerText := Some EmptyString;
     el_value := Some EmptyString;
     getBoundingClientRect := rect 700 880 600 90;
     parentElement := None |}.

Definition test_id_selector (v : string) : string :=
  "[data-testid=" ++ Fingerprint.q ++ v ++ Fingerprint.q ++ "]".

Definition name_selector (v : string) : string :=
  "[name=" ++ Fingerprint.q ++ v ++ Fingerprint.q ++ "]".

Definition placeholder_selector (v : string) : string :=
  "[placeholder=" ++ Fingerprint.q ++ v ++ Fingerprint.q ++ "]".

(** The page on which the elements are registered. *)
Definition login_page : Document :=
  page [("#username", Matches [username_input]);
        (test_id_selector "username-input", Matches [username_input]);
        (name_selector "username", Matches [username_input]);
        (placeholder_selector "Enter username", Matches [username_input]);
        ("#password", Matches [password_input]);
        (".field", Matches [username_input; password_input]);
        ("input", Matches [username_input; password_input])].

(** The same page once the id and the test id of the user-name field have
    changed: [#username] and its test id match nothing. *)
Definition renamed_page : Document :=
  page [("#user-email-field", Matches [username_renamed]);
        (test_id_selector "email-input", Matches [username_renamed]);
        (name_selector "username", Matches [username_renamed]);
        (placeholder_selector "Enter username", Matches [username_renamed]);
        ("#password", Matches [password_input]);
        (".field", Matches [username_renamed; password_input]);
        ("input", Matches [username_renamed; password_input])].

(** A page from which the login form is gone: of the strategies of the
    user-name field only the class matches, twice, and poorly. *)
Definition search_page : Document :=
  page [(".field", Matches [search_input; newsletter_input]);
        ("input", Matches [search_input; newsletter_input])].

(** The clock of the samples: the [n]-th reading is [1000 + n]. *)
Definition clock (n : nat) : Z := (1000 + Z.of_nat n)%Z.

Definition context : SelfHealingEngine.Context :=
  {| SelfHealingEngine.ctx_testFile := "cypress/e2e/self-healing.cy.ts";
     SelfHealingEngine.ctx_testName := "heals a broken locator" |}.

(** The fingerprint of the user-name field, captured at time 1000. *)
Definition username_fingerprint : ElementFingerprint :=
  Fingerprint.captureElementFingerprint 1000 username_input
    "usernameInput" "#username".

End Scenarios.

(** ** The orchestrator's properties as the specification words them *)

Module EngineSpec.
Import SelfHealingEngine.


(** The invariant of the store: the keys of the map are distinct and each
    names a live fingerprint object whose [name] is the key.  Every method
    of the store keeps it. *)
Definition wf_entry (h : Heap.t) (entry : string * Heap.addr) : Prop :=
  exists fp, Heap.deref h (snd entry) = Some fp /\ fp_name fp = fst entry.

Definition wf_state (st : LocatorStore.State) : Prop :=
  NoDup (Map_.keys (LocatorStore.fingerprints (snd st)))
  /\ Forall (wf_entry (fst st)) (LocatorStore.fingerprints (snd st)).

Definition wf (w : World) : Prop := wf_state (store_state w).

(** The fingerprint the store holds for [name]. *)
Definition stored (name : string) (w : World) : option ElementFingerprint :=
  LocatorStore.stored name (store_state w).

Section WithEngine.
Variable Math_sqrt : Q -> Q.
Variable document : Document.
Variable config : SelfHealingConfig.
Variable clock : nat -> Z.

Let heal := findElement Math_sqrt document config clock.

(** [lastSeen] of [fp] was read from the clock during the step from [w] to
    [w']. *)
Definition refreshed (w w' : World) (fp : ElementFingerprint) : Prop :=
  exists n, dates w <= n < dates w' /\ lastSeen fp = Some (clock n).

(** C3 to the letter: each successful resolution of a registered element,
    direct or healed, leaves a stored fingerprint with a larger heal count
    and a refreshed last-seen. *)
Definition resolution_increments (primaryLocator elementName : string)
    (context : Context) (w : World) : Prop :=
  forall fp0 e w',
    stored elementName w = Some fp0 ->
    heal primaryLocator elementName context w = (Normal e, w') ->
    exists fp1,
      stored elementName w' = Some fp1
      /\ (healCount fp0 < healCount fp1)%Z
      /\ refreshed w w' fp1.


End WithEngine.

End EngineSpec.

Module HealSpec.

(** What [healAndFind] stores after a heal of [fp] at clock reading
    [seen]: [fp] with a new last-seen and a heal count that went up twice,
    once in [recordHealingEvent] and once in [healAndFind]. *)
Definition healed (fp : ElementFingerprint) (seen : Z) : ElementFingerprint :=
  {| fp_name := fp_name fp;
     fp_primaryLocator := fp_primaryLocator fp;
     alternativeLocators := alternativeLocators fp;
     attributes := attributes fp;
     lastSeen := Some seen;
     healCount := (healCount fp + 1 + 1)%Z |}.

End HealSpec.

(** ** Sample runs *)

Module Runs.
Import Samples Scenarios SelfHealingEngine.

(** [cy.registerForHealing('#username', 'usernameInput')] on the login
    page, in a new run; jQuery and [querySelectorAll] answer the selectors
    of the sample pages alike. *)
Definition registered : World :=
  snd (registerElement login_page clock "#username" "usernameInput" initial).

(** Then [cy.heal('#username', 'usernameInput')] once the page has changed:
    the primary locator is broken and the element is healed. *)
Definition after_heal : Completion HTMLElement * World :=
  findElement sqrt_Q renamed_page default_config clock
    "#username" "usernameInput" context registered.

(** Or the same command on the page as it was: a direct resolution. *)
Definition after_direct : Completion HTMLElement * World :=
  findElement sqrt_Q login_page default_config clock
    "#username" "usernameInput" context registered.

(** [cy.heal('#ghost', 'ghost')] in a new run: nothing is registered under
    that name and the locator matches nothing. *)
Definition ghost : Completion HTMLElement * World :=
  findElement sqrt_Q login_page default_config clock
    "#ghost" "ghost" context initial.

End Runs.

(** ** More sample pages *)

Module Scenarios2.
Import Samples Scenarios.

(** The user-name field after only its id was renamed. *)
Definition username_new_id : HTMLElement :=
  {| el_tagName := "INPUT";
     el_attributes :=
       [("id", "user-email-field"); ("data-testid", "username-input");
        ("class", "field"); ("placeholder", "Enter username");
        ("name", "username"); ("type", "text")];
     textContent := Some EmptyString;
     el_innerText := Some EmptyString;
     el_value := Some EmptyString;
     getBoundingClientRect := rect 100 80 200 30;
     parentElement := Some login_form |}.

Definition new_id_page : Document :=
  page [("#user-email-field", Matches [username_new_id]);
        (test_id_selector "username-input", Matches [username_new_id]);
        (name_selector "username", Matches [username_new_id]);
        (placeholder_selector "Enter username", Matches [username_new_id]);
        ("#password", Matches [password_input]);
        (".field", Matches [username_new_id; password_input]);
        ("input", Matches [username_new_id; password_input])].

(** A run whose confidence threshold is 0.99. *)
Definition strict_config : SelfHealingConfig :=
  {| enabled := true;
     confidenceThreshold := 99 # 100;
     maxAlternatives := 5;
     reportPath := "cypress/reports/healing-report.json";
     autoUpdateLocators := false |}.

(** A run with healing switched off. *)
Definition disabled_config : SelfHealingConfig :=
  {| enabled := false;
     confidenceThreshold := 6 # 10;
     maxAlternatives := 5;
     reportPath := "cypress/reports/healing-report.json";
     autoUpdateLocators := false |}.

End Scenarios2.

(** ** What capture guarantees *)

Module CaptureSpec.

(** The attribute names of the element are distinct, as they are in the
    [NamedNodeMap] of a DOM element. *)
Definition unique_attribute_names (element : HTMLElement) : Prop :=
  NoDup (map fst (el_attributes element)).

(** The trimmed text of the element fits in the 100 code units that a
    fingerprint keeps of it. *)
Definition text_fits (element : HTMLElement) : Prop :=
  match textContent element with
  | Some t => String.length (JS.trim t) <= 100
  | None => True
  end.

Definition at_most_100 (o : option string) : Prop :=
  match o with Some s => String.length s <= 100 | None => True end.

(** The shape of captured attributes: a tag name and a position are there,
    no string field is there but empty, the two texts hold at most 100 code
    units, and the [data-*] record, when there, is not empty, has distinct
    keys and only keys that start with [data-]. *)
Definition well_formed (attrs : ElementAttributes) : Prop :=
  tagName attrs <> None
  /\ position attrs <> None
  /\ Forall (fun o => o <> Some EmptyString)
       [text attrs; innerText attrs; className attrs; id attrs; name attrs;
        placeholder attrs; title attrs; ariaLabel attrs; role attrs;
        type_ attrs; href attrs; src attrs; value attrs;
        Fingerprint.parent_className attrs; Fingerprint.parent_id attrs]
  /\ at_most_100 (text attrs)
  /\ at_most_100 (innerText attrs)
  /\ match dataAttributes attrs with
     | Some entries =>
         entries <> []
         /\ NoDup (map fst entries)
         /\ Forall (fun kv => JS.startsWith "data-" (fst kv) = true) entries
     | None => True
     end.

End CaptureSpec.

(** ** What the matcher asks of the document *)

Module QuerySpec.

(** The selectors an operation sent to the document, in order. *)
Fixpoint queries (effects : list Effect) : list string :=
  match effects with
  | [] => []
  | DomQuery selector :: rest => selector :: queries rest
  | _ :: rest => queries rest
  end.

(** The candidates an operation scored, in order. *)
Fixpoint scored (effects : list Effect) : list HTMLElement :=
  match effects with
  | [] => []
  | Scored candidate :: rest => candidate :: scored rest
  | _ :: rest => scored rest
  end.

(** A strategy is usable on a page when its selector parses and matches at
    least one element. *)
Definition usable (document : Document) (l : LocatorStrategy) : bool :=
  match document (l_value l) with
  | Matches (_ :: _) => true
  | _ => false
  end.

(** [{ ...fingerprint, alternativeLocators: locators }]. *)
Definition with_locators (fp : ElementFingerprint)
    (locators : list LocatorStrategy) : ElementFingerprint :=
  {| fp_name := fp_name fp;
     fp_primaryLocator := fp_primaryLocator fp;
     alternativeLocators := locators;
     attributes := attributes fp;
     lastSeen := lastSeen fp;
     healCount := healCount fp |}.

End QuerySpec.

(** ** The static table of the strategies, and quoting *)

Module TableSpec.

(** The priority and the confidence [generateAlternativeLocators] gives to
    each kind it synthesizes. *)
Definition static_priority (kind : LocatorType) : Z :=
  match kind with
  | LT_data_testid => 1
  | LT_data_cy => 2
  | LT_id => 3
  | LT_aria_label => 4
  | LT_name => 5
  | LT_placeholder => 6
  | LT_role => 7
  | LT_text => 8
  | LT_class => 9
  | LT_css => 10
  | LT_xpath | LT_title => 0
  end.

Definition static_confidence (kind : LocatorType) : Q :=
  match kind with
  | LT_data_testid => 95 # 100
  | LT_data_cy => 95 # 100
  | LT_id => 9 # 10
  | LT_aria_label => 85 # 100
  | LT_name => 8 # 10
  | LT_placeholder => 75 # 100
  | LT_role => 7 # 10
  | LT_text => 7 # 10
  | LT_class => 5 # 10
  | LT_css => 6 # 10
  | LT_xpath | LT_title => 0
  end.

Definition priority_lt (a b : LocatorStrategy) : Prop :=
  (l_priority a < l_priority b)%Z.

(** A locator as the table wants it, with a selector that is not empty. *)
Definition by_the_table (l : LocatorStrategy) : Prop :=
  l_priority l = static_priority (l_type l)
  /\ l_confidence l = static_confidence (l_type l)
  /\ l_value l <> EmptyString.

(** The list built so far: in strictly ascending priority, below [p], and
    by the table. *)
Definition built (p : Z) (l : list LocatorStrategy) : Prop :=
  StronglySorted priority_lt l
  /\ Forall (fun x => (l_priority x < p)%Z) l
  /\ Forall by_the_table l
  /\ (Z.of_nat (List.length l) < p)%Z.

(** Every double quote of [s] comes right after a backslash;
    [after_backslash] tells whether the character before [s] was one. *)
Fixpoint quotes_escaped_from (after_backslash : bool) (s : string) : bool :=
  match s with
  | EmptyString => true
  | String c s' =>
      (if Ascii.eqb c JS.dquote then after_backslash else true)
      && quotes_escaped_from (Ascii.eqb c JS.backslash) s'
  end.

Fixpoint count_quotes (s : string) : nat :=
  match s with
  | EmptyString => 0
  | String c s' => (if Ascii.eqb c JS.dquote then 1 else 0) + count_quotes s'
  end.

End TableSpec.

(** ** The Cypress commands ([commands.ts]) *)

Module Commands.
Import SelfHealingEngine.

(** What the commands read from the runner: [Cypress.spec.relative] and
    [Cypress.currentTest.title]. *)
Record Cypress : Type := mkCypress {
  spec_relative : string;
  currentTest_title : string
}.

Section WithPage.
Variable Math_sqrt : Q -> Q.
Variable document : Document.
Variable jQuery : Document.
Variable clock : nat -> Z.
Variable cypress : Cypress.

(** [cy.heal(locator, elementName)]: [findElement] of the default engine
    instance, [new SelfHealingEngine()]. *)
Definition heal (locator elementName : string) (w : World)
    : Completion HTMLElement * World :=
  let testFile := spec_relative cypress in
  let testName := currentTest_title cypress in
  findElement Math_sqrt document default_config clock locator elementName
    {| ctx_testFile := testFile; ctx_testName := testName |} w.

(** [cy.registerForHealing(locator, elementName)]. *)
Definition registerForHealing (locator elementName : string) (w : World)
    : Completion (list HTMLElement) * World :=
  registerElement jQuery clock locator elementName w.

End WithPage.

End Commands.

(** ** What the store's methods leave behind *)

Module StoreSpec.

(** [fp] after [fingerprint.healCount++]. *)
Definition healed_once (fp : ElementFingerprint) : ElementFingerprint :=
  {| fp_name := fp_name fp;
     fp_primaryLocator := fp_primaryLocator fp;
     alternativeLocators := alternativeLocators fp;
     attributes := attributes fp;
     lastSeen := lastSeen fp;
     healCount := (healCount fp + 1)%Z |}.

(** The last fingerprint object of a snapshot whose name is [name]. *)
Fixpoint last_named (h : Heap.t) (name : string) (fps : list Heap.addr)
    : option Heap.addr :=
  match fps with
  | [] => None
  | r :: rest =>
      match last_named h name rest with
      | Some r' => Some r'
      | None =>
          match Heap.deref h r with
          | Some fp => if String.eqb (fp_name fp) name then Some r else None
          | None => None
          end
      end
  end.

End StoreSpec.

(** ** What the engine's commands leave behind *)

Module CommandSpec.
Import SelfHealingEngine.

(** The objects, the store and the clock of [w'] are those of [w]. *)
Definition untouched (w w' : World) : Prop :=
  heap w' = heap w /\ store w' = store w /\ dates w' = dates w.

(** The healing events logged to the terminal, in order. *)
Fixpoint logged (effects : list Effect) : list HealingEvent :=
  match effects with
  | [] => []
  | TaskLogHealingEvent event :: rest => event :: logged rest
  | _ :: rest => logged rest
  end.

(** [{ ...fp, lastSeen: seen }]. *)
Definition seen_at (fp : ElementFingerprint) (seen : Z) : ElementFingerprint :=
  {| fp_name := fp_name fp;
     fp_primaryLocator := fp_primaryLocator fp;
     alternativeLocators := alternativeLocators fp;
     attributes := attributes fp;
     lastSeen := Some seen;
     healCount := healCount fp |}.

(** The worlds a run can be in: the engine's two public operations, on
    whatever page they meet, as [querySelectorAll] or jQuery answers for
    it, and with whatever configuration the instance was built, starting
    from the empty store of a new run.  The store is a
    module-level singleton, shared by every instance. *)
Inductive reachable (Math_sqrt : Q -> Q) (clock : nat -> Z) : World -> Prop :=
  | reach_initial : reachable Math_sqrt clock initial
  | reach_findElement (document : Document) (config : SelfHealingConfig)
      (primaryLocator elementName : string) (context : Context) (w : World) :
      reachable Math_sqrt clock w ->
      reachable Math_sqrt clock
        (snd (findElement Math_sqrt document config clock primaryLocator
                elementName context w))
  | reach_registerElement (jQuery : Document)
      (locator elementName : string) (w : World) :
      reachable Math_sqrt clock w ->
      reachable Math_sqrt clock
        (snd (registerElement jQuery clock locator elementName w)).

(** Every logged event names a stored fingerprint. *)
Definition events_named (w : World) : Prop :=
  Forall (fun event =>
            LocatorStore.hasFingerprint (elementName event) (store_state w)
            = true)
         (LocatorStore.getHealingEvents (store_state w)).

(** What the [heal] command can throw, and when. *)
Definition heal_error (document : Document) (locator elementName : string)
    (w : World) (err : Error) : Prop :=
  match err with
  | ElementNotFound _ => False
  | CyGetFailed _ => False
  | NoFingerprintAvailable message =>
      message = no_fingerprint_message elementName locator
      /\ LocatorStore.hasFingerprint elementName (store_state w) = false
  | LowConfidenceHeal name achieved required =>
      name = elementName /\ required = (6 # 10)%Q /\ (achieved < 6 # 10)%Q
  | SyntaxError selector => document selector = Throws
  end.

End CommandSpec.

(** ** A selector that only jQuery understands *)

Module Scenarios3.
Import Samples Scenarios.

(** [<button type="submit" class="btn">Login</button>] of the login form. *)
Definition login_button : HTMLElement :=
  {| el_tagName := "BUTTON";
     el_attributes := [("type", "submit"); ("class", "btn")];
     textContent := Some "Login";
     el_innerText := Some "Login";
     el_value := Some EmptyString;
     getBoundingClientRect := rect 100 160 80 30;
     parentElement := Some login_form |}.

(** [button:contains("Login")], the locator of the test "should find button
    by text content". *)
Definition contains_login : string :=
  "button:contains(" ++ Fingerprint.q ++ "Login" ++ Fingerprint.q ++ ")".

(** The login page as jQuery answers for it: [:contains] is a jQuery
    extension and selects the button. *)
Definition login_page_jQuery : Document :=
  fun selector =>
    if String.eqb selector contains_login then Matches [login_button]
    else login_page selector.

(** The login page as [querySelectorAll] answers for it: [:contains] is not
    a CSS selector and is rejected. *)
Definition login_page_dom : Document :=
  fun selector =>
    if String.eqb selector contains_login then Throws
    else login_page selector.

End Scenarios3.

(** ** The arithmetic of the scores *)

(** A JavaScript number is an IEEE 754 double.  The scoring code is
    embedded once more over the arithmetic it runs on, given by the
    operations it uses, so that it can be read in exact arithmetic, as in
    [ElementMatcher] above, and in binary64, as it runs. *)
Module Number.

Record t : Type := mk {
  num : Type;
  zero : num;
  one : num;
  add : num -> num -> num;
  sub : num -> num -> num;
  mul : num -> num -> num;
  div : num -> num -> num;
  abs : num -> num;   (* [Math.abs] *)
  max : num -> num -> num;   (* [Math.max] *)
  sqrt : num -> num;   (* [Math.sqrt] *)
  ltb : num -> num -> bool;   (* [a < b] *)
  of_Z : Z -> num;   (* a whole number: a length, a counter, [200], [50] *)
  of_Q : Q -> num   (* a decimal literal [n/d], a coordinate *)
}.

(** Exact arithmetic on the rationals, [Math.sqrt] being a parameter. *)
Definition Exact (Math_sqrt : Q -> Q) : t :=
  {| num := Q;
     zero := 0%Q;
     one := 1%Q;
     add := Qplus;
     sub := Qminus;
     mul := Qmult;
     div := Qdiv;
     abs := Qabs;
     max := Qmax;
     sqrt := Math_sqrt;
     ltb := ElementMatcher.Qltb;
     of_Z := inject_Z;
     of_Q := fun q => q |}.

(** A whole number below [2^53] in absolute value as a double: exactly. *)
Definition float_of_Z (z : Z) : PrimFloat.float :=
  if (z <? 0)%Z
  then PrimFloat.opp (PrimFloat.of_uint63 (Uint63.of_Z (- z)))
  else PrimFloat.of_uint63 (Uint63.of_Z z).

(** The double of a decimal literal such as [0.25] or [0.1], and of a
    coordinate: the double nearest to [n/d], which is what the correctly
    rounded division of the two whole numbers gives. *)
Definition float_of_Q (q : Q) : PrimFloat.float :=
  PrimFloat.div (float_of_Z (Qnum q)) (float_of_Z (Zpos (Qden q))).

(** [Math.max(a, b)]: [NaN] if either is, and [+0] above [-0]. *)
Definition float_max (a b : PrimFloat.float) : PrimFloat.float :=
  if PrimFloat.is_nan a then a
  else if PrimFloat.is_nan b then b
  else if PrimFloat.ltb a b then b
  else if PrimFloat.ltb b a then a
  else if PrimFloat.get_sign a then b else a.

(** IEEE 754 binary64 with rounding to nearest, ties to even: the
    arithmetic of JavaScript. *)
Definition Binary64 : t :=
  {| num := PrimFloat.float;
     zero := PrimFloat.zero;
     one := PrimFloat.one;
     add := PrimFloat.add;
     sub := PrimFloat.sub;
     mul := PrimFloat.mul;
     div := PrimFloat.div;
     abs := PrimFloat.abs;
     max := float_max;
     sqrt := PrimFloat.sqrt;
     ltb := PrimFloat.ltb;
     of_Z := float_of_Z;
     of_Q := float_of_Q |}.

End Number.

Declare Scope num_scope.
Delimit Scope num_scope with num.

(** ** The scoring code over its arithmetic ([element-matcher.ts]) *)

Module Scoring.
Import Levenshtein.

(** The weights table of [calculateSimilarityScore]. *)
Module weights.
Section Table.
Variable N : Number.t.
Definition text : Number.num N := Number.of_Q N (25 # 100).
Definition ariaLabel : Number.num N := Number.of_Q N (2 # 10).
Definition dataAttributes : Number.num N := Number.of_Q N (15 # 100).
Definition placeholder : Number.num N := Number.of_Q N (1 # 10).
Definition name : Number.num N := Number.of_Q N (1 # 10).
Definition className : Number.num N := Number.of_Q N (5 # 100).
Definition position : Number.num N := Number.of_Q N (1 # 10).
Definition role : Number.num N := Number.of_Q N (5 # 100).
End Table.
End weights.

Section WithNumber.
Variable N : Number.t.

Local Notation "0" := (Number.zero N) : num_scope.
Local Notation "1" := (Number.one N) : num_scope.
Local Infix "+" := (Number.add N) : num_scope.
Local Infix "-" := (Number.sub N) : num_scope.
Local Infix "*" := (Number.mul N) : num_scope.
Local Infix "/" := (Number.div N) : num_scope.
Local Infix "<?" := (Number.ltb N) : num_scope.

(** A [.length] or a counter, as a number. *)
Definition of_nat (n : nat) : Number.num N := Number.of_Z N (Z.of_nat n).

(** [stringSimilarity(str1, str2)]. *)
Definition stringSimilarity (str1 str2 : string) : Number.num N :=
  if String.eqb str1 str2 then 1%num
  else if JS.is_empty str1 || JS.is_empty str2 then 0%num
  else
    let longer :=
      if String.length str2 <? String.length str1 then str1 else str2 in
    let shorter :=
      if String.length str2 <? String.length str1 then str2 else str1 in
    if String.length longer =? 0 then 1%num
    else
      let distance := levenshteinDistance longer shorter in
      ((of_nat (String.length longer) - of_nat distance)
       / of_nat (String.length longer))%num.

(** [x === y ? 1 : 0] on strings. *)
Definition exact (x y : string) : Number.num N :=
  if String.eqb x y then 1%num else 0%num.

(** [calculatePositionSimilarity(rect, target)]; [Math.pow(d, 2)] is
    [d * d]. *)
Definition calculatePositionSimilarity (rect target : ElementPosition)
    : Number.num N :=
  let n := Number.of_Q N in
  let maxDistance := Number.of_Z N 200 in
  let distance :=
    Number.sqrt N
      ((n (pos_x rect) - n (pos_x target))
       * (n (pos_x rect) - n (pos_x target))
       + (n (pos_y rect) - n (pos_y target))
         * (n (pos_y rect) - n (pos_y target)))%num in
  let sizeMatch :=
    if (Number.abs N (n (pos_width rect) - n (pos_width target))
        <? Number.of_Z N 50)%num
       && (Number.abs N (n (pos_height rect) - n (pos_height target))
           <? Number.of_Z N 50)%num
    then Number.of_Q N (5 # 10) else 0%num in
  let positionMatch :=
    (Number.max N 0 (1 - distance / maxDistance)
     * Number.of_Q N (5 # 10))%num in
  (positionMatch + sizeMatch)%num.

(** [calculateSimilarityScore(element, target)]: the running pair
    [(totalScore, totalWeight)] goes through the eight blocks in order. *)
Definition calculateSimilarityScore (element : HTMLElement)
    (target : ElementAttributes) : Number.num N :=
  let totalScore := 0%num in
  let totalWeight := 0%num in
  (* Text similarity *)
  let '(totalScore, totalWeight) :=
    if JS.truthy (text target) then
      let elementText :=
        JS.or_empty (option_map JS.trim (textContent element)) in
      let textSimilarity :=
        stringSimilarity elementText (JS.or_empty (text target)) in
      (totalScore + textSimilarity * weights.text N,
       totalWeight + weights.text N)%num
    else (totalScore, totalWeight) in
  (* aria-label *)
  let '(totalScore, totalWeight) :=
    if JS.truthy (ariaLabel target) then
      let elementAriaLabel := JS.or_empty (getAttribute element "aria-label") in
      let ariaScore := exact elementAriaLabel (JS.or_empty (ariaLabel target)) in
      (totalScore + ariaScore * weights.ariaLabel N,
       totalWeight + weights.ariaLabel N)%num
    else (totalScore, totalWeight) in
  (* data attributes *)
  let '(totalScore, totalWeight) :=
    match dataAttributes target with
    | Some entries =>
        let '(dataScore, dataCount) :=
          ElementMatcher.data_loop element entries 0 0 in
        if (0 <? dataCount)%Z then
          (totalScore
           + (Number.of_Z N dataScore / Number.of_Z N dataCount)
             * weights.dataAttributes N,
           totalWeight + weights.dataAttributes N)%num
        else (totalScore, totalWeight)
    | None => (totalScore, totalWeight)
    end in
  (* Placeholder *)
  let '(totalScore, totalWeight) :=
    if JS.truthy (placeholder target) then
      let elementPlaceholder :=
        JS.or_empty (getAttribute element "placeholder") in
      let placeholderScore :=
        exact elementPlaceholder (JS.or_empty (placeholder target)) in
      (totalScore + placeholderScore * weights.placeholder N,
       totalWeight + weights.placeholder N)%num
    else (totalScore, totalWeight) in
  (* Name attribute *)
  let '(totalScore, totalWeight) :=
    if JS.truthy (name target) then
      let elementName := JS.or_empty (getAttribute element "name") in
      let nameScore := exact elementName (JS.or_empty (name target)) in
      (totalScore + nameScore * weights.name N,
       totalWeight + weights.name N)%num
    else (totalScore, totalWeight) in
  (* Class similarity (partial match) *)
  let '(totalScore, totalWeight) :=
    if JS.truthy (className target) then
      let elementClasses := JS.new_Set (JS.split_space (el_className element)) in
      let targetClasses :=
        JS.new_Set (JS.split_space (JS.or_empty (className target))) in
      let intersection :=
        filter (fun c => JS.mem c elementClasses) targetClasses in
      let classScore :=
        (of_nat (List.length intersection)
         / of_nat (List.length targetClasses))%num in
      (totalScore + classScore * weights.className N,
       totalWeight + weights.className N)%num
    else (totalScore, totalWeight) in
  (* Position proximity *)
  let '(totalScore, totalWeight) :=
    match position target with
    | Some target_position =>
        let rect := getBoundingClientRect element in
        let positionScore := calculatePositionSimilarity rect target_position in
        (totalScore + positionScore * weights.position N,
         totalWeight + weights.position N)%num
    | None => (totalScore, totalWeight)
    end in
  (* Role *)
  let '(totalScore, totalWeight) :=
    if JS.truthy (role target) then
      let elementRole := JS.or_empty (getAttribute element "role") in
      let roleScore := exact elementRole (JS.or_empty (role target)) in
      (totalScore + roleScore * weights.role N,
       totalWeight + weights.role N)%num
    else (totalScore, totalWeight) in
  if (0 <? totalWeight)%num then (totalScore / totalWeight)%num else 0%num.

End WithNumber.

End Scoring.

(** ** The scoring table of the specification *)

(** The table of section 4.3.1, worded from the specification, over the
    same arithmetic: weights, comparisons, and the weighted mean over the
    signals present in the target. *)
Module ScoreTable.
Import ScoreSpec.

Section WithNumber.
Variable N : Number.t.

Local Notation "0" := (Number.zero N) : num_scope.
Local Notation "1" := (Number.one N) : num_scope.
Local Infix "+" := (Number.add N) : num_scope.
Local Infix "-" := (Number.sub N) : num_scope.
Local Infix "*" := (Number.mul N) : num_scope.
Local Infix "/" := (Number.div N) : num_scope.
Local Infix "<?" := (Number.ltb N) : num_scope.

Definition of_nat (n : nat) : Number.num N := Number.of_Z N (Z.of_nat n).

(** The weight column. *)
Definition weight (s : Signal) : Number.num N :=
  Number.of_Q N (ScoreSpec.weight s).

(** "exact match => 1 else 0". *)
Definition exact_match (candidate target : string) : Number.num N :=
  if string_dec candidate target then 1%num else 0%num.

(** "normalized edit-distance similarity (1 - Levenshtein distance / length
    of longer string); equal strings => 1; either empty => 0".  With [L]
    the longer length and [d] the distance this is [(L - d) / L], the
    subtraction being one of whole numbers. *)
Definition text_similarity (candidate target : string) : Number.num N :=
  if string_dec candidate target then 1%num
  else if string_dec candidate EmptyString then 0%num
  else if string_dec target EmptyString then 0%num
  else
    let L := Nat.max (String.length candidate) (String.length target) in
    ((of_nat L - of_nat (Levenshtein.distance candidate target))
     / of_nat L)%num.

(** "fraction of target's data-attribute key/value pairs exactly matched on
    the candidate". *)
Definition data_fraction (element : HTMLElement)
    (entries : list (string * string)) : Number.num N :=
  (of_nat (List.length (filter (pair_matched element) entries))
   / of_nat (List.length entries))%num.

(** The classes of a class string: its pieces between spaces, each once. *)
Definition classes (s : string) : list string :=
  nodup string_dec (JS.split_space s).

(** "|target classes /\ candidate classes| / |target classes|". *)
Definition class_overlap (candidate target : string) : Number.num N :=
  (of_nat (List.length
             (filter (fun c =>
                        if in_dec string_dec c (classes candidate)
                        then true else false)
                     (classes target)))
   / of_nat (List.length (classes target)))%num.

(** "proximity (half weight, linear falloff to 0 at 200px Euclidean
    distance)". *)
Definition proximity (rect target : ElementPosition) : Number.num N :=
  let n := Number.of_Q N in
  let dx := (n (pos_x rect) - n (pos_x target))%num in
  let dy := (n (pos_y rect) - n (pos_y target))%num in
  let distance := Number.sqrt N (dx * dx + dy * dy)%num in
  (Number.max N 0 (1 - distance / Number.of_Z N 200))%num.

(** "size match (half weight, binary: both width and height deltas <
    50px)". *)
Definition size_match (rect target : ElementPosition) : bool :=
  let n := Number.of_Q N in
  (Number.abs N (n (pos_width rect) - n (pos_width target))
   <? Number.of_Z N 50)%num
  && (Number.abs N (n (pos_height rect) - n (pos_height target))
      <? Number.of_Z N 50)%num.

Definition position_score (rect target : ElementPosition) : Number.num N :=
  let half := Number.of_Q N (5 # 10) in
  (proximity rect target * half
   + (if size_match rect target then half else 0))%num.

(** The text of the candidate that is compared: its trimmed text content. *)
Definition candidate_text (element : HTMLElement) : string :=
  match textContent element with
  | Some t => JS.trim t
  | None => EmptyString
  end.

Definition candidate_attribute (element : HTMLElement) (k : string) : string :=
  match getAttribute element k with
  | Some v => v
  | None => EmptyString
  end.

(** The comparison column. *)
Definition comparison (s : Signal) (element : HTMLElement)
    (target : ElementAttributes) : Number.num N :=
  match s with
  | S_text =>
      text_similarity (candidate_text element) (JS.or_empty (text target))
  | S_ariaLabel =>
      exact_match (candidate_attribute element "aria-label")
                  (JS.or_empty (ariaLabel target))
  | S_dataAttributes =>
      match dataAttributes target with
      | Some entries => data_fraction element entries
      | None => 0%num
      end
  | S_placeholder =>
      exact_match (candidate_attribute element "placeholder")
                  (JS.or_empty (placeholder target))
  | S_name =>
      exact_match (candidate_attribute element "name")
                  (JS.or_empty (name target))
  | S_className =>
      class_overlap (candidate_attribute element "class")
                    (JS.or_empty (className target))
  | S_position =>
      match position target with
      | Some target_position =>
          position_score (getBoundingClientRect element) target_position
      | None => 0%num
      end
  | S_role =>
      exact_match (candidate_attribute element "role")
                  (JS.or_empty (role target))
  end.

(** The sums run over the signals in the table's order, from 0. *)
Definition weighted_sum (element : HTMLElement) (target : ElementAttributes)
    (ss : list Signal) : Number.num N :=
  fold_left (fun acc s => (acc + comparison s element target * weight s)%num)
            ss 0%num.

Definition weight_total (ss : list Signal) : Number.num N :=
  fold_left (fun acc s => (acc + weight s)%num) ss 0%num.

(** "Final score = weighted sum / sum of weights for signals present in the
    target attributes; 0 if no signal is applicable." *)
Definition score (element : HTMLElement) (target : ElementAttributes)
    : Number.num N :=
  match filter (fun s => present s target) signals with
  | [] => 0%num
  | ss => (weighted_sum element target ss / weight_total ss)%num
  end.

(** What the arithmetic must grant for the table to be computed as the
    source does: 0 is not below 0, and the weights of any signals, one at
    least, add up to more than 0. *)
Definition sound : Prop :=
  (0 <? 0)%num = false
  /\ forall select : Signal -> bool,
       filter select signals <> [] ->
       (0 <? weight_total (filter select signals))%num = true.

(** The running pair of the source after the block of signal [s], and how
    the source ends. *)
Definition step (element : HTMLElement) (target : ElementAttributes)
    (acc : Number.num N * Number.num N) (s : Signal)
    : Number.num N * Number.num N :=
  if present s target
  then ((fst acc + comparison s element target * weight s)%num,
        (snd acc + weight s)%num)
  else acc.

Definition finish (acc : Number.num N * Number.num N) : Number.num N :=
  if (0 <? snd acc)%num then (fst acc / snd acc)%num else 0%num.

End WithNumber.

(** C7 to the letter, of the doubles the code returns: the returned double
    is the weighted mean of the table, that is, the double nearest to the
    mean taken in exact arithmetic. *)
Definition as_stated (Math_sqrt : Q -> Q) : Prop :=
  forall element target,
    Scoring.calculateSimilarityScore Number.Binary64 element target
    = Number.float_of_Q
        (Qred (score (Number.Exact Math_sqrt) element target)).

End ScoreTable.

(** ** A score that the rounding of doubles moves across the threshold *)

Module Rounding.
Import Samples.

(** A field recorded with an aria-label, a name, a class, a position and a
    role. *)
Definition recorded : ElementAttributes :=
  {| tagName := Some "input";
     text := None;
     innerText := None;
     className := Some "field";
     id := None;
     name := Some "username";
     placeholder := None;
     title := None;
     ariaLabel := Some "Username";
     role := Some "textbox";
     type_ := None;
     href := None;
     src := None;
     value := None;
     dataAttributes := None;
     position := Some (rect 100 80 200 30);
     parentInfo := None |}.

(** The same field, in the same place, once its aria-label is gone:
    [<input class="field" name="username" role="textbox">]. *)
Definition candidate : HTMLElement :=
  {| el_tagName := "INPUT";
     el_attributes :=
       [("class", "field"); ("name", "username"); ("role", "textbox")];
     textContent := Some EmptyString;
     el_innerText := Some EmptyString;
     el_value := Some EmptyString;
     getBoundingClientRect := rect 100 80 200 30;
     parentElement := None |}.

End Rounding.

(* ================================================================== *)
(** * Part II. Properties                                              *)
(* ================================================================== *)

(** ** Edit distance *)

Section LevenshteinFacts.
Import Levenshtein.

Lemma lev_nil_r (qq : list ascii) : lev qq [] = List.length qq.
Proof. destruct qq; reflexivity. Qed.

Lemma lev_cons_cons (c d : ascii) (qq p : list ascii) :
  lev (c :: qq) (d :: p)
  = if Ascii.eqb c d then lev qq p
    else Nat.min (lev qq p + 1)
                 (Nat.min (lev (c :: qq) p + 1) (lev qq (d :: p) + 1)).
Proof. reflexivity. Qed.

Lemma fill_row_lev (c : ascii) (str1 qq p : list ascii) :
  fill_row c str1 (lev qq p) (lev (c :: qq) p) (lev_row qq p str1)
  = lev_row (c :: qq) p str1.
Proof.
  revert p. induction str1 as [|d str1 IH]; intro p; [reflexivity|].
  cbn [fill_row lev_row]. rewrite <- lev_cons_cons. f_equal. apply IH.
Qed.

Lemma next_row_lev (c : ascii) (str1 qq : list ascii) :
  next_row c str1 (S (List.length qq)) (lev qq [] :: lev_row qq [] str1)
  = lev (c :: qq) [] :: lev_row (c :: qq) [] str1.
Proof.
  unfold next_row. rewrite <- fill_row_lev. reflexivity.
Qed.

Lemma rows_lev (str1 str2 qq : list ascii) :
  rows str1 str2 (S (List.length qq)) (lev qq [] :: lev_row qq [] str1)
  = lev (rev str2 ++ qq)%list [] :: lev_row (rev str2 ++ qq)%list [] str1.
Proof.
  revert qq. induction str2 as [|c str2 IH]; intro qq; [reflexivity|].
  cbn [rows]. rewrite next_row_lev.
  change (S (List.length qq)) with (List.length (c :: qq)).
  rewrite IH. cbn [rev]. rewrite <- app_assoc. reflexivity.
Qed.

Lemma lev_row_nil (p str1 : list ascii) :
  lev_row [] p str1 = seq (S (List.length p)) (List.length str1).
Proof.
  revert p. induction str1 as [|d str1 IH]; intro p; [reflexivity|].
  cbn [lev_row List.length seq]. rewrite IH. reflexivity.
Qed.

Lemma first_row_lev (str1 : list ascii) :
  first_row str1 = lev [] [] :: lev_row [] [] str1.
Proof. unfold first_row. rewrite lev_row_nil. reflexivity. Qed.

Lemma last_lev_row (qq p str1 : list ascii) :
  last (lev qq p :: lev_row qq p str1) 0 = lev qq (rev str1 ++ p)%list.
Proof.
  revert p. induction str1 as [|d str1 IH]; intro p; [reflexivity|].
  cbn [lev_row rev]. rewrite <- app_assoc. cbn [app].
  rewrite <- IH. reflexivity.
Qed.

(** The matrix of the source tabulates the recurrence [lev]. *)
Lemma levenshteinDistance_lev (str1 str2 : string) :
  levenshteinDistance str1 str2
  = lev (rev (list_ascii_of_string str2)) (rev (list_ascii_of_string str1)).
Proof.
  unfold levenshteinDistance. rewrite first_row_lev.
  rewrite (rows_lev _ _ []). rewrite last_lev_row.
  rewrite !app_nil_r. reflexivity.
Qed.

Lemma lev_le_max (qq p : list ascii) :
  lev qq p <= Nat.max (List.length qq) (List.length p).
Proof.
  revert p. induction qq as [|c qq IHq]; intro p; [simpl; lia|].
  induction p as [|d p IHp]; [simpl; lia|].
  rewrite lev_cons_cons. destruct (Ascii.eqb c d).
  - specialize (IHq p). simpl. lia.
  - specialize (IHq p). simpl. lia.
Qed.

Lemma lev_sym (qq p : list ascii) : lev qq p = lev p qq.
Proof.
  revert p. induction qq as [|c qq IHq]; intro p.
  - rewrite lev_nil_r. reflexivity.
  - induction p as [|d p IHp]; [reflexivity|].
    rewrite !lev_cons_cons. rewrite (Ascii.eqb_sym d c).
    rewrite IHp, !IHq. destruct (Ascii.eqb c d); lia.
Qed.

Lemma lev_refl (p : list ascii) : lev p p = 0.
Proof.
  induction p as [|c p IH]; [reflexivity|].
  rewrite lev_cons_cons, Ascii.eqb_refl. exact IH.
Qed.

Lemma levenshteinDistance_le (str1 str2 : string) :
  levenshteinDistance str1 str2
  <= Nat.max (String.length str1) (String.length str2).
Proof.
  rewrite levenshteinDistance_lev.
  pose proof (lev_le_max (rev (list_ascii_of_string str2))
                         (rev (list_ascii_of_string str1))) as H.
  rewrite !length_rev in H.
  assert (L : forall s, List.length (list_ascii_of_string s) = String.length s).
  { induction s; simpl; congruence. }
  rewrite !L in H. lia.
Qed.

Lemma levenshteinDistance_sym (str1 str2 : string) :
  levenshteinDistance str1 str2 = levenshteinDistance str2 str1.
Proof. rewrite !levenshteinDistance_lev. apply lev_sym. Qed.

End LevenshteinFacts.

(** ** The recurrence is the least cost of an edit script *)

Section EditScripts.
Import Levenshtein.

Lemma edits_insert_all (b : list ascii) : edits [] b (List.length b).
Proof. induction b; cbn; constructor; assumption. Qed.

Lemma edits_delete_all (a : list ascii) : edits a [] (List.length a).
Proof. induction a; cbn; constructor; assumption. Qed.

(** The recurrence is the cost of some edit script. *)
Lemma lev_edits (a b : list ascii) : edits a b (lev a b).
Proof.
  revert b. induction a as [|c a IHa]; intro b.
  - cbn. apply edits_insert_all.
  - induction b as [|d b IHb].
    + apply (edits_delete_all (c :: a)).
    + rewrite lev_cons_cons. destruct (Ascii.eqb c d) eqn:E.
      * apply Ascii.eqb_eq in E. subst d. apply edits_keep, IHa.
      * destruct (Nat.min_spec (lev a b + 1)
                    (Nat.min (lev (c :: a) b + 1) (lev a (d :: b) + 1)))
          as [[_ ->]|[_ ->]].
        -- rewrite Nat.add_1_r. apply edits_substitute, IHa.
        -- destruct (Nat.min_spec (lev (c :: a) b + 1) (lev a (d :: b) + 1))
             as [[_ ->]|[_ ->]]; rewrite Nat.add_1_r.
           ++ apply edits_insert, IHb.
           ++ apply edits_delete, IHa.
Qed.

(** One more character changes the recurrence by at most one. *)
Lemma lev_step (n : nat) :
  forall a b, List.length a + List.length b <= n ->
    forall d, lev a (d :: b) <= lev a b + 1 /\ lev a b <= lev a (d :: b) + 1.
Proof.
  induction n as [|n IH]; intros a b Hn d.
  - destruct a, b; cbn in Hn; try lia. cbn. lia.
  - destruct a as [|c a].
    + cbn. lia.
    + rewrite lev_cons_cons.
      assert (Hba : forall x, lev b (x :: a) <= lev b a + 1
                              /\ lev b a <= lev b (x :: a) + 1).
      { intro x. apply IH. cbn in Hn. lia. }
      destruct (Hba c) as [U1 D1].
      rewrite !(lev_sym b) in U1, D1.
      destruct (Ascii.eqb c d).
      * lia.
      * assert (Hab : lev a (d :: b) <= lev a b + 1
                      /\ lev a b <= lev a (d :: b) + 1).
        { apply IH. cbn in Hn. lia. }
        lia.
Qed.

Lemma lev_insert (a b : list ascii) (d : ascii) :
  lev a (d :: b) <= lev a b + 1.
Proof. apply (lev_step _ a b (Nat.le_refl _) d). Qed.

Lemma lev_delete (a b : list ascii) (c : ascii) :
  lev (c :: a) b <= lev a b + 1.
Proof. rewrite (lev_sym (c :: a)), (lev_sym a). apply lev_insert. Qed.

(** No edit script is cheaper than the recurrence. *)
Lemma edits_lev (a b : list ascii) (n : nat) : edits a b n -> lev a b <= n.
Proof.
  induction 1 as [|c a b n _ IH|c d a b n _ IH|c a b n _ IH|d a b n _ IH].
  - cbn. lia.
  - rewrite lev_cons_cons, Ascii.eqb_refl. exact IH.
  - rewrite lev_cons_cons. destruct (Ascii.eqb c d); lia.
  - pose proof (lev_delete a b c). lia.
  - pose proof (lev_insert a b d). lia.
Qed.

Lemma edits_snoc_keep (c : ascii) (a b : list ascii) (n : nat) :
  edits a b n -> edits (a ++ [c]) (b ++ [c]) n.
Proof.
  induction 1; cbn; try (constructor; assumption).
  apply edits_keep, edits_nil.
Qed.

Lemma edits_snoc_substitute (c d : ascii) (a b : list ascii) (n : nat) :
  edits a b n -> edits (a ++ [c]) (b ++ [d]) (S n).
Proof.
  induction 1; cbn; try (constructor; assumption).
  apply edits_substitute, edits_nil.
Qed.

Lemma edits_snoc_delete (c : ascii) (a b : list ascii) (n : nat) :
  edits a b n -> edits (a ++ [c]) b (S n).
Proof.
  induction 1; cbn; try (constructor; assumption).
  apply edits_delete, edits_nil.
Qed.

Lemma edits_snoc_insert (d : ascii) (a b : list ascii) (n : nat) :
  edits a b n -> edits a (b ++ [d]) (S n).
Proof.
  induction 1; cbn; try (constructor; assumption).
  apply edits_insert, edits_nil.
Qed.

Lemma edits_rev (a b : list ascii) (n : nat) :
  edits a b n -> edits (rev a) (rev b) n.
Proof.
  induction 1; cbn [rev].
  - constructor.
  - apply edits_snoc_keep. assumption.
  - apply edits_snoc_substitute. assumption.
  - apply edits_snoc_delete. assumption.
  - apply edits_snoc_insert. assumption.
Qed.

(** Reading both strings backwards does not change the distance. *)
Lemma lev_rev (a b : list ascii) : lev (rev a) (rev b) = lev a b.
Proof.
  apply Nat.le_antisymm.
  - apply edits_lev, edits_rev, lev_edits.
  - rewrite <- (rev_involutive a), <- (rev_involutive b) at 1.
    apply edits_lev, edits_rev, lev_edits.
Qed.

End EditScripts.

(** ** String similarity *)

Section StringSimilarityFacts.
Import Levenshtein.

Lemma is_empty_true (s : string) : JS.is_empty s = true <-> s = EmptyString.
Proof. destruct s; simpl; split; congruence. Qed.

Lemma is_empty_false (s : string) : JS.is_empty s = false <-> s <> EmptyString.
Proof. destruct s; simpl; split; congruence. Qed.

Lemma ratio_bounds (n d : nat) :
  (0 < n)%nat -> (d <= n)%nat ->
  let N := inject_Z (Z.of_nat n) in
  let D := inject_Z (Z.of_nat d) in
  (0 <= (N - D) / N)%Q /\ ((N - D) / N <= 1)%Q
  /\ ((N - D) / N == 1 - D / N)%Q.
Proof.
  intros Hn Hd N D.
  assert (HN : (0 < N)%Q).
  { unfold N. rewrite <- (Zlt_Qlt 0). lia. }
  assert (HD : (0 <= D)%Q).
  { unfold D. rewrite <- (Zle_Qle 0). lia. }
  assert (HDN : (D <= N)%Q).
  { unfold D, N. rewrite <- Zle_Qle. lia. }
  repeat split.
  - apply Qle_shift_div_l; [exact HN|]. lra.
  - apply Qle_shift_div_r; [exact HN|]. lra.
  - field. lra.
Qed.

(** The value of [stringSimilarity] on two distinct non-empty strings. *)
Lemma stringSimilarity_distinct (a b : string) :
  a <> EmptyString -> b <> EmptyString -> a <> b ->
  (stringSimilarity a b
   == (inject_Z (Z.of_nat (Nat.max (String.length a) (String.length b)))
       - inject_Z (Z.of_nat (distance a b)))
      / inject_Z (Z.of_nat (Nat.max (String.length a) (String.length b))))%Q.
Proof.
  intros Ha Hb Hab. unfold stringSimilarity.
  apply String.eqb_neq in Hab. rewrite Hab.
  apply is_empty_false in Ha. apply is_empty_false in Hb. rewrite Ha, Hb.
  cbn [orb]. unfold length_Q.
  destruct (String.length b <? String.length a) eqn:E.
  - apply Nat.ltb_lt in E.
    destruct (String.length a =? 0) eqn:Z0;
      [apply Nat.eqb_eq in Z0; lia|].
    rewrite levenshteinDistance_lev, lev_rev. unfold distance.
    rewrite lev_sym.
    replace (Nat.max (String.length a) (String.length b))
      with (String.length a) by lia.
    reflexivity.
  - apply Nat.ltb_ge in E.
    destruct (String.length b =? 0) eqn:Z0.
    + apply Nat.eqb_eq in Z0. destruct b; [discriminate Hb|discriminate Z0].
    + rewrite levenshteinDistance_lev, lev_rev. unfold distance.
      replace (Nat.max (String.length a) (String.length b))
        with (String.length b) by lia.
      reflexivity.
Qed.

Lemma distance_le (a b : string) :
  (distance a b <= Nat.max (String.length a) (String.length b))%nat.
Proof.
  unfold distance.
  pose proof (lev_le_max (list_ascii_of_string a)
                         (list_ascii_of_string b)) as H.
  assert (L : forall s, List.length (list_ascii_of_string s) = String.length s).
  { induction s; simpl; congruence. }
  rewrite !L in H. exact H.
Qed.

(** [distance a b] edits are enough to turn [a] into [b], and no fewer. *)
Lemma distance_least (a b : string) :
  edits (list_ascii_of_string a) (list_ascii_of_string b) (distance a b)
  /\ forall n,
       edits (list_ascii_of_string a) (list_ascii_of_string b) n ->
       distance a b <= n.
Proof.
  split; [apply lev_edits|]. intros n H. apply edits_lev, H.
Qed.

Lemma stringSimilarity_range (a b : string) :
  (0 <= stringSimilarity a b)%Q /\ (stringSimilarity a b <= 1)%Q.
Proof.
  destruct (String.eqb a b) eqn:E.
  - unfold stringSimilarity. rewrite E. split; lra.
  - destruct (JS.is_empty a || JS.is_empty b) eqn:Em.
    + unfold stringSimilarity. rewrite E, Em. split; lra.
    + apply orb_false_iff in Em. destruct Em as [Ha Hb].
      apply is_empty_false in Ha. apply is_empty_false in Hb.
      apply String.eqb_neq in E.
      rewrite (stringSimilarity_distinct a b Ha Hb E).
      assert (Hpos : (0 < Nat.max (String.length a) (String.length b))%nat).
      { destruct a; [congruence|]. cbn [String.length]. lia. }
      destruct (ratio_bounds _ _ Hpos (distance_le a b)) as (H0 & H1 & _).
      split; assumption.
Qed.

End StringSimilarityFacts.

(** C9. [stringSimilarity(a, a)] is 1; [stringSimilarity(a, '')] is 0 for a
    non-empty [a]; the similarity of any two strings lies in [[0, 1]]; and on
    two distinct non-empty strings it is 1 minus their Levenshtein distance
    (the least number of single-character edits, [distance_least]) divided
    by the length of the longer one. *)
Theorem stringSimilarity_properties (a b : string) :
  (stringSimilarity a a == 1)%Q
  /\ (a <> EmptyString -> stringSimilarity a EmptyString == 0)%Q
  /\ (0 <= stringSimilarity a b /\ stringSimilarity a b <= 1)%Q
  /\ (a <> EmptyString -> b <> EmptyString -> a <> b ->
      stringSimilarity a b
      == 1 - inject_Z (Z.of_nat (Levenshtein.distance a b))
             / inject_Z (Z.of_nat (Nat.max (String.length a)
                                           (String.length b))))%Q.
Proof.
  split; [|split; [|split]].
  - unfold stringSimilarity. rewrite String.eqb_refl. reflexivity.
  - intro Ha. unfold stringSimilarity.
    destruct (String.eqb a EmptyString) eqn:E.
    + apply String.eqb_eq in E. contradiction.
    + rewrite orb_true_r. reflexivity.
  - apply stringSimilarity_range.
  - intros Ha Hb Hab. rewrite (stringSimilarity_distinct a b Ha Hb Hab).
    assert (Hpos : (0 < Nat.max (String.length a) (String.length b))%nat).
    { destruct a; [congruence|]. cbn [String.length]. lia. }
    destruct (ratio_bounds _ _ Hpos (distance_le a b)) as (_ & _ & H).
    exact H.
Qed.

Lemma stringSimilarity_properties_witness :
  ("kitten" <> EmptyString /\ "sitting" <> EmptyString
   /\ "kitten" <> "sitting")
  /\ (stringSimilarity "kitten" EmptyString == 0)%Q
  /\ (stringSimilarity "kitten" "sitting" == 1 - 3 / 7)%Q.
Proof.
  assert (H1 : "kitten" <> EmptyString) by (intro H; discriminate H).
  assert (H2 : "sitting" <> EmptyString) by (intro H; discriminate H).
  assert (H3 : "kitten" <> "sitting") by (intro H; discriminate H).
  split; [repeat split; assumption|].
  destruct (stringSimilarity_properties "kitten" "sitting")
    as (_ & E0 & _ & E).
  split; [exact (E0 H1)|].
  exact (E H1 H2 H3).
Defined.

(** ** The similarity score *)

Section ScoreFacts.
Import ElementMatcher ScoreSpec.

Variable Math_sqrt : Q -> Q.

Lemma data_loop_counts (element : HTMLElement)
    (entries : list (string * string)) (dataScore dataCount : Z) :
  data_loop element entries dataScore dataCount
  = ((dataScore
      + Z.of_nat (List.length (filter (pair_matched element) entries)))%Z,
     (dataCount + Z.of_nat (List.length entries))%Z).
Proof.
  revert dataScore dataCount.
  induction entries as [|[key v] rest IH]; intros ds dc.
  - cbn. f_equal; lia.
  - cbn [data_loop]. rewrite IH. cbn [filter].
    replace (pair_matched element (key, v))
      with (match getAttribute element key with
            | Some ev => String.eqb ev v
            | None => false
            end) by reflexivity.
    destruct (getAttribute element key) as [ev|].
    + destruct (String.eqb ev v); cbn [List.length]; f_equal; lia.
    + cbn [List.length]. f_equal; lia.
Qed.

Lemma step_present (element : HTMLElement) (target : ElementAttributes)
    (a b : Q) (s : Signal) :
  present s target = true ->
  step Math_sqrt element target (a, b) s
  = (a + comparison Math_sqrt s element target * weight s, b + weight s)%Q.
Proof. intro H. unfold step. rewrite H. reflexivity. Qed.

Lemma step_absent (element : HTMLElement) (target : ElementAttributes)
    (acc : Q * Q) (s : Signal) :
  present s target = false -> step Math_sqrt element target acc s = acc.
Proof. intro H. unfold step. rewrite H. reflexivity. Qed.

(** The eight blocks of the source are eight steps over the signals. *)
Lemma calculateSimilarityScore_steps (element : HTMLElement)
    (target : ElementAttributes) :
  calculateSimilarityScore Math_sqrt element target
  = finish (fold_left (step Math_sqrt element target) signals (0%Q, 0%Q)).
Proof.
  assert (St : forall s acc,
             step Math_sqrt element target acc s
             = if present s target
               then (fst acc
                     + comparison Math_sqrt s element target * weight s,
                     snd acc + weight s)%Q
               else acc) by reflexivity.
  unfold calculateSimilarityScore, signals. cbn [fold_left].
  destruct (position target) as [tp|] eqn:P;
    (destruct (dataAttributes target) as [[|e es]|] eqn:D;
     [ cbn [data_loop]
     | rewrite data_loop_counts, !Z.add_0_l;
       change (0 <? Z.of_nat (List.length (e :: es)))%Z with true | ]).
  all: destruct (JS.truthy (text target)) eqn:B1,
      (JS.truthy (ariaLabel target)) eqn:B2,
      (JS.truthy (placeholder target)) eqn:B4,
      (JS.truthy (name target)) eqn:B5,
      (JS.truthy (className target)) eqn:B6,
      (JS.truthy (role target)) eqn:B8.
  all: cbv beta iota zeta.
  all: rewrite (St S_text); cbn [present fst snd]; rewrite B1;
       rewrite (St S_ariaLabel); cbn [present fst snd]; rewrite B2;
       rewrite (St S_dataAttributes); cbn [present fst snd]; rewrite ?D;
       rewrite (St S_placeholder); cbn [present fst snd]; rewrite B4;
       rewrite (St S_name); cbn [present fst snd]; rewrite B5;
       rewrite (St S_className); cbn [present fst snd]; rewrite B6;
       rewrite (St S_position); cbn [present fst snd]; rewrite ?P;
       rewrite (St S_role); cbn [present fst snd]; rewrite B8.
  all: unfold finish; cbn [fst snd comparison weight]; rewrite ?D, ?P.
  all: reflexivity.
Qed.

Lemma weight_pos (s : Signal) : (0 < weight s)%Q.
Proof. destruct s; reflexivity. Qed.

Lemma weight_total_nonneg (ss : list Signal) : (0 <= weight_total ss)%Q.
Proof.
  induction ss as [|s ss IH]; cbn [weight_total fold_right]; [lra|].
  fold (weight_total ss). pose proof (weight_pos s). lra.
Qed.

Lemma weight_total_pos (s : Signal) (ss : list Signal) :
  (0 < weight_total (s :: ss))%Q.
Proof.
  cbn [weight_total fold_right]. fold (weight_total ss).
  pose proof (weight_pos s). pose proof (weight_total_nonneg ss). lra.
Qed.

(** The steps add up the weighted comparisons and the weights of the
    present signals. *)
Lemma fold_step_sums (element : HTMLElement) (target : ElementAttributes)
    (ss : list Signal) (acc : Q * Q) :
  let r := fold_left (step Math_sqrt element target) ss acc in
  let present_ss := filter (fun s => present s target) ss in
  (fst r == fst acc + weighted_sum Math_sqrt element target present_ss)%Q
  /\ (snd r == snd acc + weight_total present_ss)%Q.
Proof.
  revert acc. induction ss as [|s ss IH]; intro acc.
  - cbn. split; ring.
  - cbn [fold_left filter]. destruct (IH (step Math_sqrt element target acc s))
      as [IH1 IH2]. cbv zeta. rewrite IH1, IH2. unfold step.
    destruct (present s target).
    + cbn [fst snd weighted_sum weight_total fold_right].
      fold (weighted_sum Math_sqrt element target
              (filter (fun s => present s target) ss)).
      fold (weight_total (filter (fun s => present s target) ss)).
      split; ring.
    + split; reflexivity.
Qed.

Lemma Qltb_true (a b : Q) : Qltb a b = true <-> (a < b)%Q.
Proof.
  unfold Qltb. rewrite negb_true_iff. split.
  - intro H. apply Qnot_le_lt. intro L. apply Qle_bool_iff in L. congruence.
  - intro H. destruct (Qle_bool b a) eqn:E; [|reflexivity].
    apply Qle_bool_iff in E. apply Qlt_not_le in H. contradiction.
Qed.

Lemma Qltb_false (a b : Q) : Qltb a b = false <-> (b <= a)%Q.
Proof.
  unfold Qltb. rewrite negb_false_iff. apply Qle_bool_iff.
Qed.

(** The score of the source is the score of the specification. *)
Lemma calculateSimilarityScore_score (element : HTMLElement)
    (target : ElementAttributes) :
  (calculateSimilarityScore Math_sqrt element target
   == score Math_sqrt element target)%Q.
Proof.
  rewrite calculateSimilarityScore_steps. unfold finish, score.
  destruct (fold_step_sums element target signals (0%Q, 0%Q)) as [H1 H2].
  cbv zeta in H1, H2. cbn [fst snd] in H1, H2.
  set (r := fold_left _ _ _) in *.
  destruct (filter (fun s => present s target) signals) as [|s ss] eqn:F.
  - cbn [weight_total fold_right] in H2. destruct (Qltb 0 _) eqn:E; [|reflexivity].
    apply Qltb_true in E. lra.
  - pose proof (weight_total_pos s ss) as Hpos.
    destruct (Qltb 0 _) eqn:E.
    + rewrite H1, H2. rewrite !Qplus_0_l. reflexivity.
    + apply Qltb_false in E. lra.
Qed.

End ScoreFacts.

(** ** Monotonicity of the score *)

Section ScoreMonotone.
Import ElementMatcher ScoreSpec.

Variable Math_sqrt : Q -> Q.
Hypothesis Math_sqrt_nonneg : forall x, (0 <= Math_sqrt x)%Q.

Lemma ratio_le_1 (a b : nat) : (a <= b)%nat -> (ratio a b <= 1)%Q.
Proof.
  intro H. unfold ratio. destruct b as [|b].
  - assert (a = 0%nat) by lia. subst a. vm_compute. discriminate.
  - apply Qle_shift_div_r.
    + rewrite <- (Zlt_Qlt 0). lia.
    + rewrite Qmult_1_l. rewrite <- Zle_Qle. lia.
Qed.

Lemma exact_le_1 (x y : string) : (exact x y <= 1)%Q.
Proof. unfold exact. destruct (String.eqb x y); lra. Qed.

Lemma filter_length_le {A} (f : A -> bool) (l : list A) :
  (List.length (filter f l) <= List.length l)%nat.
Proof.
  induction l as [|x l IH]; [apply Nat.le_refl|].
  cbn [filter]. destruct (f x); cbn [List.length]; lia.
Qed.

Lemma calculatePositionSimilarity_le_1 (rect target : ElementPosition) :
  (calculatePositionSimilarity Math_sqrt rect target <= 1)%Q.
Proof.
  unfold calculatePositionSimilarity. cbv zeta.
  set (d := Math_sqrt _).
  assert (Hd : (0 <= d)%Q) by apply Math_sqrt_nonneg.
  assert (Hm : (Qmax 0 (1 - d / 200) <= 1)%Q).
  { apply Q.max_lub; [lra|].
    assert (0 <= d / 200)%Q by (apply Qle_shift_div_l; lra). lra. }
  destruct (_ && _); lra.
Qed.

(** A comparison score never exceeds 1, the score of an exact match. *)
Lemma comparison_le_1 (s : Signal) (element : HTMLElement)
    (target : ElementAttributes) :
  (comparison Math_sqrt s element target <= 1)%Q.
Proof.
  destruct s; cbn [comparison].
  - apply stringSimilarity_range.
  - apply exact_le_1.
  - destruct (dataAttributes target); [|lra].
    apply ratio_le_1, filter_length_le.
  - apply exact_le_1.
  - apply exact_le_1.
  - apply ratio_le_1, filter_length_le.
  - destruct (position target); [|lra].
    apply calculatePositionSimilarity_le_1.
  - apply exact_le_1.
Qed.

Lemma weighted_sum_mono (element element' : HTMLElement)
    (target : ElementAttributes) (ss : list Signal) :
  (forall s, In s ss ->
     (comparison Math_sqrt s element target
      <= comparison Math_sqrt s element' target)%Q) ->
  (weighted_sum Math_sqrt element target ss
   <= weighted_sum Math_sqrt element' target ss)%Q.
Proof.
  induction ss as [|s ss IH]; intro H; cbn [weighted_sum fold_right].
  - lra.
  - fold (weighted_sum Math_sqrt element target ss).
    fold (weighted_sum Math_sqrt element' target ss).
    assert (H1 := H s (or_introl eq_refl)).
    assert (H2 : (weighted_sum Math_sqrt element target ss
                  <= weighted_sum Math_sqrt element' target ss)%Q).
    { apply IH. intros s' Hs'. apply H. right. exact Hs'. }
    pose proof (weight_pos s) as Hw.
    assert ((comparison Math_sqrt s element target * weight s
             <= comparison Math_sqrt s element' target * weight s)%Q).
    { apply Qmult_le_compat_r; lra. }
    lra.
Qed.

Lemma Signal_eq_dec (s s' : Signal) : {s = s'} + {s <> s'}.
Proof. decide equality. Defined.

Lemma score_mono (element element' : HTMLElement)
    (target : ElementAttributes) :
  (forall s, (comparison Math_sqrt s element target
              <= comparison Math_sqrt s element' target)%Q) ->
  (score Math_sqrt element target <= score Math_sqrt element' target)%Q.
Proof.
  intro H. unfold score.
  destruct (filter (fun s => present s target) signals) as [|s ss]; [lra|].
  pose proof (weight_total_pos s ss) as Hpos.
  unfold Qdiv. apply Qmult_le_compat_r.
  - apply weighted_sum_mono. intros s' _. apply H.
  - apply Qlt_le_weak, Qinv_lt_0_compat, Hpos.
Qed.

End ScoreMonotone.

(** C8. Changing the candidate so that one more signal present in the target
    becomes an exact match (comparison score 1), the comparison scores of the
    other signals being unchanged, never decreases the similarity score. *)
Theorem calculateSimilarityScore_monotone (Math_sqrt : Q -> Q)
    (element element' : HTMLElement) (target : ElementAttributes)
    (s : ScoreSpec.Signal) :
  (forall x, 0 <= Math_sqrt x)%Q ->
  ScoreSpec.present s target = true ->
  (ScoreSpec.comparison Math_sqrt s element' target == 1)%Q ->
  (forall s', s' <> s ->
     (ScoreSpec.comparison Math_sqrt s' element' target
      == ScoreSpec.comparison Math_sqrt s' element target)%Q) ->
  (ElementMatcher.calculateSimilarityScore Math_sqrt element target
   <= ElementMatcher.calculateSimilarityScore Math_sqrt element' target)%Q.
Proof.
  intros Hsqrt _ Hexact Hothers.
  rewrite !calculateSimilarityScore_score.
  apply score_mono. intro s'.
  destruct (Signal_eq_dec s' s) as [->|Hne].
  - rewrite Hexact. apply comparison_le_1, Hsqrt.
  - rewrite (Hothers s' Hne). apply Qle_refl.
Qed.

(** ** Locator synthesis *)

Section LocatorFacts.
Import Fingerprint LocatorSpec.

Lemma insert_by_priority_perm (a : LocatorStrategy) (l : list LocatorStrategy) :
  Permutation (insert_by_priority a l) (a :: l).
Proof.
  induction l as [|b l IH]; cbn [insert_by_priority]; [apply Permutation_refl|].
  destruct (l_priority a - l_priority b <=? 0)%Z; [apply Permutation_refl|].
  eapply perm_trans; [apply perm_skip, IH|apply perm_swap].
Qed.

Lemma sort_by_priority_perm (l : list LocatorStrategy) :
  Permutation (sort_by_priority l) l.
Proof.
  induction l as [|a l IH]; cbn [sort_by_priority]; [apply perm_nil|].
  eapply perm_trans; [apply insert_by_priority_perm|apply perm_skip, IH].
Qed.

Lemma insert_by_priority_sorted (a : LocatorStrategy)
    (l : list LocatorStrategy) :
  StronglySorted priority_le l ->
  StronglySorted priority_le (insert_by_priority a l).
Proof.
  induction 1 as [|b l Hl IH Hb]; cbn [insert_by_priority].
  - constructor; constructor.
  - destruct (l_priority a - l_priority b <=? 0)%Z eqn:E.
    + apply Z.leb_le in E. constructor; [constructor; assumption|].
      constructor; [unfold priority_le; lia|].
      eapply Forall_impl; [|exact Hb]. unfold priority_le. intros; lia.
    + apply Z.leb_gt in E. constructor; [exact IH|].
      eapply Permutation_Forall;
        [apply Permutation_sym, insert_by_priority_perm|].
      constructor; [unfold priority_le; lia|exact Hb].
Qed.

(** The sort of the source returns a list in ascending priority. *)
Lemma sort_by_priority_sorted (l : list LocatorStrategy) :
  StronglySorted priority_le (sort_by_priority l).
Proof.
  induction l as [|a l IH]; cbn [sort_by_priority]; [constructor|].
  apply insert_by_priority_sorted, IH.
Qed.

Lemma in_kinds_sort (k : LocatorType) (l : list LocatorStrategy) :
  In k (map l_type (sort_by_priority l)) <-> In k (map l_type l).
Proof.
  split; apply Permutation_in, Permutation_map;
    [|apply Permutation_sym]; apply sort_by_priority_perm.
Qed.

Lemma in_kinds_push_if (k : LocatorType) (c : bool) (loc : LocatorStrategy)
    (l : list LocatorStrategy) :
  In k (map l_type (push_if c loc l))
  <-> (c = true /\ l_type loc = k) \/ In k (map l_type l).
Proof.
  unfold push_if, JS.push. destruct c.
  - rewrite map_app, in_app_iff. cbn [map In]. intuition congruence.
  - intuition congruence.
Qed.

Lemma truthy_or_undefined (s : string) :
  JS.truthy (JS.or_undefined s) = true <-> JS.or_undefined s <> None.
Proof.
  unfold JS.or_undefined. destruct s; cbn; split; congruence.
Qed.

Lemma truthy_opt_or_undefined (o : option string) :
  JS.truthy (JS.opt_or_undefined o) = true <-> JS.opt_or_undefined o <> None.
Proof.
  destruct o as [s|]; [apply truthy_or_undefined|cbn; split; congruence].
Qed.

Lemma truthy_Some (o : option string) :
  JS.truthy o = true <-> exists v, o = Some v /\ v <> EmptyString.
Proof.
  destruct o as [[|c s]|]; cbn; split.
  - discriminate.
  - intros (v & E & Hv). congruence.
  - intros _. eexists; split; [reflexivity|discriminate].
  - reflexivity.
  - discriminate.
  - intros (v & E & _). discriminate.
Qed.

Lemma join_nonempty (sep p : string) (parts : list string) :
  p <> EmptyString -> JS.join sep (p :: parts) <> EmptyString.
Proof.
  intro H. destruct p as [|c p]; [congruence|].
  destruct parts; cbn; discriminate.
Qed.

Lemma append_nonempty_l (a b : string) :
  a <> EmptyString -> (a ++ b)%string <> EmptyString.
Proof. destruct a; [congruence|cbn; discriminate]. Qed.

Lemma append_nonempty_r (a b : string) :
  b <> EmptyString -> (a ++ b)%string <> EmptyString.
Proof. destruct a; [cbn; trivial|cbn; discriminate]. Qed.

Lemma generateContextualCss_truthy (element : DOM.HTMLElement)
    (attrs : ElementAttributes) :
  JS.truthy (generateContextualCss element attrs) = true
  <-> css_qualifier attrs.
Proof.
  unfold generateContextualCss, css_qualifier.
  destruct (JS.truthy (parent_id attrs)) eqn:Pid;
    [|destruct (JS.truthy (parent_className attrs)) eqn:Pc;
      [destruct (hd EmptyString
                   (JS.split_space (JS.or_empty (parent_className attrs))))
         as [|c0 s0] eqn:Fc|]];
    destruct (tagName attrs) as [[|c1 s1]|];
    destruct (type_ attrs) as [[|c2 s2]|];
    cbn; intuition congruence.
Qed.

Lemma kinds_of_generated (element : DOM.HTMLElement) (attrs : ElementAttributes)
    (k : LocatorType) :
  In k (map l_type (generateAlternativeLocators element attrs))
  <-> match k with
      | LT_data_testid => JS.truthy (data_attr attrs "data-testid") = true
      | LT_data_cy => JS.truthy (data_attr attrs "data-cy") = true
      | LT_id => JS.truthy (id attrs) = true
      | LT_aria_label => JS.truthy (ariaLabel attrs) = true
      | LT_name => JS.truthy (name attrs) = true
      | LT_placeholder => JS.truthy (placeholder attrs) = true
      | LT_role => JS.truthy (role attrs) && JS.truthy (text attrs) = true
      | LT_text =>
          JS.truthy (text attrs)
          && (String.length (JS.or_empty (text attrs)) <? 50) = true
      | LT_class =>
          JS.truthy (className attrs)
          && negb (JS.includes_space (JS.or_empty (className attrs))) = true
      | LT_css => JS.truthy (generateContextualCss element attrs) = true
      | LT_xpath | LT_title => False
      end.
Proof.
  unfold generateAlternativeLocators. cbv zeta.
  rewrite in_kinds_sort.
  rewrite !in_kinds_push_if. cbn [l_type].
  destruct (JS.truthy (text attrs)
            && (String.length (JS.or_empty (text attrs)) <? 50)) eqn:T.
  - rewrite !in_kinds_push_if. cbn [l_type map In].
    assert (TL : JS.truthy (generateTextLocator
                   (JS.toLowerCase (DOM.el_tagName element))
                   (JS.or_empty (text attrs))) = true).
    { unfold generateTextLocator.
      repeat match goal with |- context [if ?b then _ else _] =>
        destruct b end; try reflexivity.
      cbn. destruct (JS.toLowerCase _); reflexivity. }
    rewrite TL.
    destruct k; intuition congruence.
  - rewrite !in_kinds_push_if. cbn [l_type map In].
    destruct k; intuition congruence.
Qed.

Lemma or_undefined_not_empty (s : string) :
  JS.or_undefined s <> Some EmptyString.
Proof. destruct s; cbn; congruence. Qed.

Lemma opt_or_undefined_not_empty (o : option string) :
  JS.opt_or_undefined o <> Some EmptyString.
Proof. destruct o; cbn; [apply or_undefined_not_empty|congruence]. Qed.

(** A string field that is never an empty string is truthy when present. *)
Lemma truthy_present (o : option string) :
  o <> Some EmptyString -> (JS.truthy o = true <-> o <> None).
Proof.
  destruct o as [[|c s]|]; cbn; intro H; split; congruence.
Qed.

Lemma capture_precondition (element : DOM.HTMLElement) (k : LocatorType) :
  In k (map l_type (generateAlternativeLocators element
                      (extractAttributes element)))
  <-> precondition k (extractAttributes element).
Proof.
  rewrite kinds_of_generated.
  set (attrs := extractAttributes element).
  assert (Hid : id attrs <> Some EmptyString)
    by apply or_undefined_not_empty.
  assert (Hcl : className attrs <> Some EmptyString)
    by apply or_undefined_not_empty.
  assert (Har : ariaLabel attrs <> Some EmptyString)
    by apply opt_or_undefined_not_empty.
  assert (Hna : name attrs <> Some EmptyString)
    by apply opt_or_undefined_not_empty.
  assert (Hpl : placeholder attrs <> Some EmptyString)
    by apply opt_or_undefined_not_empty.
  assert (Hro : role attrs <> Some EmptyString)
    by apply opt_or_undefined_not_empty.
  assert (Hte : text attrs <> Some EmptyString)
    by apply opt_or_undefined_not_empty.
  destruct k; cbn [precondition].
  - apply truthy_present, Hid.
  - apply truthy_Some.
  - apply truthy_Some.
  - apply truthy_present, Har.
  - rewrite andb_true_iff, (truthy_present _ Hte), Nat.ltb_lt.
    destruct (text attrs) as [t|]; cbn [JS.or_empty]; split.
    + intros [_ L]. exists t. split; [reflexivity|exact L].
    + intros (t' & E & L). injection E as <-. split; [congruence|exact L].
    + intros [N _]. congruence.
    + intros (t' & E & _). discriminate.
  - apply generateContextualCss_truthy.
  - reflexivity.
  - rewrite andb_true_iff, (truthy_present _ Hcl), negb_true_iff.
    destruct (className attrs) as [c|]; cbn [JS.or_empty]; split.
    + intros [_ L]. exists c. split; [reflexivity|exact L].
    + intros (c' & E & L). injection E as <-. split; [congruence|exact L].
    + intros [N _]. congruence.
    + intros (c' & E & _). discriminate.
  - apply truthy_present, Hna.
  - apply truthy_present, Hpl.
  - reflexivity.
  - rewrite andb_true_iff, (truthy_present _ Hro), (truthy_present _ Hte).
    reflexivity.
Qed.

End LocatorFacts.

Lemma no_white_space_no_space (c : string) :
  LocatorSpec.no_white_space c = true -> JS.includes_space c = false.
Proof.
  induction c as [|a c IH]; cbn; [reflexivity|].
  rewrite andb_true_iff, negb_true_iff. intros [Ha Hc].
  rewrite (IH Hc), orb_false_r.
  match goal with |- ?x = false => destruct x eqn:E end; [|reflexivity].
  apply Ascii.eqb_eq in E. subst a. discriminate Ha.
Qed.

(** C5, in the form the code satisfies.
    The alternative locators of a captured fingerprint are in ascending
    priority, and a strategy kind is among them exactly when its
    precondition held on the captured attributes: test-id (data-cy) iff
    [data-testid] ([data-cy]) is present with a non-empty value, id iff an
    id is present, role iff a role and a non-empty text are present,
    text-content iff a text is present and shorter than 50 characters.  A
    css-class locator is among them when a class string is present and
    holds no white space, and is not when the class string is absent or
    holds a space character. *)
Theorem capture_priority_ordering (now : Z) (element : DOM.HTMLElement)
    (name primaryLocator : string) :
  LocatorSpec.priority_ordering_by_rule
    (Fingerprint.captureElementFingerprint now element name primaryLocator).
Proof.
  split; cbn [alternativeLocators attributes
              Fingerprint.captureElementFingerprint].
  - apply sort_by_priority_sorted.
  - intro kind. pose proof (capture_precondition element kind) as P.
    destruct kind; try exact P.
    cbn [LocatorSpec.rule LocatorSpec.precondition] in *. split.
    + intros (c & Hc & Hw). apply P. exists c.
      split; [exact Hc|apply no_white_space_no_space, Hw].
    + intros [Hn|(c & Hc & Hs)] Hin; apply P in Hin;
        destruct Hin as (c' & Hc' & Hs'); congruence.
Qed.

(** C5, as stated, fails on [<div data-testid="" class="a&#9;b">]: the test
    id is present but no test-id locator is synthesized. *)
Lemma priority_ordering_as_stated_fails :
  ~ LocatorSpec.priority_ordering LocatorSpec.precondition_as_stated
      (Fingerprint.captureElementFingerprint 0 Samples.odd_div "odd" "#odd").
Proof.
  intros [_ H].
  destruct (H LT_data_testid) as [_ H1].
  assert (I : In LT_data_testid
                (map l_type
                   (alternativeLocators
                      (Fingerprint.captureElementFingerprint
                         0 Samples.odd_div "odd" "#odd")))).
  { apply H1. exists EmptyString. reflexivity. }
  vm_compute in I. intuition discriminate.
Qed.

Example odd_div_locators :
  map l_type
    (alternativeLocators
       (Fingerprint.captureElementFingerprint 0 Samples.odd_div "odd" "#odd"))
  = [LT_class; LT_css]
  /\ Fingerprint.data_attr (Fingerprint.extractAttributes Samples.odd_div)
       "data-testid" = Some EmptyString
  /\ className (Fingerprint.extractAttributes Samples.odd_div)
     = Some ("a" ++ Samples.tab ++ "b")
  /\ LocatorSpec.no_white_space ("a" ++ Samples.tab ++ "b") = false.
Proof. repeat split. Qed.

(** ** The matcher *)

Section MatcherFacts.
Import ElementMatcher MatcherSpec.

Variable Math_sqrt : Q -> Q.
Variable document : Document.
Variable confidenceThreshold : Q.

Let try_locator := try_locator Math_sqrt document confidenceThreshold.
Let findElement_loop :=
  findElement_loop Math_sqrt document confidenceThreshold.
Let findBySimilarity := findBySimilarity Math_sqrt document.

(** What a turn of the loop can return. *)
Lemma try_locator_returns (fp : ElementFingerprint) (l : LocatorStrategy)
    (r : MatchResult) :
  fst (try_locator fp l) = Some r ->
  (exists e, document (l_value l) = Matches [e]
             /\ r = {| element := Some e; locator := Some l;
                       confidence := l_confidence l;
                       matchedBy := ByLocator (l_type l) |})
  \/ (Qgeb (confidence r) confidenceThreshold = true
      /\ matchedBy r = ByLocator (l_type l)).
Proof.
  unfold try_locator, ElementMatcher.try_locator, bind, querySelectorAll.
  destruct (document (l_value l)) as [[|e [|e' es]]|]; cbn [ret fst].
  - discriminate.
  - intro H. injection H as <-. left. exists e. split; reflexivity.
  - destruct (findBestMatch _ _ _) as [best t].
    destruct (Qgeb (bm_confidence best) confidenceThreshold) eqn:G;
      cbn [ret fst]; [|discriminate].
    intro H. injection H as <-. right. split; [exact G|reflexivity].
  - discriminate.
Qed.

(** A unique structural match is returned at once: one query, no score. *)
Lemma try_locator_unique (fp : ElementFingerprint) (l : LocatorStrategy)
    (e : HTMLElement) :
  document (l_value l) = Matches [e] ->
  try_locator fp l
  = (Some {| element := Some e; locator := Some l;
             confidence := l_confidence l;
             matchedBy := ByLocator (l_type l) |},
     [DomQuery (l_value l)]).
Proof.
  intro H.
  unfold try_locator, ElementMatcher.try_locator, bind, querySelectorAll.
  rewrite H. reflexivity.
Qed.

Lemma findElement_loop_cons (fp : ElementFingerprint) (l : LocatorStrategy)
    (rest : list LocatorStrategy) :
  findElement_loop fp (l :: rest)
  = match fst (try_locator fp l) with
    | Some r => (Normal r, snd (try_locator fp l))
    | None =>
        (fst (findElement_loop fp rest),
         (snd (try_locator fp l) ++ snd (findElement_loop fp rest))%list)
    end.
Proof.
  unfold findElement_loop, try_locator.
  cbn [ElementMatcher.findElement_loop]. unfold bind.
  destruct (ElementMatcher.try_locator _ _ _ fp l) as [[r|] t]; cbn [fst snd ret].
  - rewrite app_nil_r. reflexivity.
  - destruct (ElementMatcher.findElement_loop _ _ _ fp rest). reflexivity.
Qed.

(** Strategies that do not return only add their effects. *)
Lemma findElement_loop_skip (fp : ElementFingerprint)
    (tried rest : list LocatorStrategy) :
  (forall l, In l tried -> fst (try_locator fp l) = None) ->
  findElement_loop fp (tried ++ rest)
  = (fst (findElement_loop fp rest),
     (effects_of Math_sqrt document confidenceThreshold fp tried
      ++ snd (findElement_loop fp rest))%list).
Proof.
  induction tried as [|l tried IH]; intro H.
  - cbn. destruct (findElement_loop fp rest). reflexivity.
  - cbn [app]. rewrite findElement_loop_cons.
    rewrite (H l (or_introl eq_refl)).
    rewrite IH by (intros l' Hl'; apply H; right; exact Hl').
    cbn [fst snd effects_of flat_map]. rewrite app_assoc. reflexivity.
Qed.

Lemma findBySimilarity_fallback (attrs : ElementAttributes) (r : MatchResult) :
  fst (findBySimilarity attrs) = Normal r -> similarity_fallback r.
Proof.
  unfold findBySimilarity, ElementMatcher.findBySimilarity, bind,
    querySelectorAll.
  destruct (negb (JS.truthy (tagName attrs))); cbn [ret fst].
  - intro H. injection H as <-. split; reflexivity.
  - destruct (document _) as [candidates|]; cbn [ret fst].
    + destruct (findBestMatch _ _ _) as [best t]. cbn [fst].
      intro H. injection H as <-. split; reflexivity.
    + discriminate.
Qed.

(** A result of the loop is returned by a turn or by the fallback. *)
Lemma findElement_loop_returns (fp : ElementFingerprint)
    (locators : list LocatorStrategy) (r : MatchResult) :
  fst (findElement_loop fp locators) = Normal r ->
  (exists l, In l locators /\ fst (try_locator fp l) = Some r)
  \/ similarity_fallback r.
Proof.
  induction locators as [|l rest IH].
  - intro H. right. apply (findBySimilarity_fallback (attributes fp)).
    exact H.
  - rewrite findElement_loop_cons.
    destruct (fst (try_locator fp l)) as [r'|] eqn:T; cbn [fst].
    + intro H. injection H as <-. left. exists l. split; [left; reflexivity|].
      exact T.
    + intro H. destruct (IH H) as [(l' & Hin & Hl')|Hs].
      * left. exists l'. split; [right; exact Hin|exact Hl'].
      * right. exact Hs.
Qed.

End MatcherFacts.

(** C6. When a strategy's query yields exactly one structural match, and no
    strategy before it returned, [findElement] returns that element with the
    strategy's static confidence and kind; after the effects of the earlier
    strategies it performs that one query and computes no score. *)
Theorem findElement_unique_match (Math_sqrt : Q -> Q) (document : Document)
    (confidenceThreshold : Q) (fp : ElementFingerprint)
    (tried rest : list LocatorStrategy) (l : LocatorStrategy)
    (e : HTMLElement) :
  alternativeLocators fp = (tried ++ l :: rest)%list ->
  (forall l', In l' tried ->
     fst (ElementMatcher.try_locator Math_sqrt document confidenceThreshold
            fp l') = None) ->
  document (l_value l) = Matches [e] ->
  ElementMatcher.findElement Math_sqrt document confidenceThreshold fp
  = (Normal {| ElementMatcher.element := Some e;
               ElementMatcher.locator := Some l;
               ElementMatcher.confidence := l_confidence l;
               ElementMatcher.matchedBy := ByLocator (l_type l) |},
     (MatcherSpec.effects_of Math_sqrt document confidenceThreshold fp tried
      ++ [DomQuery (l_value l)])%list).
Proof.
  intros Hlocs Htried Hq. unfold ElementMatcher.findElement. rewrite Hlocs.
  rewrite findElement_loop_skip by exact Htried.
  rewrite findElement_loop_cons.
  rewrite (try_locator_unique _ _ _ fp l e Hq). reflexivity.
Qed.

(** ** Heap, map and store *)

Section StoreFacts.
Import EngineSpec.

Lemma deref_update_same (h : Heap.t) (r : Heap.addr)
    (f : ElementFingerprint -> ElementFingerprint) :
  Heap.deref (Heap.update h r f) r = option_map f (Heap.deref h r).
Proof.
  revert r. induction h as [|fp h IH]; intros [|r]; cbn; auto.
Qed.

Lemma deref_update_other (h : Heap.t) (r r' : Heap.addr)
    (f : ElementFingerprint -> ElementFingerprint) :
  r <> r' -> Heap.deref (Heap.update h r f) r' = Heap.deref h r'.
Proof.
  revert r r'. induction h as [|fp h IH]; intros [|r] [|r'] H; cbn; auto;
    congruence.
Qed.

Lemma deref_alloc_new (h : Heap.t) (fp : ElementFingerprint) :
  Heap.deref (snd (Heap.alloc h fp)) (fst (Heap.alloc h fp)) = Some fp.
Proof.
  cbn. unfold Heap.deref. rewrite nth_error_app2 by apply Nat.le_refl.
  rewrite Nat.sub_diag. reflexivity.
Qed.

Lemma deref_alloc_old (h : Heap.t) (fp x : ElementFingerprint)
    (r : Heap.addr) :
  Heap.deref h r = Some x -> Heap.deref (snd (Heap.alloc h fp)) r = Some x.
Proof.
  cbn. unfold Heap.deref. intro H. rewrite nth_error_app1; [exact H|].
  apply nth_error_Some. congruence.
Qed.

Lemma get_set_same {V} (k : string) (v : V) (m : Map_.t V) :
  Map_.get k (Map_.set k v m) = Some v.
Proof.
  induction m as [|[k' v'] m IH]; cbn.
  - rewrite String.eqb_refl. reflexivity.
  - destruct (String.eqb k k') eqn:E; cbn; rewrite ?String.eqb_refl, ?E; auto.
Qed.

Lemma get_set_other {V} (k k' : string) (v : V) (m : Map_.t V) :
  k <> k' -> Map_.get k' (Map_.set k v m) = Map_.get k' m.
Proof.
  intro H. induction m as [|[k0 v0] m IH]; cbn.
  - destruct (String.eqb k' k) eqn:E; [|reflexivity].
    apply String.eqb_eq in E. congruence.
  - destruct (String.eqb k k0) eqn:E; cbn.
    + apply String.eqb_eq in E. subst k0.
      destruct (String.eqb k' k) eqn:E'; [|reflexivity].
      apply String.eqb_eq in E'. congruence.
    + rewrite IH. reflexivity.
Qed.

Lemma get_None_keys {V} (k : string) (m : Map_.t V) :
  Map_.get k m = None <-> ~ In k (Map_.keys m).
Proof.
  induction m as [|[k' v'] m IH]; cbn; [tauto|].
  destruct (String.eqb k k') eqn:E.
  - apply String.eqb_eq in E. split; [discriminate|]. intro H. exfalso.
    apply H. left. congruence.
  - apply String.eqb_neq in E. rewrite IH. split; [|tauto].
    intros H [H'|H']; [congruence|tauto].
Qed.

(** [set] on a key of the map leaves the keys where they are. *)
Lemma keys_set_present {V} (k : string) (v : V) (m : Map_.t V) :
  In k (Map_.keys m) -> Map_.keys (Map_.set k v m) = Map_.keys m.
Proof.
  induction m as [|[k' v'] m IH]; cbn; [tauto|].
  destruct (String.eqb k k') eqn:E.
  - apply String.eqb_eq in E. subst. reflexivity.
  - apply String.eqb_neq in E. intros [H|H]; [congruence|].
    cbn. f_equal. apply IH, H.
Qed.

(** [set] on a new key appends the entry. *)
Lemma set_absent {V} (k : string) (v : V) (m : Map_.t V) :
  ~ In k (Map_.keys m) -> Map_.set k v m = (m ++ [(k, v)])%list.
Proof.
  induction m as [|[k' v'] m IH]; cbn; [reflexivity|].
  intro H. destruct (String.eqb k k') eqn:E.
  - apply String.eqb_eq in E. exfalso. apply H. left. congruence.
  - f_equal. apply IH. tauto.
Qed.

Lemma Forall_set {V} (P : string * V -> Prop) (k : string) (v : V)
    (m : Map_.t V) :
  Forall P m -> P (k, v) -> Forall P (Map_.set k v m).
Proof.
  intros Hm Hkv. induction Hm as [|[k' v'] m Hh Ht IH]; cbn.
  - constructor; [exact Hkv|constructor].
  - destruct (String.eqb k k'); constructor; assumption.
Qed.

Lemma NoDup_keys_set {V} (k : string) (v : V) (m : Map_.t V) :
  NoDup (Map_.keys m) -> NoDup (Map_.keys (Map_.set k v m)).
Proof.
  intro H. destruct (in_dec string_dec k (Map_.keys m)) as [I|N].
  - rewrite keys_set_present by exact I. exact H.
  - rewrite set_absent by exact N. unfold Map_.keys. rewrite map_app.
    cbn [map fst]. apply NoDup_app; [exact H|repeat constructor; tauto|].
    intros x Hx [<-|[]]. exact (N Hx).
Qed.

Lemma wf_entry_alloc (h : Heap.t) (fp : ElementFingerprint)
    (entry : string * Heap.addr) :
  wf_entry h entry -> wf_entry (snd (Heap.alloc h fp)) entry.
Proof.
  intros (x & Hx & Hn). exists x. split; [|exact Hn].
  apply deref_alloc_old, Hx.
Qed.

Lemma wf_entry_update (h : Heap.t) (r : Heap.addr)
    (f : ElementFingerprint -> ElementFingerprint)
    (entry : string * Heap.addr) :
  (forall fp, fp_name (f fp) = fp_name fp) ->
  wf_entry h entry -> wf_entry (Heap.update h r f) entry.
Proof.
  intros Hf (x & Hx & Hn). unfold wf_entry.
  destruct (Nat.eq_dec r (snd entry)) as [->|Hne].
  - rewrite deref_update_same, Hx. exists (f x). split; [reflexivity|].
    rewrite Hf. exact Hn.
  - rewrite deref_update_other by exact Hne. exists x. split; assumption.
Qed.

(** [get] finds the entries of a well-formed map. *)
Lemma wf_state_get (st : LocatorStore.State) (k : string) (r : Heap.addr) :
  wf_state st ->
  LocatorStore.getFingerprint k st = Some r ->
  exists fp, Heap.deref (fst st) r = Some fp /\ fp_name fp = k.
Proof.
  intros [_ HF]. unfold LocatorStore.getFingerprint.
  induction HF as [|[k' r'] m Hh Ht IH]; cbn; [discriminate|].
  destruct (String.eqb k k') eqn:E.
  - apply String.eqb_eq in E. subst k'. intro H. injection H as <-.
    exact Hh.
  - exact IH.
Qed.

Lemma wf_empty (h : Heap.t) : wf_state (h, LocatorStore.empty).
Proof. split; constructor. Qed.

Lemma saveFingerprint_wf (r : Heap.addr) (st : LocatorStore.State) :
  wf_state st -> wf_state (LocatorStore.saveFingerprint r st).
Proof.
  destruct st as [h s]. intros [Hk HF]. unfold LocatorStore.saveFingerprint.
  destruct (Heap.deref h r) as [fp|] eqn:D; [|split; assumption].
  split; cbn [fst snd LocatorStore.fingerprints].
  - apply NoDup_keys_set, Hk.
  - apply Forall_set; [exact HF|]. exists fp. split; [exact D|reflexivity].
Qed.

Lemma recordHealingEvent_wf (event : HealingEvent) (st : LocatorStore.State) :
  wf_state st -> wf_state (LocatorStore.recordHealingEvent event st).
Proof.
  destruct st as [h s]. intros [Hk HF]. unfold LocatorStore.recordHealingEvent.
  destruct (Map_.get (elementName event) (LocatorStore.fingerprints s))
    as [r|] eqn:G; [|split; assumption].
  destruct (wf_state_get (h, s) _ _ (conj Hk HF) G) as (fp & D & Hn).
  cbn [fst] in D.
  split; cbn [fst snd LocatorStore.fingerprints].
  - apply NoDup_keys_set, Hk.
  - apply Forall_set.
    + eapply Forall_impl; [|exact HF]. intro entry.
      apply wf_entry_update. reflexivity.
    + unfold wf_entry. cbn [fst snd]. rewrite deref_update_same, D.
      eexists. split; [reflexivity|exact Hn].
Qed.

Lemma clearHealingEvents_wf (st : LocatorStore.State) :
  wf_state st -> wf_state (LocatorStore.clearHealingEvents st).
Proof. destruct st as [h s]. intros [Hk HF]. split; assumption. Qed.

Lemma import_loop_wf (fps : list Heap.addr) (st : LocatorStore.State) :
  wf_state st -> wf_state (LocatorStore.import_loop fps st).
Proof.
  revert st. induction fps as [|r fps IH]; intros st H; [exact H|].
  cbn [LocatorStore.import_loop]. apply IH, saveFingerprint_wf, H.
Qed.

Lemma import_wf (data : LocatorStore.Snapshot) (st : LocatorStore.State) :
  wf_state st -> wf_state (LocatorStore.import data st).
Proof.
  intro H. unfold LocatorStore.import.
  pose proof (import_loop_wf (LocatorStore.snap_fingerprints data) st H) as W.
  destruct (LocatorStore.import_loop _ st) as [h s]. exact W.
Qed.

End StoreFacts.

(** ** Export and import *)

Section RoundTrip.
Import EngineSpec.

Lemma import_loop_entries (h : Heap.t) (events : list HealingEvent)
    (entries acc : Map_.t Heap.addr) :
  Forall (wf_entry h) entries ->
  NoDup (Map_.keys (acc ++ entries)%list) ->
  LocatorStore.import_loop (Map_.values entries)
    (h, {| LocatorStore.fingerprints := acc;
           LocatorStore.healingEvents := events |})
  = (h, {| LocatorStore.fingerprints := (acc ++ entries)%list;
           LocatorStore.healingEvents := events |}).
Proof.
  intro HF. revert acc.
  induction HF as [|[k r] entries (fp & D & Hn) Ht IH]; intros acc Hk.
  - cbn. rewrite app_nil_r. reflexivity.
  - cbn [Map_.values map snd LocatorStore.import_loop].
    cbn [fst snd] in D, Hn.
    unfold LocatorStore.saveFingerprint. rewrite D.
    cbn [LocatorStore.fingerprints LocatorStore.healingEvents].
    assert (Hnew : ~ In k (Map_.keys acc)).
    { unfold Map_.keys in Hk. rewrite map_app in Hk. cbn [map fst] in Hk.
      apply NoDup_remove_2 in Hk. intro I. apply Hk.
      apply in_or_app. left. exact I. }
    rewrite Hn, set_absent by exact Hnew.
    fold (Map_.values entries). rewrite IH.
    + rewrite <- app_assoc. reflexivity.
    + rewrite <- app_assoc. exact Hk.
Qed.

End RoundTrip.

(** C10. Importing the snapshot produced by [export] into an empty store
    gives back the store: the same fingerprint map, entry for entry, and the
    same sequence of healing events. *)
Theorem import_export_round_trip (st : LocatorStore.State) :
  EngineSpec.wf_state st ->
  LocatorStore.import (LocatorStore.export st) (fst st, LocatorStore.empty)
  = st.
Proof.
  destruct st as [h [fps events]]. intros [Hk HF].
  unfold LocatorStore.import, LocatorStore.export, LocatorStore.empty,
    LocatorStore.getAllFingerprints, LocatorStore.getHealingEvents.
  cbn [fst snd LocatorStore.fingerprints LocatorStore.healingEvents
       LocatorStore.snap_fingerprints LocatorStore.snap_healingEvents] in *.
  rewrite (import_loop_entries h [] fps []) by assumption.
  reflexivity.
Qed.

(** ** The orchestrator *)

Section EngineFacts.
Import SelfHealingEngine EngineSpec.

Variable Math_sqrt : Q -> Q.
Variable document : Document.
Variable config : SelfHealingConfig.
Variable clock : nat -> Z.

Let healAndFind := healAndFind Math_sqrt document config clock.
Let findElement := findElement Math_sqrt document config clock.
Let registerElement := registerElement document clock.

Lemma save_new_stored (fp : ElementFingerprint) (w : World) :
  stored (fp_name fp) (save_new fp w) = Some fp.
Proof.
  unfold stored, LocatorStore.stored, LocatorStore.getFingerprint, save_new,
    store_state.
  pose proof (deref_alloc_new (heap w) fp) as D.
  destruct (Heap.alloc (heap w) fp) as [r h] eqn:A. cbn [fst snd] in D.
  unfold LocatorStore.saveFingerprint. rewrite D.
  cbn [with_store_state heap store fst snd LocatorStore.fingerprints].
  rewrite get_set_same. exact D.
Qed.

Lemma save_new_wf (fp : ElementFingerprint) (w : World) :
  wf w -> wf (save_new fp w).
Proof.
  unfold wf, save_new, store_state. intros [Hk HF].
  destruct (Heap.alloc (heap w) fp) as [r h] eqn:A.
  assert (Hh : h = snd (Heap.alloc (heap w) fp)) by (rewrite A; reflexivity).
  pose proof (saveFingerprint_wf r (h, store w)) as S.
  destruct (LocatorStore.saveFingerprint r (h, store w)) as [h' s'].
  cbn [with_store_state heap store fst snd] in *.
  apply S. split; [exact Hk|]. cbn [fst snd].
  eapply Forall_impl; [|exact HF]. intro entry. rewrite Hh.
  apply wf_entry_alloc.
Qed.

Lemma save_new_dates (fp : ElementFingerprint) (w : World) :
  dates (save_new fp w) = dates w /\ trace (save_new fp w) = trace w.
Proof.
  unfold save_new. destruct (Heap.alloc (heap w) fp) as [r h].
  split; reflexivity.
Qed.

(** A successful heal: the matcher's result passed the gate, and the stored
    fingerprint is the old one with a new last-seen and a heal count that
    went up twice, once in [recordHealingEvent] and once in [healAndFind]. *)
Lemma healAndFind_success (primary ename : string)
    (context : Context) (w w' : World) (e : HTMLElement) :
  wf w ->
  healAndFind primary ename context w = (Normal e, w') ->
  exists fp0 result effects,
    stored ename w = Some fp0
    /\ matcher_findElement Math_sqrt document config fp0
       = (Normal result, effects)
    /\ ElementMatcher.element result = Some e
    /\ ElementMatcher.Qltb (ElementMatcher.confidence result)
                           (confidenceThreshold config) = false
    /\ stored ename w' = Some (HealSpec.healed fp0 (clock (S (dates w))))
    /\ dates w' = S (S (dates w))
    /\ wf w'.
Proof.
  intros Hwf. unfold healAndFind, SelfHealingEngine.healAndFind.
  destruct (LocatorStore.getFingerprint ename (store_state w))
    as [r|] eqn:G; [|discriminate].
  destruct (wf_state_get _ _ _ Hwf G) as (fp0 & D & Hn).
  cbn [store_state fst] in D. rewrite D.
  destruct (matcher_findElement Math_sqrt document config fp0)
    as [[result|err] effects] eqn:M; [|discriminate].
  destruct (ElementMatcher.element result) as [e0|] eqn:E; [|discriminate].
  destruct (ElementMatcher.Qltb _ _) eqn:L; [discriminate|].
  cbn [new_Date perform heap store dates trace].
  unfold LocatorStore.recordHealingEvent, store_state.
  cbn [heap store elementName].
  unfold LocatorStore.getFingerprint in G. cbn [store_state snd] in G.
  rewrite G.
  cbn [with_store_state perform heap store dates trace fst snd].
  rewrite deref_update_same, D. cbn [option_map].
  cbn [fp_name fp_primaryLocator alternativeLocators attributes lastSeen
       healCount].
  intro H. injection H as He <-. subst e0.
  exists fp0, result, effects.
  split; [unfold stored, LocatorStore.stored, LocatorStore.getFingerprint;
          cbn [store_state fst snd]; rewrite G; exact D|].
  split; [exact M|]. split; [exact E|]. split; [exact L|].
  match goal with |- context [save_new ?f ?v] =>
    set (fp1 := f); set (w1 := v) end.
  split; [|split].
  - rewrite <- Hn. change (fp_name fp0) with (fp_name fp1).
    rewrite save_new_stored. reflexivity.
  - destruct (save_new_dates fp1 w1) as [Hd _]. rewrite Hd. reflexivity.
  - apply save_new_wf. unfold wf, w1, store_state. cbn [heap store].
    pose proof (recordHealingEvent_wf
      {| ev_timestamp := clock (dates w); elementName := ename;
         originalLocator := primary; healedLocator := EmptyString;
         strategy := BySimilarity; ev_confidence := 0%Q;
         testFile := EmptyString; testName := EmptyString |}
      (heap w, store w) Hwf) as R.
    unfold LocatorStore.recordHealingEvent in R. cbn [elementName] in R.
    rewrite G in R. destruct R as [Rk RF]. split; assumption.
Qed.



(** A primary locator that matches no element, or several, hands over to
    [healAndFind] when healing is enabled. *)
Lemma findElement_heals (primary ename : string) (context : Context)
    (w : World) (es : list HTMLElement) :
  document primary = Matches es ->
  List.length es <> 1 ->
  enabled config = true ->
  findElement primary ename context w
  = healAndFind primary ename context (perform w [DomQuery primary]).
Proof.
  intros Hq Hlen Hen. unfold findElement, SelfHealingEngine.findElement.
  rewrite Hq, Hen. destruct es as [|e [|e' es]]; cbn in Hlen; try reflexivity.
  congruence.
Qed.

(** A primary locator that matches exactly one element is resolved
    directly: the element is fingerprinted anew. *)
Lemma findElement_direct (primary ename : string) (context : Context)
    (w : World) (e : HTMLElement) :
  document primary = Matches [e] ->
  findElement primary ename context w
  = (Normal e,
     save_new
       (Fingerprint.captureElementFingerprint (clock (dates w)) e ename
          primary)
       (snd (new_Date clock (perform w [DomQuery primary])))).
Proof.
  intro Hq. unfold findElement, SelfHealingEngine.findElement.
  rewrite Hq. reflexivity.
Qed.




End EngineFacts.

(** ** Heal count and last-seen *)

Section HealCount.
Import SelfHealingEngine EngineSpec.

Variable Math_sqrt : Q -> Q.
Variable document : Document.
Variable config : SelfHealingConfig.
Variable clock : nat -> Z.

(** Each successful heal adds 2 to the stored heal count: the object the
    map holds is the one [healAndFind] reads back after
    [recordHealingEvent] has incremented it. *)
Lemma healAndFind_heal_count (primary ename : string) (context : Context)
    (w w' : World) (e : HTMLElement) (fp0 : ElementFingerprint) :
  wf w ->
  stored ename w = Some fp0 ->
  healAndFind Math_sqrt document config clock primary ename context w
  = (Normal e, w') ->
  exists fp1,
    stored ename w' = Some fp1
    /\ healCount fp1 = (healCount fp0 + 2)%Z
    /\ lastSeen fp1 = Some (clock (S (dates w)))
    /\ dates w' = S (S (dates w)).
Proof.
  intros Hwf Hst H.
  destruct (healAndFind_success _ _ _ _ _ _ _ _ _ _ Hwf H)
    as (fp & result & effects & Hst' & _ & _ & _ & Hnew & Hd & _).
  rewrite Hst in Hst'. injection Hst' as <-.
  eexists. split; [exact Hnew|]. cbn [HealSpec.healed healCount lastSeen].
  repeat split; [lia|exact Hd].
Qed.

End HealCount.

(** C1 (the code at the failing input). After
    [registerForHealing('#username', 'usernameInput')] the stored heal
    count is 0; one successful heal of that element, through its [name]
    strategy, leaves a stored heal count of 2, not of 1. *)
Theorem heal_count_after_one_heal :
  option_map healCount (EngineSpec.stored "usernameInput" Runs.registered)
  = Some 0%Z
  /\ fst Runs.after_heal = Normal Scenarios.username_renamed
  /\ option_map healCount
       (EngineSpec.stored "usernameInput" (snd Runs.after_heal))
     = Some 2%Z.
Proof. vm_compute. repeat split. Qed.

(** C3, to the letter, fails on a direct resolution: after registration the
    heal count is 0, and it is 0 again after [heal('#username', ...)] on the
    unchanged page. *)
Lemma resolution_increments_fails :
  ~ EngineSpec.resolution_increments Samples.sqrt_Q Scenarios.login_page
      SelfHealingEngine.default_config Scenarios.clock
      "#username" "usernameInput" Scenarios.context Runs.registered.
Proof.
  intro H.
  destruct (H (Fingerprint.captureElementFingerprint 1000
                 Scenarios.username_input "usernameInput" "#username")
              Scenarios.username_input (snd Runs.after_direct))
    as (fp1 & Hst & Hlt & _).
  - vm_compute. reflexivity.
  - vm_compute. reflexivity.
  - vm_compute in Hst. injection Hst as <-. vm_compute in Hlt.
    discriminate Hlt.
Qed.

(** C3, in the form the code satisfies.
    A successful resolution of a registered element refreshes the last-seen
    of the stored fingerprint.  A direct resolution stores the attributes
    and the locators captured anew from the element and does not increment
    the heal count; a healed one keeps the locators and attributes and
    leaves a larger heal count. *)
Theorem resolution_refreshes_fingerprint (Math_sqrt : Q -> Q)
    (document : Document) (config : SelfHealingConfig) (clock : nat -> Z)
    (primary ename : string) (context : SelfHealingEngine.Context)
    (w w' : SelfHealingEngine.World) (e : HTMLElement)
    (fp0 : ElementFingerprint) :
  EngineSpec.wf w ->
  EngineSpec.stored ename w = Some fp0 ->
  (0 <= healCount fp0)%Z ->
  SelfHealingEngine.findElement Math_sqrt document config clock
    primary ename context w = (Normal e, w') ->
  exists fp1,
    EngineSpec.stored ename w' = Some fp1
    /\ EngineSpec.refreshed clock w w' fp1
    /\ ((document primary = Matches [e]
         /\ attributes fp1 = Fingerprint.extractAttributes e
         /\ alternativeLocators fp1
            = Fingerprint.generateAlternativeLocators e
                (Fingerprint.extractAttributes e)
         /\ (healCount fp1 <= healCount fp0)%Z)
        \/ ((forall e', document primary <> Matches [e'])
            /\ alternativeLocators fp1 = alternativeLocators fp0
            /\ attributes fp1 = attributes fp0
            /\ (healCount fp0 < healCount fp1)%Z)).
Proof.
  intros Hwf Hst Hcount H.
  destruct (document primary) as [[|e1 [|e2 es]]|] eqn:Hq.
  - (* no match: healed *)
    unfold SelfHealingEngine.findElement in H. rewrite Hq in H.
    destruct (negb (enabled config)); [discriminate|].
    assert (Hwf' : EngineSpec.wf
                     (SelfHealingEngine.perform w [DomQuery primary]))
      by exact Hwf.
    destruct (healAndFind_success _ _ _ _ _ _ _ _ _ _ Hwf' H)
      as (fp & result & effects & Hst' & _ & _ & _ & Hnew & Hd & _).
    change (EngineSpec.stored ename w = Some fp) in Hst'.
    rewrite Hst in Hst'. injection Hst' as <-.
    cbn [SelfHealingEngine.perform SelfHealingEngine.dates] in Hnew, Hd.
    eexists. split; [exact Hnew|]. split.
    + exists (S (SelfHealingEngine.dates w)). split; [lia|reflexivity].
    + right. cbn [HealSpec.healed healCount alternativeLocators attributes].
      repeat split; [discriminate|lia].
  - (* one match: direct *)
    rewrite (findElement_direct _ _ _ _ _ _ context w e1 Hq) in H.
    injection H as <- <-.
    eexists. split; [apply (save_new_stored
                              (Fingerprint.captureElementFingerprint
                                 (clock (SelfHealingEngine.dates w)) e1 ename
                                 primary))|].
    split.
    + exists (SelfHealingEngine.dates w). split; [|reflexivity].
      destruct (save_new_dates
                  (Fingerprint.captureElementFingerprint
                     (clock (SelfHealingEngine.dates w)) e1 ename primary)
                  (snd (SelfHealingEngine.new_Date clock
                          (SelfHealingEngine.perform w [DomQuery primary]))))
        as [Hd _].
      cbn [SelfHealingEngine.new_Date snd SelfHealingEngine.perform
           SelfHealingEngine.dates SelfHealingEngine.heap
           SelfHealingEngine.store SelfHealingEngine.trace] in Hd |- *.
      rewrite Hd. lia.
    + left. repeat split. exact Hcount.
  - (* several matches: healed *)
    unfold SelfHealingEngine.findElement in H. rewrite Hq in H.
    destruct (negb (enabled config)); [discriminate|].
    assert (Hwf' : EngineSpec.wf
                     (SelfHealingEngine.perform w [DomQuery primary]))
      by exact Hwf.
    destruct (healAndFind_success _ _ _ _ _ _ _ _ _ _ Hwf' H)
      as (fp & result & effects & Hst' & _ & _ & _ & Hnew & Hd & _).
    change (EngineSpec.stored ename w = Some fp) in Hst'.
    rewrite Hst in Hst'. injection Hst' as <-.
    cbn [SelfHealingEngine.perform SelfHealingEngine.dates] in Hnew, Hd.
    eexists. split; [exact Hnew|]. split.
    + exists (S (SelfHealingEngine.dates w)). split; [lia|reflexivity].
    + right. cbn [HealSpec.healed healCount alternativeLocators attributes].
      repeat split; [discriminate|lia].
  - (* the selector does not parse *)
    unfold SelfHealingEngine.findElement in H. rewrite Hq in H. discriminate.
Qed.

Lemma registered_wf : EngineSpec.wf Runs.registered.
Proof.
  vm_compute. split.
  - repeat constructor. intros [].
  - repeat constructor. eexists. split; reflexivity.
Defined.

Lemma resolution_refreshes_fingerprint_witness :
  EngineSpec.wf Runs.registered
  /\ exists fp1,
       EngineSpec.stored "usernameInput" (snd Runs.after_heal) = Some fp1
       /\ lastSeen fp1 = Some 1002%Z
       /\ (healCount Scenarios.username_fingerprint < healCount fp1)%Z.
Proof.
  split; [exact registered_wf|].
  destruct (resolution_refreshes_fingerprint Samples.sqrt_Q
              Scenarios.renamed_page SelfHealingEngine.default_config
              Scenarios.clock "#username" "usernameInput" Scenarios.context
              Runs.registered (snd Runs.after_heal)
              Scenarios.username_renamed Scenarios.username_fingerprint)
    as (fp1 & Hst & (n & Hn & Hseen) & [(Hq & _)|(_ & _ & _ & Hlt)]).
  - exact registered_wf.
  - vm_compute. reflexivity.
  - vm_compute. discriminate.
  - vm_compute. reflexivity.
  - vm_compute in Hq. discriminate Hq.
  - exists fp1. split; [exact Hst|]. split; [|exact Hlt].
    vm_compute in Hst. injection Hst as <-. reflexivity.
Defined.

(** ** Healing without a fingerprint *)




(** ** The threshold gate on a sample *)

(** C2, to the letter, fails on the page without the login form: no
    strategy of the user-name fingerprint is accepted, and the similarity
    scan returns the search box with confidence 0.1, below the threshold
    0.6, attributed to ['similarity']. *)
Lemma threshold_gate_as_stated_fails :
  ~ MatcherSpec.threshold_gate Samples.sqrt_Q Scenarios.search_page (6 # 10)
      (MatcherSpec.short_circuit Scenarios.search_page
         Scenarios.username_fingerprint)
      Scenarios.username_fingerprint.
Proof.
  intro H.
  destruct (H {| ElementMatcher.element := Some Scenarios.search_input;
                 ElementMatcher.locator := None;
                 ElementMatcher.confidence :=
                   50000000000000 # 500000000000000;
                 ElementMatcher.matchedBy := BySimilarity |}
              (snd (ElementMatcher.findElement Samples.sqrt_Q
                      Scenarios.search_page (6 # 10)
                      Scenarios.username_fingerprint)))
    as (l & e & _ & _ & E).
  - vm_compute. reflexivity.
  - discriminate.
  - reflexivity.
  - discriminate E.
Qed.

Lemma findElement_unique_match_witness :
  ElementMatcher.findElement Samples.sqrt_Q Scenarios.renamed_page (6 # 10)
    Scenarios.username_fingerprint
  = (Normal {| ElementMatcher.element := Some Scenarios.username_renamed;
               ElementMatcher.locator :=
                 Some {| l_type := LT_name;
                         l_value := Scenarios.name_selector "username";
                         l_priority := 5; l_confidence := 8 # 10 |};
               ElementMatcher.confidence := 8 # 10;
               ElementMatcher.matchedBy := ByLocator LT_name |},
     [DomQuery (Scenarios.test_id_selector "username-input");
      DomQuery "#username";
      DomQuery (Scenarios.name_selector "username")]).
Proof.
  apply (findElement_unique_match Samples.sqrt_Q Scenarios.renamed_page
           (6 # 10) Scenarios.username_fingerprint
           [ {| l_type := LT_data_testid;
                l_value := Scenarios.test_id_selector "username-input";
                l_priority := 1; l_confidence := 95 # 100 |};
             {| l_type := LT_id; l_value := "#username";
                l_priority := 3; l_confidence := 9 # 10 |} ]
           [ {| l_type := LT_placeholder;
                l_value := Scenarios.placeholder_selector "Enter username";
                l_priority := 6; l_confidence := 75 # 100 |};
             {| l_type := LT_class; l_value := ".field";
                l_priority := 9; l_confidence := 5 # 10 |};
             {| l_type := LT_css;
                l_value := "#login-form > input[type="
                           ++ Fingerprint.q ++ "text" ++ Fingerprint.q ++ "]";
                l_priority := 10; l_confidence := 6 # 10 |} ]).
  - reflexivity.
  - intros l' [<-|[<-|[]]]; reflexivity.
  - reflexivity.
Defined.

(** ** Monotonicity and round trip on samples *)

Lemma sqrt_Q_nonneg (x : Q) : (0 <= Samples.sqrt_Q x)%Q.
Proof.
  unfold Samples.sqrt_Q. apply Qle_shift_div_l.
  - reflexivity.
  - rewrite Qmult_0_l. rewrite <- (Zle_Qle 0). apply Z.sqrt_nonneg.
Qed.

Lemma calculateSimilarityScore_monotone_witness :
  (ElementMatcher.calculateSimilarityScore Samples.sqrt_Q
     Scenarios.password_input (attributes Scenarios.username_fingerprint)
   <= ElementMatcher.calculateSimilarityScore Samples.sqrt_Q
        {| el_tagName := "INPUT";
           el_attributes :=
             [("id", "password"); ("data-testid", "password-input");
              ("class", "field"); ("placeholder", "Enter username");
              ("name", "password"); ("type", "password")];
           textContent := Some EmptyString;
           el_innerText := Some EmptyString;
           el_value := Some EmptyString;
           getBoundingClientRect := Samples.rect 100 130 200 30;
           parentElement := Some Scenarios.login_form |}
        (attributes Scenarios.username_fingerprint))%Q.
Proof.
  apply (calculateSimilarityScore_monotone Samples.sqrt_Q _ _ _
           ScoreSpec.S_placeholder).
  - exact sqrt_Q_nonneg.
  - reflexivity.
  - vm_compute. reflexivity.
  - intros s' Hs'. destruct s'; try (vm_compute; reflexivity).
    exfalso. apply Hs'. reflexivity.
Defined.

Lemma import_export_round_trip_witness :
  EngineSpec.wf_state
    (SelfHealingEngine.store_state (snd Runs.after_heal))
  /\ LocatorStore.import
       (LocatorStore.export
          (SelfHealingEngine.store_state (snd Runs.after_heal)))
       (SelfHealingEngine.heap (snd Runs.after_heal), LocatorStore.empty)
     = SelfHealingEngine.store_state (snd Runs.after_heal).
Proof.
  assert (W : EngineSpec.wf_state
                (SelfHealingEngine.store_state (snd Runs.after_heal))).
  { vm_compute. split.
    - repeat constructor. intros [].
    - repeat constructor. eexists. split; reflexivity. }
  split; [exact W|].
  exact (import_export_round_trip _ W).
Defined.

(** ** The scenarios of the specification on the samples *)

(** Scenario A: the id is renamed, the test id is not; healing resolves
    through the test-id strategy, priority 1, at confidence 0.95. *)
Example scenario_A_test_id :
  let r := SelfHealingEngine.findElement Samples.sqrt_Q
             Scenarios2.new_id_page SelfHealingEngine.default_config
             Scenarios.clock "#username" "usernameInput" Scenarios.context
             Runs.registered in
  fst r = Normal Scenarios2.username_new_id
  /\ map strategy
       (LocatorStore.healingEvents (SelfHealingEngine.store (snd r)))
     = [ByLocator LT_data_testid]
  /\ map ev_confidence
       (LocatorStore.healingEvents (SelfHealingEngine.store (snd r)))
     = [(95 # 100)%Q].
Proof. vm_compute. repeat split. Qed.

(** Scenario E: with the threshold at 0.99 the heal that succeeds at 0.8
    under the default threshold fails, reporting both values, and the store
    keeps the registered fingerprint. *)
Example scenario_E_low_confidence :
  let r := SelfHealingEngine.findElement Samples.sqrt_Q
             Scenarios.renamed_page Scenarios2.strict_config
             Scenarios.clock "#username" "usernameInput" Scenarios.context
             Runs.registered in
  fst r = Thrown (LowConfidenceHeal "usernameInput" (8 # 10) (99 # 100))
  /\ SelfHealingEngine.store (snd r) = SelfHealingEngine.store Runs.registered
  /\ SelfHealingEngine.heap (snd r) = SelfHealingEngine.heap Runs.registered.
Proof. vm_compute. repeat split. Qed.

(** With healing disabled a broken primary locator fails at once. *)
Example healing_disabled :
  SelfHealingEngine.findElement Samples.sqrt_Q
    Scenarios.renamed_page Scenarios2.disabled_config
    Scenarios.clock "#username" "usernameInput" Scenarios.context
    Runs.registered
  = (Thrown (ElementNotFound "Element not found: #username"),
     SelfHealingEngine.perform Runs.registered [DomQuery "#username"]).
Proof. reflexivity. Qed.

(** The similarity scan on the page without the login form, and the
    orchestrator's verdict on it. *)
Example scan_below_threshold :
  let r := SelfHealingEngine.findElement Samples.sqrt_Q
             Scenarios.search_page SelfHealingEngine.default_config
             Scenarios.clock "#username" "usernameInput" Scenarios.context
             Runs.registered in
  exists achieved,
    fst r = Thrown (LowConfidenceHeal "usernameInput" achieved (6 # 10))
    /\ (achieved == 1 # 10)%Q.
Proof. eexists. split; [vm_compute; reflexivity|reflexivity]. Qed.

(** ** Invariant of the engine, and presence on captured attributes *)

Section EngineInvariant.
Import SelfHealingEngine EngineSpec.

Variable Math_sqrt : Q -> Q.
Variable document : Document.
Variable config : SelfHealingConfig.
Variable clock : nat -> Z.

Lemma healAndFind_wf (primary ename : string) (context : Context)
    (w : World) :
  wf w ->
  wf (snd (healAndFind Math_sqrt document config clock primary ename
             context w)).
Proof.
  intro Hwf.
  destruct (healAndFind Math_sqrt document config clock primary ename
              context w) as [[e|err] w'] eqn:H.
  - destruct (healAndFind_success _ _ _ _ _ _ _ _ _ _ Hwf H)
      as (_ & _ & _ & _ & _ & _ & _ & _ & _ & W). exact W.
  - cbn [snd]. unfold healAndFind in H.
    destruct (LocatorStore.getFingerprint ename (store_state w)) as [r|];
      [|injection H as _ <-; exact Hwf].
    destruct (Heap.deref (heap w) r) as [fp|];
      [|injection H as _ <-; exact Hwf].
    destruct (matcher_findElement Math_sqrt document config fp)
      as [[result|err'] effects];
      [|injection H as _ <-; exact Hwf].
    destruct (ElementMatcher.element result) as [e0|];
      [|injection H as _ <-; exact Hwf].
    destruct (ElementMatcher.Qltb _ _);
      [injection H as _ <-; exact Hwf|].
    cbn [new_Date perform heap store dates trace] in H.
    match type of H with
    | context [Heap.deref ?h ?x] => destruct (Heap.deref h x)
    end.
    + destruct (save_new _ _); discriminate H.
    + discriminate H.
Qed.

(** Every command of the engine keeps the invariant of the store. *)
Lemma findElement_wf (primary ename : string) (context : Context)
    (w : World) :
  wf w ->
  wf (snd (findElement Math_sqrt document config clock primary ename
             context w)).
Proof.
  intro Hwf. unfold findElement.
  destruct (document primary) as [[|e [|e' es]]|]; cbn [snd];
    try exact Hwf;
    try (destruct (negb (enabled config)); [exact Hwf|];
         apply healAndFind_wf; exact Hwf).
  cbn [new_Date]. apply save_new_wf. exact Hwf.
Qed.

Lemma registerElement_wf (locator_ ename : string) (w : World) :
  wf w -> wf (snd (registerElement document clock locator_ ename w)).
Proof.
  intro Hwf. unfold registerElement.
  destruct (document locator_) as [[|e es]|]; cbn [snd]; try exact Hwf.
  cbn [new_Date]. apply save_new_wf. exact Hwf.
Qed.

Lemma initial_wf : wf initial.
Proof. split; constructor. Qed.

End EngineInvariant.

Section CapturedPresence.
Import Fingerprint ScoreSpec.

(** On captured attributes a signal passes the truthiness test of the
    score exactly when the attributes have a field for it. *)
Lemma captured_present (element : HTMLElement) (s : Signal) :
  present s (extractAttributes element) = true
  <-> recorded s (extractAttributes element).
Proof.
  destruct s; cbn [present recorded].
  - apply truthy_present, opt_or_undefined_not_empty.
  - apply truthy_present, opt_or_undefined_not_empty.
  - cbn [extractAttributes dataAttributes].
    destruct (collect_data (el_attributes element) []); split;
      congruence.
  - apply truthy_present, opt_or_undefined_not_empty.
  - apply truthy_present, opt_or_undefined_not_empty.
  - apply truthy_present, or_undefined_not_empty.
  - cbn. split; congruence.
  - apply truthy_present, opt_or_undefined_not_empty.
Qed.

End CapturedPresence.

(** ** More on the edit distance *)

Section EditDistanceMetric.
Import Levenshtein.

Lemma edits_length_nil_l (b : list ascii) (n : nat) :
  edits [] b n -> n = List.length b.
Proof.
  remember [] as a eqn:Ea. induction 1; try discriminate; cbn.
  - reflexivity.
  - rewrite IHedits by assumption. reflexivity.
Qed.

(** A script of cost 0 changes nothing. *)
Lemma edits_zero (a b : list ascii) : edits a b 0 -> a = b.
Proof.
  remember 0 as n eqn:En. induction 1; try discriminate.
  - reflexivity.
  - f_equal. apply IHedits, En.
Qed.

(** Scripts compose, at no more than the sum of their costs. *)
Lemma edits_trans (a b c : list ascii) (n m : nat) :
  edits a b n -> edits b c m -> exists k, k <= n + m /\ edits a c k.
Proof.
  intro H1. revert c m.
  induction H1 as [|x a b n H1 IH|x y a b n H1 IH|x a b n H1 IH|y a b n H1 IH];
    intros c m H2.
  - exists m. split; [lia|exact H2].
  - remember (x :: b) as b0 eqn:Eb. revert Eb.
    induction H2 as [|x' b' c' m H2 _|x' y' b' c' m H2 _|x' b' c' m H2 _
                     |y' b' c' m H2 IH2]; intro Eb.
    + discriminate.
    + injection Eb as -> ->. destruct (IH _ _ H2) as (k & Hk & E).
      exists k. split; [lia|]. apply edits_keep, E.
    + injection Eb as -> ->. destruct (IH _ _ H2) as (k & Hk & E).
      exists (S k). split; [lia|]. apply edits_substitute, E.
    + injection Eb as -> ->. destruct (IH _ _ H2) as (k & Hk & E).
      exists (S k). split; [lia|]. apply edits_delete, E.
    + destruct (IH2 Eb) as (k & Hk & E).
      exists (S k). split; [lia|]. apply edits_insert, E.
  - remember (y :: b) as b0 eqn:Eb. revert Eb.
    induction H2 as [|x' b' c' m H2 _|x' y' b' c' m H2 _|x' b' c' m H2 _
                     |y' b' c' m H2 IH2]; intro Eb.
    + discriminate.
    + injection Eb as -> ->. destruct (IH _ _ H2) as (k & Hk & E).
      exists (S k). split; [lia|]. apply edits_substitute, E.
    + injection Eb as -> ->. destruct (IH _ _ H2) as (k & Hk & E).
      exists (S k). split; [lia|]. apply edits_substitute, E.
    + injection Eb as -> ->. destruct (IH _ _ H2) as (k & Hk & E).
      exists (S k). split; [lia|]. apply edits_delete, E.
    + destruct (IH2 Eb) as (k & Hk & E).
      exists (S k). split; [lia|]. apply edits_insert, E.
  - destruct (IH _ _ H2) as (k & Hk & E).
    exists (S k). split; [lia|]. apply edits_delete, E.
  - remember (y :: b) as b0 eqn:Eb. revert Eb.
    induction H2 as [|x' b' c' m H2 _|x' y' b' c' m H2 _|x' b' c' m H2 _
                     |y' b' c' m H2 IH2]; intro Eb.
    + discriminate.
    + injection Eb as -> ->. destruct (IH _ _ H2) as (k & Hk & E).
      exists (S k). split; [lia|]. apply edits_insert, E.
    + injection Eb as -> ->. destruct (IH _ _ H2) as (k & Hk & E).
      exists (S k). split; [lia|]. apply edits_insert, E.
    + injection Eb as -> ->. destruct (IH _ _ H2) as (k & Hk & E).
      exists k. split; [lia|]. exact E.
    + destruct (IH2 Eb) as (k & Hk & E).
      exists (S k). split; [lia|]. apply edits_insert, E.
Qed.

Lemma lev_triangle (a b c : list ascii) : lev a c <= lev a b + lev b c.
Proof.
  destruct (edits_trans a b c _ _ (lev_edits a b) (lev_edits b c))
    as (k & Hk & E).
  apply edits_lev in E. lia.
Qed.

Lemma lev_zero (a b : list ascii) : lev a b = 0 <-> a = b.
Proof.
  split.
  - intro H. apply edits_zero. rewrite <- H. apply lev_edits.
  - intros ->. apply lev_refl.
Qed.

Lemma list_ascii_of_string_inj (a b : string) :
  list_ascii_of_string a = list_ascii_of_string b -> a = b.
Proof.
  intro H. rewrite <- (string_of_list_ascii_of_string a),
    <- (string_of_list_ascii_of_string b), H. reflexivity.
Qed.

Lemma levenshteinDistance_distance (str1 str2 : string) :
  levenshteinDistance str1 str2 = distance str1 str2.
Proof.
  rewrite levenshteinDistance_lev, lev_rev. unfold distance. apply lev_sym.
Qed.

End EditDistanceMetric.

(** X1. [levenshteinDistance(str1, str2)] is the least number of
    single-character insertions, deletions and substitutions that turn
    [str1] into [str2]: some script has that cost and none has less. *)
Theorem levenshteinDistance_least_edits (str1 str2 : string) :
  Levenshtein.edits (list_ascii_of_string str1) (list_ascii_of_string str2)
    (Levenshtein.levenshteinDistance str1 str2)
  /\ forall n,
       Levenshtein.edits (list_ascii_of_string str1)
         (list_ascii_of_string str2) n ->
       Levenshtein.levenshteinDistance str1 str2 <= n.
Proof.
  rewrite levenshteinDistance_distance. apply distance_least.
Qed.

Lemma levenshteinDistance_least_edits_witness :
  Levenshtein.levenshteinDistance "flaw" "lawn" <= 2.
Proof.
  apply (proj2 (levenshteinDistance_least_edits "flaw" "lawn")).
  cbn. apply Levenshtein.edits_delete.
  do 3 apply Levenshtein.edits_keep.
  apply Levenshtein.edits_insert, Levenshtein.edits_nil.
Defined.

(** X2. [levenshteinDistance] is a metric on strings: it is 0 exactly on
    equal strings, it is symmetric, and it obeys the triangle
    inequality. *)
Theorem levenshteinDistance_metric (a b c : string) :
  (Levenshtein.levenshteinDistance a b = 0 <-> a = b)
  /\ Levenshtein.levenshteinDistance a b = Levenshtein.levenshteinDistance b a
  /\ Levenshtein.levenshteinDistance a c
     <= Levenshtein.levenshteinDistance a b
        + Levenshtein.levenshteinDistance b c.
Proof.
  rewrite !levenshteinDistance_distance. unfold Levenshtein.distance.
  split; [|split].
  - rewrite lev_zero. split; [apply list_ascii_of_string_inj|congruence].
  - apply lev_sym.
  - apply lev_triangle.
Qed.

(** X3. [levenshteinDistance] is at least the difference of the two
    lengths and at most the larger of them. *)
Theorem levenshteinDistance_bounds (a b : string) :
  String.length a - String.length b <= Levenshtein.levenshteinDistance a b
  /\ String.length b - String.length a <= Levenshtein.levenshteinDistance a b
  /\ Levenshtein.levenshteinDistance a b
     <= Nat.max (String.length a) (String.length b).
Proof.
  assert (L : forall s, List.length (list_ascii_of_string s) = String.length s).
  { induction s; simpl; congruence. }
  assert (D : forall x y n, Levenshtein.edits x y n ->
                List.length x <= List.length y + n
                /\ List.length y <= List.length x + n).
  { induction 1; cbn; lia. }
  rewrite levenshteinDistance_distance.
  pose proof (D _ _ _ (lev_edits (list_ascii_of_string a)
                                 (list_ascii_of_string b))) as H.
  fold (Levenshtein.distance a b) in H. rewrite !L in H.
  pose proof (distance_le a b). lia.
Qed.

(** ** More on the string similarity *)

Section SimilarityFacts.
Import Levenshtein.

Lemma stringSimilarity_sym (a b : string) :
  (stringSimilarity a b == stringSimilarity b a)%Q.
Proof.
  destruct (string_dec a b) as [->|Hab]; [reflexivity|].
  destruct a as [|ca a'] eqn:Ea.
  - unfold stringSimilarity. destruct b; [congruence|]. reflexivity.
  - destruct b as [|cb b'] eqn:Eb.
    + unfold stringSimilarity. reflexivity.
    + rewrite <- Ea, <- Eb in *.
      assert (Ha : a <> EmptyString) by (rewrite Ea; discriminate).
      assert (Hb : b <> EmptyString) by (rewrite Eb; discriminate).
      assert (Hba : b <> a) by congruence.
      rewrite (stringSimilarity_distinct a b Ha Hb Hab).
      rewrite (stringSimilarity_distinct b a Hb Ha Hba).
      unfold distance. rewrite (lev_sym (list_ascii_of_string b)).
      rewrite (Nat.max_comm (String.length b)). reflexivity.
Qed.

Lemma stringSimilarity_lt_1 (a b : string) :
  a <> b -> (stringSimilarity a b < 1)%Q.
Proof.
  intro Hab.
  destruct (JS.is_empty a || JS.is_empty b) eqn:Em.
  - unfold stringSimilarity. apply String.eqb_neq in Hab. rewrite Hab, Em.
    reflexivity.
  - apply orb_false_iff in Em. destruct Em as [Ha Hb].
    apply is_empty_false in Ha. apply is_empty_false in Hb.
    rewrite (stringSimilarity_distinct a b Ha Hb Hab).
    assert (Hd : 0 < distance a b).
    { destruct (distance a b) eqn:D; [|lia]. exfalso. apply Hab.
      unfold distance in D. apply lev_zero in D.
      apply list_ascii_of_string_inj, D. }
    assert (Hpos : (0 < Nat.max (String.length a) (String.length b))%nat).
    { destruct a; [congruence|]. cbn [String.length]. lia. }
    set (N := Nat.max _ _) in *.
    assert (HN : (0 < inject_Z (Z.of_nat N))%Q)
      by (rewrite <- (Zlt_Qlt 0); lia).
    assert (HD : (0 < inject_Z (Z.of_nat (distance a b)))%Q)
      by (rewrite <- (Zlt_Qlt 0); lia).
    apply Qlt_shift_div_r; [exact HN|]. lra.
Qed.

End SimilarityFacts.

(** X4. [stringSimilarity] does not depend on the order of its arguments,
    and it is 1 only for equal strings: two different strings always score
    strictly less than 1. *)
Theorem stringSimilarity_symmetric_strict (a b : string) :
  (stringSimilarity a b == stringSimilarity b a)%Q
  /\ ((stringSimilarity a b == 1)%Q <-> a = b).
Proof.
  split; [apply stringSimilarity_sym|]. split.
  - intro H. destruct (string_dec a b) as [E|N]; [exact E|].
    pose proof (stringSimilarity_lt_1 a b N) as L. rewrite H in L.
    discriminate L.
  - intros ->. unfold stringSimilarity. rewrite String.eqb_refl. reflexivity.
Qed.

(** ** Range of the scores *)

Section ScoreRange.
Import ElementMatcher ScoreSpec.

Variable Math_sqrt : Q -> Q.

Lemma ratio_nonneg (a b : nat) : (0 <= ratio a b)%Q.
Proof.
  unfold ratio. destruct b as [|b].
  - unfold Qdiv. change (/ inject_Z (Z.of_nat 0))%Q with 0%Q.
    rewrite Qmult_0_r. apply Qle_refl.
  - apply Qle_shift_div_l.
    + rewrite <- (Zlt_Qlt 0). lia.
    + rewrite Qmult_0_l. rewrite <- (Zle_Qle 0). lia.
Qed.

Lemma exact_nonneg (x y : string) : (0 <= exact x y)%Q.
Proof. unfold exact. destruct (String.eqb x y); lra. Qed.

Lemma calculatePositionSimilarity_nonneg (rect target : ElementPosition) :
  (0 <= calculatePositionSimilarity Math_sqrt rect target)%Q.
Proof.
  unfold calculatePositionSimilarity. cbv zeta.
  set (m := Qmax 0 _).
  assert (Hm : (0 <= m)%Q) by apply Q.le_max_l.
  destruct (_ && _); lra.
Qed.

Lemma comparison_nonneg (s : Signal) (element : HTMLElement)
    (target : ElementAttributes) :
  (0 <= comparison Math_sqrt s element target)%Q.
Proof.
  destruct s; cbn [comparison].
  - apply stringSimilarity_range.
  - apply exact_nonneg.
  - destruct (dataAttributes target); [apply ratio_nonneg|lra].
  - apply exact_nonneg.
  - apply exact_nonneg.
  - apply ratio_nonneg.
  - destruct (position target); [|lra].
    apply calculatePositionSimilarity_nonneg.
  - apply exact_nonneg.
Qed.

Lemma weighted_sum_bounds (element : HTMLElement) (target : ElementAttributes)
    (ss : list Signal) :
  (forall s, comparison Math_sqrt s element target <= 1)%Q ->
  (0 <= weighted_sum Math_sqrt element target ss)%Q
  /\ (weighted_sum Math_sqrt element target ss <= weight_total ss)%Q.
Proof.
  intro H1. induction ss as [|s ss [IH0 IH1]];
    cbn [weighted_sum weight_total fold_right]; [split; lra|].
  fold (weighted_sum Math_sqrt element target ss).
  fold (weight_total ss).
  pose proof (weight_pos s) as Hw.
  pose proof (comparison_nonneg s element target) as H0.
  specialize (H1 s).
  assert (0 <= comparison Math_sqrt s element target * weight s)%Q
    by (apply Qmult_le_0_compat; lra).
  assert (comparison Math_sqrt s element target * weight s <= weight s)%Q.
  { rewrite <- (Qmult_1_l (weight s)) at 2.
    apply Qmult_le_compat_r; lra. }
  split; lra.
Qed.

Lemma weighted_sum_all_one (element : HTMLElement) (target : ElementAttributes)
    (ss : list Signal) :
  (forall s, In s ss -> comparison Math_sqrt s element target == 1)%Q ->
  (weighted_sum Math_sqrt element target ss == weight_total ss)%Q.
Proof.
  induction ss as [|s ss IH]; intro H;
    cbn [weighted_sum weight_total fold_right]; [reflexivity|].
  fold (weighted_sum Math_sqrt element target ss).
  fold (weight_total ss).
  rewrite (H s (or_introl eq_refl)), IH.
  - ring.
  - intros s' Hs'. apply H. right. exact Hs'.
Qed.

End ScoreRange.

(** X5. With a square root that is never negative, the position score lies
    in [[0, 1]]; and for a candidate 200 pixels or more from the recorded
    position only the size counts: the score is 0 or one half. *)
Theorem calculatePositionSimilarity_bounds (Math_sqrt : Q -> Q)
    (rect target : ElementPosition) :
  (forall x, 0 <= Math_sqrt x)%Q ->
  (0 <= ElementMatcher.calculatePositionSimilarity Math_sqrt rect target
   /\ ElementMatcher.calculatePositionSimilarity Math_sqrt rect target <= 1)%Q
  /\ ((200 <= Math_sqrt ((pos_x rect - pos_x target)
                         * (pos_x rect - pos_x target)
                         + (pos_y rect - pos_y target)
                           * (pos_y rect - pos_y target)))%Q ->
      (ElementMatcher.calculatePositionSimilarity Math_sqrt rect target == 0
       \/ ElementMatcher.calculatePositionSimilarity Math_sqrt rect target
          == 1 # 2)%Q).
Proof.
  intro Hsqrt. split.
  - split; [apply calculatePositionSimilarity_nonneg|].
    apply calculatePositionSimilarity_le_1, Hsqrt.
  - unfold ElementMatcher.calculatePositionSimilarity. cbv zeta.
    set (d := Math_sqrt _). intro Hd.
    assert (Hm : (Qmax 0 (1 - d / 200) == 0)%Q).
    { apply Q.max_l.
      assert (1 <= d / 200)%Q by (apply Qle_shift_div_l; lra). lra. }
    rewrite Hm. destruct (_ && _); [right|left]; reflexivity.
Qed.

Lemma calculatePositionSimilarity_bounds_witness :
  (ElementMatcher.calculatePositionSimilarity Samples.sqrt_Q
     (Samples.rect 400 480 600 90) (Samples.rect 100 80 200 30) == 0
   \/ ElementMatcher.calculatePositionSimilarity Samples.sqrt_Q
        (Samples.rect 400 480 600 90) (Samples.rect 100 80 200 30)
      == 1 # 2)%Q.
Proof.
  apply (calculatePositionSimilarity_bounds Samples.sqrt_Q
           (Samples.rect 400 480 600 90) (Samples.rect 100 80 200 30)
           sqrt_Q_nonneg).
  vm_compute. discriminate.
Defined.

(** X6. With a square root that is never negative, the similarity score of
    any candidate against any target lies in [[0, 1]]. *)
Theorem calculateSimilarityScore_range (Math_sqrt : Q -> Q)
    (element : HTMLElement) (target : ElementAttributes) :
  (forall x, 0 <= Math_sqrt x)%Q ->
  (0 <= ElementMatcher.calculateSimilarityScore Math_sqrt element target
   /\ ElementMatcher.calculateSimilarityScore Math_sqrt element target <= 1)%Q.
Proof.
  intro Hsqrt. rewrite calculateSimilarityScore_score. unfold ScoreSpec.score.
  destruct (filter _ ScoreSpec.signals) as [|s ss]; [split; lra|].
  pose proof (weight_total_pos s ss) as Hpos.
  destruct (weighted_sum_bounds Math_sqrt element target (s :: ss)
              (fun s' => comparison_le_1 Math_sqrt Hsqrt s' element target))
    as [H0 H1].
  split.
  - apply Qle_shift_div_l; [exact Hpos|]. lra.
  - apply Qle_shift_div_r; [exact Hpos|]. lra.
Qed.

Lemma calculateSimilarityScore_range_witness :
  (0 <= ElementMatcher.calculateSimilarityScore Samples.sqrt_Q
          Scenarios.search_input (attributes Scenarios.username_fingerprint)
   /\ ElementMatcher.calculateSimilarityScore Samples.sqrt_Q
        Scenarios.search_input (attributes Scenarios.username_fingerprint)
      <= 1)%Q.
Proof.
  apply (calculateSimilarityScore_range Samples.sqrt_Q Scenarios.search_input
           (attributes Scenarios.username_fingerprint) sqrt_Q_nonneg).
Defined.

(** ** What capture guarantees *)

Section CaptureFacts.
Import Fingerprint CaptureSpec.

Lemma substring0_length (n : nat) (s : string) :
  String.length (JS.substring0 n s) <= n.
Proof.
  revert s. induction n as [|n IH]; intros [|c s]; cbn; try lia.
  specialize (IH s). lia.
Qed.

Lemma substring0_all (n : nat) (s : string) :
  String.length s <= n -> JS.substring0 n s = s.
Proof.
  revert s. induction n as [|n IH]; intros [|c s]; cbn; intro H;
    try reflexivity; try lia.
  f_equal. apply IH. lia.
Qed.

Lemma at_most_100_captured (o : option string) :
  at_most_100
    (JS.opt_or_undefined
       (option_map (fun t => JS.substring0 100 (JS.trim t)) o)).
Proof.
  destruct o as [t|]; cbn [option_map JS.opt_or_undefined]; [|exact I].
  unfold JS.or_undefined.
  destruct (JS.is_empty _); [exact I|]. apply substring0_length.
Qed.

Lemma prop_get_set_same {V} (k : string) (v : V) (o : JS.Record_ V) :
  JS.prop_get k (JS.prop_set k v o) = Some v.
Proof.
  induction o as [|[k' v'] o IH]; cbn.
  - rewrite String.eqb_refl. reflexivity.
  - destruct (String.eqb k k') eqn:E; cbn; rewrite ?String.eqb_refl, ?E; auto.
Qed.

Lemma prop_get_set_other {V} (k k' : string) (v : V) (o : JS.Record_ V) :
  k <> k' -> JS.prop_get k' (JS.prop_set k v o) = JS.prop_get k' o.
Proof.
  intro H. induction o as [|[k0 v0] o IH]; cbn.
  - destruct (String.eqb k' k) eqn:E; [|reflexivity].
    apply String.eqb_eq in E. congruence.
  - destruct (String.eqb k k0) eqn:E; cbn.
    + apply String.eqb_eq in E. subst k0.
      destruct (String.eqb k' k) eqn:E'; [|reflexivity].
      apply String.eqb_eq in E'. congruence.
    + rewrite IH. reflexivity.
Qed.

Lemma prop_set_keys {V} (k : string) (v : V) (o : JS.Record_ V) (x : string) :
  In x (map fst (JS.prop_set k v o)) <-> x = k \/ In x (map fst o).
Proof.
  induction o as [|[k' v'] o IH]; cbn.
  - intuition congruence.
  - destruct (String.eqb k k') eqn:E; cbn.
    + apply String.eqb_eq in E. subst k'. intuition congruence.
    + rewrite IH. intuition congruence.
Qed.

Lemma prop_set_NoDup {V} (k : string) (v : V) (o : JS.Record_ V) :
  NoDup (map fst o) -> NoDup (map fst (JS.prop_set k v o)).
Proof.
  induction o as [|[k' v'] o IH]; cbn; intro H.
  - repeat constructor. intros [].
  - inversion H as [|? ? Hn Hd]; subst.
    destruct (String.eqb k k') eqn:E; cbn.
    + apply String.eqb_eq in E. subst k'. constructor; assumption.
    + apply String.eqb_neq in E. constructor; [|apply IH, Hd].
      rewrite prop_set_keys. intros [->|I]; [congruence|exact (Hn I)].
Qed.

Lemma prop_set_nonempty {V} (k : string) (v : V) (o : JS.Record_ V) :
  JS.prop_set k v o <> [].
Proof.
  destruct o as [|[k' v'] o]; cbn; [discriminate|].
  destruct (String.eqb k k'); discriminate.
Qed.

(** The record built by the loop of [extractAttributes]. *)
Lemma collect_data_shape (attrs : list (string * string))
    (acc : JS.Record_ string) :
  NoDup (map fst acc) ->
  Forall (fun kv => JS.startsWith "data-" (fst kv) = true) acc ->
  NoDup (map fst (collect_data attrs acc))
  /\ Forall (fun kv => JS.startsWith "data-" (fst kv) = true)
       (collect_data attrs acc)
  /\ (acc <> [] -> collect_data attrs acc <> []).
Proof.
  revert acc. induction attrs as [|[k v] attrs IH]; intros acc Hn Hp; cbn.
  - repeat split; auto.
  - destruct (JS.startsWith "data-" k) eqn:P; [|apply IH; assumption].
    destruct (IH (JS.prop_set k v acc)) as (I1 & I2 & I3).
    + apply prop_set_NoDup, Hn.
    + rewrite Forall_forall in *. intros [k' v'] Hin. cbn [fst].
      assert (Hk : In k' (map fst (JS.prop_set k v acc)))
        by (apply (in_map fst) in Hin; exact Hin).
      rewrite prop_set_keys in Hk. destruct Hk as [->|Hk]; [exact P|].
      apply in_map_iff in Hk. destruct Hk as ([k0 v0] & E & Hin0).
      cbn in E. subst k0. apply (Hp _ Hin0).
    + repeat split; auto. intros _. apply I3, prop_set_nonempty.
Qed.

(** What the loop has recorded under a key: the value of the last
    attribute of that name, when the name starts with [data-]. *)
Lemma collect_data_get (attrs : list (string * string))
    (acc : JS.Record_ string) (k : string) :
  NoDup (map fst attrs) ->
  JS.prop_get k (collect_data attrs acc)
  = match lookup_attr k attrs with
    | Some v => if JS.startsWith "data-" k then Some v else JS.prop_get k acc
    | None => JS.prop_get k acc
    end.
Proof.
  revert acc. induction attrs as [|[k' v'] attrs IH]; intros acc Hn; cbn.
  - reflexivity.
  - inversion Hn as [|? ? Hnot Hd]; subst.
    destruct (String.eqb k k') eqn:E.
    + apply String.eqb_eq in E. subst k'.
      assert (L : lookup_attr k attrs = None).
      { clear -Hnot. induction attrs as [|[k0 v0] attrs IH]; cbn;
          [reflexivity|].
        destruct (String.eqb k k0) eqn:E.
        - apply String.eqb_eq in E. subst. exfalso. apply Hnot. left.
          reflexivity.
        - apply IH. intro I. apply Hnot. right. exact I. }
      destruct (JS.startsWith "data-" k) eqn:P.
      * rewrite IH by exact Hd. rewrite L. apply prop_get_set_same.
      * rewrite IH by exact Hd. rewrite L. reflexivity.
    + apply String.eqb_neq in E.
      destruct (JS.startsWith "data-" k') eqn:P.
      * rewrite IH by exact Hd.
        rewrite prop_get_set_other by congruence. reflexivity.
      * apply IH, Hd.
Qed.

End CaptureFacts.

Lemma extractAttributes_shape (element : HTMLElement) :
  CaptureSpec.well_formed (Fingerprint.extractAttributes element).
Proof.
  unfold CaptureSpec.well_formed.
  split; [discriminate|]. split; [discriminate|]. split; [|split; [|split]].
  - unfold Fingerprint.parent_className, Fingerprint.parent_id.
    cbn [Fingerprint.extractAttributes text innerText className id name
         placeholder title ariaLabel role type_ href src value parentInfo].
    repeat constructor;
      try apply opt_or_undefined_not_empty;
      try apply or_undefined_not_empty;
      destruct (parentElement element);
      cbn [pi_className pi_id]; try discriminate;
      apply or_undefined_not_empty.
  - apply at_most_100_captured.
  - apply at_most_100_captured.
  - cbn [Fingerprint.extractAttributes dataAttributes].
    destruct (collect_data_shape (el_attributes element) [])
      as (I1 & I2 & _); [constructor|constructor|].
    destruct (Fingerprint.collect_data (el_attributes element) []);
      [exact I|].
    repeat split; [discriminate|exact I1|exact I2].
Qed.

(** X7. Captured attributes are well formed: the tag name and the position
    are there, no string field is there but empty, the two texts hold at
    most 100 code units, and the [data-*] record, when there, is not empty
    and has distinct keys that all start with [data-]. *)
Theorem extractAttributes_well_formed (element : HTMLElement) :
  CaptureSpec.well_formed (Fingerprint.extractAttributes element).
Proof. apply extractAttributes_shape. Qed.

Lemma data_attr_captured_at (element : HTMLElement)
    (key : string) :
  CaptureSpec.unique_attribute_names element ->
  Fingerprint.data_attr (Fingerprint.extractAttributes element) key
  = if JS.startsWith "data-" key then getAttribute element key else None.
Proof.
  intro Hn. unfold Fingerprint.data_attr.
  cbn [Fingerprint.extractAttributes dataAttributes].
  pose proof (collect_data_get (el_attributes element) [] key Hn) as G.
  cbn [JS.prop_get] in G. unfold getAttribute.
  destruct (Fingerprint.collect_data (el_attributes element) []) eqn:C.
  - cbn [JS.prop_get] in G.
    destruct (lookup_attr key (el_attributes element));
      destruct (JS.startsWith "data-" key); congruence.
  - rewrite G.
    destruct (lookup_attr key (el_attributes element));
      destruct (JS.startsWith "data-" key); reflexivity.
Qed.

(** X8. For an element whose attribute names are distinct, the captured
    [data-*] record agrees with the element: under a key that starts with
    [data-] it holds what [getAttribute] returns, and it holds nothing under
    any other key. *)
Theorem extractAttributes_data_attributes (element : HTMLElement)
    (key : string) :
  CaptureSpec.unique_attribute_names element ->
  Fingerprint.data_attr (Fingerprint.extractAttributes element) key
  = if JS.startsWith "data-" key then getAttribute element key else None.
Proof. apply data_attr_captured_at. Qed.

Lemma extractAttributes_data_attributes_witness :
  Fingerprint.data_attr (Fingerprint.extractAttributes
                           Scenarios.username_input) "data-testid"
  = Some "username-input".
Proof.
  apply (extractAttributes_data_attributes Scenarios.username_input
           "data-testid").
  unfold CaptureSpec.unique_attribute_names. simpl.
  repeat constructor; simpl; intuition discriminate.
Defined.

(** ** An element against its own fingerprint *)

Section SelfSimilarity.
Import ElementMatcher ScoreSpec Fingerprint CaptureSpec.

Variable Math_sqrt : Q -> Q.
Hypothesis Math_sqrt_zero : forall x, (x == 0)%Q -> (Math_sqrt x == 0)%Q.

Lemma or_empty_or_undefined (s : string) :
  JS.or_empty (JS.or_undefined s) = s.
Proof. destruct s; reflexivity. Qed.

Lemma or_empty_opt_or_undefined (o : option string) :
  JS.or_empty (JS.opt_or_undefined o) = JS.or_empty o.
Proof. destruct o as [s|]; [apply or_empty_or_undefined|reflexivity]. Qed.

Lemma exact_refl (x : string) : exact x x = 1%Q.
Proof. unfold exact. rewrite String.eqb_refl. reflexivity. Qed.

Lemma ratio_refl (n : nat) : 0 < n -> (ratio n n == 1)%Q.
Proof.
  intro H. unfold ratio. field. intro E.
  assert (0 < inject_Z (Z.of_nat n))%Q by (rewrite <- (Zlt_Qlt 0); lia).
  lra.
Qed.

Lemma mem_In (x : string) (xs : list string) :
  JS.mem x xs = true <-> In x xs.
Proof.
  induction xs as [|y ys IH]; cbn; [split; [discriminate|tauto]|].
  rewrite orb_true_iff, IH, String.eqb_eq. intuition congruence.
Qed.

Lemma filter_all {A} (f : A -> bool) (l : list A) :
  (forall x, In x l -> f x = true) -> filter f l = l.
Proof.
  induction l as [|x l IH]; intro H; cbn; [reflexivity|].
  rewrite (H x (or_introl eq_refl)). f_equal. apply IH.
  intros y Hy. apply H. right. exact Hy.
Qed.

Lemma set_add_all_length (seen xs : list string) :
  List.length seen <= List.length (JS.set_add_all seen xs).
Proof.
  revert seen. induction xs as [|x xs IH]; intro seen; cbn; [lia|].
  destruct (JS.mem x seen); [apply IH|].
  specialize (IH (seen ++ [x])%list). rewrite length_app in IH. cbn in IH.
  lia.
Qed.

Lemma new_Set_nonempty (x : string) (xs : list string) :
  0 < List.length (JS.new_Set (x :: xs)).
Proof.
  unfold JS.new_Set. cbn.
  pose proof (set_add_all_length [x] xs) as H. cbn in H. lia.
Qed.

Lemma split_space_cons (s : string) :
  exists x xs, JS.split_space s = x :: xs.
Proof.
  induction s as [|c s (x & xs & E)]; cbn.
  - eexists _, _. reflexivity.
  - destruct (Ascii.eqb c _); [eexists _, _; reflexivity|].
    rewrite E. eexists _, _. reflexivity.
Qed.

(** The class score of a class string against itself. *)
Lemma class_score_refl (s : string) :
  (ratio (List.length
            (filter (fun c => JS.mem c (JS.new_Set (JS.split_space s)))
                    (JS.new_Set (JS.split_space s))))
         (List.length (JS.new_Set (JS.split_space s))) == 1)%Q.
Proof.
  rewrite filter_all by (intros x Hx; apply mem_In, Hx).
  destruct (split_space_cons s) as (x & xs & ->).
  apply ratio_refl, new_Set_nonempty.
Qed.

Lemma lookup_attr_In (k v : string) (attrs : list (string * string)) :
  NoDup (map fst attrs) -> In (k, v) attrs -> lookup_attr k attrs = Some v.
Proof.
  induction attrs as [|[k' v'] attrs IH]; cbn; intros Hn Hin;
    [destruct Hin|destruct Hin as [E|Hin]].
  - injection E as -> ->. rewrite String.eqb_refl. reflexivity.
  - inversion Hn as [|? ? Hnot Hd]; subst.
    destruct (String.eqb k k') eqn:E.
    + apply String.eqb_eq in E. subst k'. exfalso. apply Hnot.
      apply (in_map fst) in Hin. exact Hin.
    + apply IH; assumption.
Qed.

Lemma prop_get_In {V} (k : string) (v : V) (o : JS.Record_ V) :
  NoDup (map fst o) -> In (k, v) o -> JS.prop_get k o = Some v.
Proof.
  induction o as [|[k' v'] o IH]; cbn; intros Hn Hin;
    [destruct Hin|destruct Hin as [E|Hin]].
  - injection E as -> ->. rewrite String.eqb_refl. reflexivity.
  - inversion Hn as [|? ? Hnot Hd]; subst.
    destruct (String.eqb k k') eqn:E.
    + apply String.eqb_eq in E. subst k'. exfalso. apply Hnot.
      apply (in_map fst) in Hin. exact Hin.
    + apply IH; assumption.
Qed.

Lemma position_score_refl (rect : ElementPosition) :
  (calculatePositionSimilarity Math_sqrt rect rect == 1)%Q.
Proof.
  unfold calculatePositionSimilarity. cbv zeta.
  set (d := Math_sqrt _).
  assert (Hd : (d == 0)%Q) by (apply Math_sqrt_zero; ring).
  assert (Hw : Qltb (Qabs (pos_width rect - pos_width rect)) 50 = true).
  { apply Qltb_true.
    assert (E : (pos_width rect - pos_width rect == 0)%Q) by ring.
    rewrite E. reflexivity. }
  assert (Hh : Qltb (Qabs (pos_height rect - pos_height rect)) 50 = true).
  { apply Qltb_true.
    assert (E : (pos_height rect - pos_height rect == 0)%Q) by ring.
    rewrite E. reflexivity. }
  rewrite Hw, Hh. cbn [andb].
  assert (Hm : (Qmax 0 (1 - d / 200) == 1)%Q).
  { rewrite Hd. reflexivity. }
  rewrite Hm. reflexivity.
Qed.

(** Every signal recorded at capture is matched exactly by the element. *)
Lemma comparison_captured (element : HTMLElement) (s : Signal) :
  unique_attribute_names element ->
  text_fits element ->
  present s (extractAttributes element) = true ->
  (comparison Math_sqrt s element (extractAttributes element) == 1)%Q.
Proof.
  intros Hn Ht Hp. destruct s; cbn [comparison present] in *.
  - (* text *)
    cbn [extractAttributes text] in *. unfold text_fits in Ht.
    destruct (textContent element) as [t|]; [|discriminate Hp].
    cbn [option_map] in *. rewrite substring0_all in * by exact Ht.
    cbn [JS.opt_or_undefined JS.or_empty].
    rewrite or_empty_or_undefined.
    unfold stringSimilarity. rewrite String.eqb_refl. reflexivity.
  - cbn [extractAttributes ariaLabel]. rewrite or_empty_opt_or_undefined.
    rewrite exact_refl. reflexivity.
  - (* data attributes *)
    destruct (dataAttributes (extractAttributes element)) as [entries|] eqn:D;
      [|discriminate Hp].
    destruct entries as [|e0 es]; [discriminate Hp|].
    pose proof (extractAttributes_shape element)
      as (_ & _ & _ & _ & _ & W).
    rewrite D in W. destruct W as (_ & Wn & _).
    rewrite filter_all; [apply ratio_refl; cbn; lia|].
    intros [k v] Hin. unfold pair_matched. cbn [fst snd].
    assert (G : data_attr (extractAttributes element) k = Some v).
    { unfold data_attr. rewrite D. apply prop_get_In; assumption. }
    rewrite (data_attr_captured_at element k Hn) in G.
    destruct (JS.startsWith "data-" k); [|discriminate G].
    rewrite G. apply String.eqb_refl.
  - cbn [extractAttributes placeholder]. rewrite or_empty_opt_or_undefined.
    rewrite exact_refl. reflexivity.
  - cbn [extractAttributes name]. rewrite or_empty_opt_or_undefined.
    rewrite exact_refl. reflexivity.
  - cbn [extractAttributes className]. rewrite or_empty_or_undefined.
    apply class_score_refl.
  - cbn [extractAttributes position].
    destruct (getBoundingClientRect element) as [x y w h].
    cbn [pos_x pos_y pos_width pos_height]. apply position_score_refl.
  - cbn [extractAttributes role]. rewrite or_empty_opt_or_undefined.
    rewrite exact_refl. reflexivity.
Qed.

Lemma score_captured (element : HTMLElement) :
  unique_attribute_names element ->
  text_fits element ->
  (score Math_sqrt element (extractAttributes element) == 1)%Q.
Proof.
  intros Hn Ht. unfold score.
  destruct (filter (fun s => present s (extractAttributes element)) signals)
    as [|s ss] eqn:F.
  - exfalso.
    assert (I : In S_position
                  (filter (fun s => present s (extractAttributes element))
                          signals)).
    { apply filter_In. split; [cbn; tauto|reflexivity]. }
    rewrite F in I. exact I.
  - rewrite weighted_sum_all_one.
    + field. pose proof (weight_total_pos s ss). lra.
    + intros s' Hs'. rewrite <- F in Hs'. apply filter_In in Hs'.
      apply comparison_captured; tauto.
Qed.

End SelfSimilarity.

(** X9. An element is a perfect match for its own fingerprint: its
    similarity score against the attributes captured from it is 1, provided
    its attribute names are distinct, its trimmed text fits in the 100 code
    units a fingerprint keeps, and the square root of zero is zero. *)
Theorem captured_element_scores_one (Math_sqrt : Q -> Q)
    (element : HTMLElement) :
  (forall x, x == 0 -> Math_sqrt x == 0)%Q ->
  CaptureSpec.unique_attribute_names element ->
  CaptureSpec.text_fits element ->
  (ElementMatcher.calculateSimilarityScore Math_sqrt element
     (Fingerprint.extractAttributes element) == 1)%Q.
Proof.
  intros Hz Hn Ht. rewrite calculateSimilarityScore_score.
  apply score_captured; assumption.
Qed.

Lemma sqrt_Q_zero (x : Q) : (x == 0)%Q -> (Samples.sqrt_Q x == 0)%Q.
Proof.
  intro H. unfold Qeq in H. cbn in H. rewrite Z.mul_1_r in H.
  unfold Samples.sqrt_Q. rewrite H. reflexivity.
Qed.

Lemma captured_element_scores_one_witness :
  (ElementMatcher.calculateSimilarityScore Samples.sqrt_Q
     Scenarios.username_input
     (Fingerprint.extractAttributes Scenarios.username_input) == 1)%Q.
Proof.
  apply (captured_element_scores_one Samples.sqrt_Q Scenarios.username_input).
  - exact sqrt_Q_zero.
  - unfold CaptureSpec.unique_attribute_names. simpl.
    repeat constructor; simpl; intuition discriminate.
  - unfold CaptureSpec.text_fits. cbn. apply Nat.le_0_l.
Defined.

(** ** The best match and the queries of the matcher *)

Section BestMatch.
Import ElementMatcher QuerySpec.

Variable Math_sqrt : Q -> Q.
Variable document : Document.
Variable confidenceThreshold : Q.

Let score (target : ElementAttributes) (e : HTMLElement) : Q :=
  calculateSimilarityScore Math_sqrt e target.

Lemma findBestMatch_loop_effects (elements : list HTMLElement)
    (target : ElementAttributes) (bestElement : option HTMLElement)
    (bestScore : Q) :
  snd (findBestMatch_loop Math_sqrt elements target bestElement bestScore)
  = map Scored elements.
Proof.
  revert bestElement bestScore.
  induction elements as [|e rest IH]; intros be bs; [reflexivity|].
  cbn [findBestMatch_loop]. unfold bind, score_of.
  destruct (Qltb bs _).
  - specialize (IH (Some e) (calculateSimilarityScore Math_sqrt e target)).
    destruct (findBestMatch_loop _ rest target _ _). cbn in *. congruence.
  - specialize (IH be bs).
    destruct (findBestMatch_loop _ rest target _ _). cbn in *. congruence.
Qed.

(** The loop ends either with the best it started from, nothing in the list
    being better, or with the first element of the list that nothing
    beats. *)
Lemma findBestMatch_loop_best (elements : list HTMLElement)
    (target : ElementAttributes) (bestElement : option HTMLElement)
    (bestScore : Q) :
  let r := fst (findBestMatch_loop Math_sqrt elements target bestElement
                  bestScore) in
  (forall e, In e elements -> score target e <= bm_confidence r)%Q
  /\ ((bm_element r = bestElement /\ bm_confidence r = bestScore)
      \/ exists before e after,
           elements = (before ++ e :: after)%list
           /\ bm_element r = Some e
           /\ bm_confidence r = score target e
           /\ (bestScore < score target e)%Q
           /\ forall x, In x before -> (score target x < score target e)%Q).
Proof.
  revert bestElement bestScore.
  induction elements as [|e0 rest IH]; intros be bs.
  - cbn. split; [tauto|]. left. split; reflexivity.
  - cbn [findBestMatch_loop]. unfold bind, score_of.
    fold (score target e0).
    destruct (Qltb bs (score target e0)) eqn:L.
    + apply Qltb_true in L.
      specialize (IH (Some e0) (score target e0)).
      destruct (findBestMatch_loop _ rest target _ _) as [r t].
      cbn [fst] in *. destruct IH as [Hmax Hcase].
      assert (Hge : (score target e0 <= bm_confidence r)%Q).
      { destruct Hcase as [[_ ->]|(b & e & a & _ & _ & -> & Hlt & _)];
          [apply Qle_refl|apply Qlt_le_weak, Hlt]. }
      split.
      * intros x [<-|Hx]; [exact Hge|apply Hmax, Hx].
      * right. destruct Hcase as [[He Hc]|(b & e & a & -> & He & Hc & Hlt & Hb)].
        -- exists [], e0, rest. repeat split; try assumption. intros x [].
        -- exists (e0 :: b), e, a. repeat split; try assumption.
           ++ eapply Qlt_trans; eassumption.
           ++ intros x [<-|Hx]; [exact Hlt|apply Hb, Hx].
    + apply Qltb_false in L.
      specialize (IH be bs).
      destruct (findBestMatch_loop _ rest target _ _) as [r t].
      cbn [fst] in *. destruct IH as [Hmax Hcase].
      assert (Hge : (bs <= bm_confidence r)%Q).
      { destruct Hcase as [[_ ->]|(b & e & a & _ & _ & -> & Hlt & _)];
          [apply Qle_refl|apply Qlt_le_weak, Hlt]. }
      split.
      * intros x [<-|Hx]; [eapply Qle_trans; eassumption|apply Hmax, Hx].
      * destruct Hcase as [[He Hc]|(b & e & a & -> & He & Hc & Hlt & Hb)].
        -- left. split; assumption.
        -- right. exists (e0 :: b), e, a. repeat split; try assumption.
           intros x [<-|Hx]; [|apply Hb, Hx].
           eapply Qle_lt_trans; eassumption.
Qed.

End BestMatch.

Lemma findBestMatch_first_best (Math_sqrt : Q -> Q)
    (elements : list HTMLElement) (target : ElementAttributes) :
  let best := fst (ElementMatcher.findBestMatch Math_sqrt elements target) in
  let score := fun e =>
    ElementMatcher.calculateSimilarityScore Math_sqrt e target in
  snd (ElementMatcher.findBestMatch Math_sqrt elements target)
  = map Scored elements
  /\ (forall e, In e elements ->
        (score e <= ElementMatcher.bm_confidence best)%Q)
  /\ match ElementMatcher.bm_element best with
     | Some e =>
         exists before after,
           elements = (before ++ e :: after)%list
           /\ ElementMatcher.bm_confidence best = score e
           /\ (0 < score e)%Q
           /\ forall x, In x before -> (score x < score e)%Q
     | None => ElementMatcher.bm_confidence best = 0%Q
     end.
Proof.
  cbv zeta. unfold ElementMatcher.findBestMatch.
  split; [apply findBestMatch_loop_effects|].
  destruct (findBestMatch_loop_best Math_sqrt elements target None 0%Q)
    as [Hmax Hcase].
  split; [exact Hmax|].
  destruct Hcase as [[-> ->]|(b & e & a & E & -> & Hc & Hlt & Hb)];
    [reflexivity|].
  exists b, a. repeat split; assumption.
Qed.

(** X10. [findBestMatch] scores every candidate once, in order, and returns
    a candidate with the highest score, the first of them, with that score
    as confidence; it returns no element, and confidence 0, exactly when no
    candidate scores above 0. *)
Theorem findBestMatch_best (Math_sqrt : Q -> Q)
    (elements : list HTMLElement) (target : ElementAttributes) :
  let best := fst (ElementMatcher.findBestMatch Math_sqrt elements target) in
  let score := fun e =>
    ElementMatcher.calculateSimilarityScore Math_sqrt e target in
  snd (ElementMatcher.findBestMatch Math_sqrt elements target)
  = map Scored elements
  /\ (forall e, In e elements ->
        (score e <= ElementMatcher.bm_confidence best)%Q)
  /\ match ElementMatcher.bm_element best with
     | Some e =>
         exists before after,
           elements = (before ++ e :: after)%list
           /\ ElementMatcher.bm_confidence best = score e
           /\ (0 < score e)%Q
           /\ forall x, In x before -> (score x < score e)%Q
     | None => ElementMatcher.bm_confidence best = 0%Q
     end.
Proof. apply findBestMatch_first_best. Qed.

Lemma findBestMatch_best_witness :
  ElementMatcher.bm_element
    (fst (ElementMatcher.findBestMatch Samples.sqrt_Q
            [Scenarios.search_input; Scenarios.username_renamed]
            (attributes Scenarios.username_fingerprint)))
  = Some Scenarios.username_renamed
  /\ (ElementMatcher.calculateSimilarityScore Samples.sqrt_Q
        Scenarios.search_input (attributes Scenarios.username_fingerprint)
      <= ElementMatcher.bm_confidence
           (fst (ElementMatcher.findBestMatch Samples.sqrt_Q
                   [Scenarios.search_input; Scenarios.username_renamed]
                   (attributes Scenarios.username_fingerprint))))%Q.
Proof.
  split; [vm_compute; reflexivity|].
  pose proof (findBestMatch_best Samples.sqrt_Q
                [Scenarios.search_input; Scenarios.username_renamed]
                (attributes Scenarios.username_fingerprint)) as H.
  cbv zeta beta in H. destruct H as (_ & Hmax & _).
  apply Hmax. left. reflexivity.
Defined.

(** ** The queries of the matcher *)

Section MatcherQueries.
Import ElementMatcher MatcherSpec QuerySpec.

Variable sqrt : Q -> Q.
Variable doc : Document.
Variable thr : Q.


Lemma queries_app (t1 t2 : list Effect) :
  queries (t1 ++ t2) = (queries t1 ++ queries t2)%list.
Proof.
  induction t1 as [|[sel|c|ev] t1 IH]; cbn; congruence.
Qed.

Lemma queries_Scored (elements : list HTMLElement) :
  queries (map Scored elements) = [].
Proof. induction elements; cbn; auto. Qed.

Lemma findBestMatch_effects (elements : list HTMLElement)
    (target : ElementAttributes) :
  snd (findBestMatch sqrt elements target) = map Scored elements.
Proof. unfold findBestMatch. apply findBestMatch_loop_effects. Qed.

(** A turn of the loop sends one query, its own selector. *)
Lemma try_locator_queries (fp : ElementFingerprint) (l : LocatorStrategy) :
  queries (snd (try_locator sqrt doc thr fp l)) = [l_value l].
Proof.
  unfold ElementMatcher.try_locator, bind, querySelectorAll.
  destruct (doc (l_value l)) as [[|e [|e' es]]|]; cbn [ret snd];
    try reflexivity.
  pose proof (findBestMatch_effects (e :: e' :: es) (attributes fp)) as E.
  destruct (findBestMatch _ _ _) as [best t]. cbn [snd] in E. subst t.
  destruct (Qgeb _ _); cbn [ret snd app queries];
    rewrite queries_app, queries_Scored; reflexivity.
Qed.

(** A strategy that is not usable does not return. *)
Lemma try_locator_unusable (fp : ElementFingerprint) (l : LocatorStrategy) :
  usable doc l = false -> fst (try_locator sqrt doc thr fp l) = None.
Proof.
  unfold usable, ElementMatcher.try_locator, bind, querySelectorAll.
  destruct (doc (l_value l)) as [[|e es]|]; [reflexivity|discriminate|
                                                  reflexivity].
Qed.

(** The element a turn returns is one its query matched. *)
Lemma try_locator_element (fp : ElementFingerprint) (l : LocatorStrategy)
    (r : MatchResult) (e : HTMLElement) :
  fst (try_locator sqrt doc thr fp l) = Some r ->
  element r = Some e ->
  locator r = Some l
  /\ exists es, doc (l_value l) = Matches es /\ In e es.
Proof.
  unfold ElementMatcher.try_locator, bind, querySelectorAll.
  destruct (doc (l_value l)) as [[|e0 [|e1 es]]|] eqn:Hq;
    cbn [ret fst]; try discriminate.
  - intros H He. injection H as <-. cbn in He. injection He as <-.
    split; [reflexivity|]. exists [e0]. split; [reflexivity|left; reflexivity].
  - pose proof (findBestMatch_first_best sqrt (e0 :: e1 :: es)
                      (attributes fp))
      as (_ & _ & Hbest).
    destruct (findBestMatch _ _ _) as [best t]. cbn [fst] in *.
    destruct (Qgeb _ _); cbn [ret fst]; [|discriminate].
    intros H He. injection H as <-. cbn [element] in He. rewrite He in Hbest.
    destruct Hbest as (b & a & E & _).
    split; [reflexivity|]. exists (e0 :: e1 :: es). split; [reflexivity|].
    rewrite E. apply in_or_app. right. left. reflexivity.
Qed.

Lemma findBySimilarity_queries (attrs : ElementAttributes) :
  queries (snd (findBySimilarity sqrt doc attrs))
  = if JS.truthy (tagName attrs) then [JS.or_empty (tagName attrs)] else [].
Proof.
  unfold ElementMatcher.findBySimilarity, bind, querySelectorAll.
  destruct (JS.truthy (tagName attrs)); cbn [negb ret snd]; [|reflexivity].
  destruct (doc _) as [candidates|]; cbn [ret snd]; [|reflexivity].
  pose proof (findBestMatch_effects candidates attrs) as E.
  destruct (findBestMatch _ _ _) as [best t]. cbn [snd] in *. subst t.
  cbn [app queries]. rewrite app_nil_r, queries_Scored. reflexivity.
Qed.

Lemma findBySimilarity_element (attrs : ElementAttributes) (r : MatchResult)
    (e : HTMLElement) :
  fst (findBySimilarity sqrt doc attrs) = Normal r ->
  element r = Some e ->
  JS.truthy (tagName attrs) = true
  /\ exists es, doc (JS.or_empty (tagName attrs)) = Matches es
                /\ In e es.
Proof.
  unfold ElementMatcher.findBySimilarity, bind, querySelectorAll.
  destruct (JS.truthy (tagName attrs)); cbn [negb ret fst].
  - destruct (doc _) as [candidates|] eqn:Hq; cbn [ret fst];
      [|discriminate].
    pose proof (findBestMatch_first_best sqrt candidates attrs)
      as (_ & _ & Hbest).
    destruct (findBestMatch _ _ _) as [best t]. cbn [fst] in *.
    intros H He. injection H as <-. cbn [element] in He. rewrite He in Hbest.
    destruct Hbest as (b & a & E & _).
    split; [reflexivity|]. exists candidates. split; [reflexivity|].
    rewrite E. apply in_or_app. right. left. reflexivity.
  - intros H He. injection H as <-. discriminate He.
Qed.

(** The loop either returns at some strategy, having queried the strategies
    up to it, or reaches the similarity scan, having queried them all. *)
Lemma findElement_loop_queries (fp : ElementFingerprint)
    (locators : list LocatorStrategy) :
  (exists tried l rest r,
     locators = (tried ++ l :: rest)%list
     /\ fst (findElement_loop sqrt doc thr fp locators) = Normal r
     /\ fst (try_locator sqrt doc thr fp l) = Some r
     /\ queries (snd (findElement_loop sqrt doc thr fp locators))
        = map l_value (tried ++ [l])%list)
  \/ (fst (findElement_loop sqrt doc thr fp locators)
      = fst (findBySimilarity sqrt doc (attributes fp))
      /\ queries (snd (findElement_loop sqrt doc thr fp locators))
         = (map l_value locators
            ++ queries (snd (findBySimilarity sqrt doc (attributes fp))))%list).
Proof.
  induction locators as [|l rest IH].
  - right. split; reflexivity.
  - rewrite findElement_loop_cons.
    pose proof (try_locator_queries fp l) as Q.
    destruct (fst (try_locator sqrt doc thr fp l)) as [r|] eqn:T.
    + left. exists [], l, rest, r. repeat split; [exact T|exact Q].
    + cbn [fst snd]. rewrite queries_app, Q.
      destruct IH as [(tried & l' & rest' & r & -> & H1 & H2 & H3)|[H1 H2]].
      * left. exists (l :: tried), l', rest', r.
        repeat split; try assumption. rewrite H3. reflexivity.
      * right. split; [exact H1|]. rewrite H2. reflexivity.
Qed.

Lemma findElement_loop_usable (fp : ElementFingerprint)
    (locators : list LocatorStrategy) :
  fst (findElement_loop sqrt doc thr fp locators)
  = fst (findElement_loop sqrt doc thr fp (filter (usable doc) locators)).
Proof.
  induction locators as [|l rest IH]; [reflexivity|].
  cbn [filter]. destruct (usable doc l) eqn:U.
  - rewrite !findElement_loop_cons.
    destruct (fst (try_locator sqrt doc thr fp l)); [reflexivity|].
    cbn [fst]. exact IH.
  - rewrite findElement_loop_cons, (try_locator_unusable fp l U).
    cbn [fst]. exact IH.
Qed.

Lemma findElement_loop_attributes (fp fp' : ElementFingerprint)
    (locators : list LocatorStrategy) :
  attributes fp = attributes fp' ->
  findElement_loop sqrt doc thr fp locators
  = findElement_loop sqrt doc thr fp' locators.
Proof.
  intro H.
  induction locators as [|l rest IH]; cbn [ElementMatcher.findElement_loop].
  - rewrite H. reflexivity.
  - unfold ElementMatcher.try_locator. rewrite H, IH. reflexivity.
Qed.

End MatcherQueries.

(** ** The threshold gate *)

Section ThresholdGate.
Import ElementMatcher MatcherSpec.

Variable sqrt : Q -> Q.
Variable doc : Document.
Variable thr : Q.

(** A turn of the loop that does not return is a strategy that failed. *)
Lemma try_locator_failed (fp : ElementFingerprint) (l : LocatorStrategy) :
  fst (try_locator sqrt doc thr fp l) = None ->
  strategy_failed sqrt doc thr fp l.
Proof.
  unfold ElementMatcher.try_locator, bind, querySelectorAll, strategy_failed.
  destruct (doc (l_value l)) as [[|e0 [|e1 es]]|]; cbn [ret fst];
    try discriminate; try (intros _; exact I).
  pose proof (findBestMatch_first_best sqrt (e0 :: e1 :: es) (attributes fp))
    as (_ & Hmax & _).
  destruct (findBestMatch _ _ _) as [best t]. cbn [fst] in *.
  destruct (Qgeb (bm_confidence best) thr) eqn:G; cbn [ret fst];
    [discriminate|].
  intros _ c Hc. unfold Qgeb in G.
  apply Qle_lt_trans with (y := bm_confidence best); [apply Hmax, Hc|].
  apply Qnot_le_lt. intro L. apply Qle_bool_iff in L. congruence.
Qed.

(** The loop returns at a strategy, or every strategy failed and the
    similarity scan gave the result. *)
Lemma findElement_loop_all_failed (fp : ElementFingerprint)
    (locators : list LocatorStrategy) (r : MatchResult) :
  fst (findElement_loop sqrt doc thr fp locators) = Normal r ->
  (exists l, In l locators /\ fst (try_locator sqrt doc thr fp l) = Some r)
  \/ ((forall l, In l locators -> strategy_failed sqrt doc thr fp l)
      /\ fst (findBySimilarity sqrt doc (attributes fp)) = Normal r).
Proof.
  induction locators as [|l rest IH].
  - intro H. right. split; [intros l []|exact H].
  - rewrite findElement_loop_cons.
    destruct (fst (try_locator sqrt doc thr fp l)) as [r'|] eqn:T;
      cbn [fst].
    + intro H. injection H as <-. left. exists l.
      split; [left; reflexivity|exact T].
    + intro H. destruct (IH H) as [(l' & Hin & Hl')|[Hall Hs]].
      * left. exists l'. split; [right; exact Hin|exact Hl'].
      * right. split; [|exact Hs].
        intros l' [<-|Hin]; [apply try_locator_failed, T|apply Hall, Hin].
Qed.

(** What the similarity scan returns when it returns an element. *)
Lemma findBySimilarity_best (attrs : ElementAttributes) (r : MatchResult) :
  fst (findBySimilarity sqrt doc attrs) = Normal r ->
  element r <> None ->
  exists tag candidates e,
    tagName attrs = Some tag
    /\ doc tag = Matches candidates
    /\ In e candidates
    /\ element r = Some e
    /\ confidence r = calculateSimilarityScore sqrt e attrs
    /\ (forall c, In c candidates ->
          (calculateSimilarityScore sqrt c attrs <= confidence r)%Q)
    /\ matchedBy r = BySimilarity
    /\ locator r = None.
Proof.
  unfold ElementMatcher.findBySimilarity, bind, querySelectorAll.
  destruct (tagName attrs) as [tag|]; cbn [JS.truthy JS.or_empty].
  2:{ cbn [negb ret fst]. intros H He. injection H as <-.
      exfalso. apply He. reflexivity. }
  destruct (negb (negb (JS.is_empty tag))); cbn [ret fst].
  { intros H He. injection H as <-. exfalso. apply He. reflexivity. }
  destruct (doc tag) as [candidates|] eqn:Hq; cbn [ret fst]; [|discriminate].
  pose proof (findBestMatch_first_best sqrt candidates attrs)
    as (_ & Hmax & Hbest).
  destruct (findBestMatch _ _ _) as [best t]. cbn [fst] in *.
  intros H He. injection H as <-.
  cbn [element confidence matchedBy locator] in *.
  destruct (bm_element best) as [e|]; [|exfalso; apply He; reflexivity].
  destruct Hbest as (b & a & E & Hc & _).
  exists tag, candidates, e. repeat split; try assumption.
  rewrite E. apply in_or_app. right. left. reflexivity.
Qed.

End ThresholdGate.

(** C2, in the form the code satisfies.
    A result of [findElement] that holds an element and a confidence
    strictly below the threshold was accepted through the uniqueness
    short-circuit, or it is the result of the last-resort similarity scan:
    every strategy of the fingerprint failed, and the result is the
    best-scoring element of the fingerprint's tag name, whatever its score,
    attributed to ['similarity'] and without a locator. *)
Theorem findElement_threshold_gate (Math_sqrt : Q -> Q) (document : Document)
    (confidenceThreshold : Q) (fp : ElementFingerprint) :
  MatcherSpec.threshold_gate Math_sqrt document confidenceThreshold
    (fun r =>
       MatcherSpec.short_circuit document fp r
       \/ MatcherSpec.last_resort_scan Math_sqrt document confidenceThreshold
            fp r)
    fp.
Proof.
  intros r effects H He Hlow.
  assert (F : fst (ElementMatcher.findElement_loop Math_sqrt document
                     confidenceThreshold fp (alternativeLocators fp))
              = Normal r).
  { unfold ElementMatcher.findElement in H. rewrite H. reflexivity. }
  destruct (findElement_loop_all_failed _ _ _ _ _ _ F)
    as [(l & Hin & Hl)|[Hall Hs]].
  - destruct (try_locator_returns _ _ _ _ _ _ Hl) as [(e & Hq & ->)|[G _]].
    + left. exists l, e. repeat split; assumption.
    + unfold ElementMatcher.Qgeb in G. apply Qle_bool_iff in G.
      exfalso. apply (Qlt_not_le _ _ Hlow). exact G.
  - right. split; [exact Hall|].
    apply (findBySimilarity_best _ _ _ _ Hs He).
Qed.

Lemma findElement_threshold_gate_witness :
  let r := {| ElementMatcher.element := Some Scenarios.search_input;
              ElementMatcher.locator := None;
              ElementMatcher.confidence := 50000000000000 # 500000000000000;
              ElementMatcher.matchedBy := BySimilarity |} in
  fst (ElementMatcher.findElement Samples.sqrt_Q Scenarios.search_page
         (6 # 10) Scenarios.username_fingerprint) = Normal r
  /\ (MatcherSpec.short_circuit Scenarios.search_page
        Scenarios.username_fingerprint r
      \/ MatcherSpec.last_resort_scan Samples.sqrt_Q Scenarios.search_page
           (6 # 10) Scenarios.username_fingerprint r).
Proof.
  intro r. split; [vm_compute; reflexivity|].
  apply (findElement_threshold_gate Samples.sqrt_Q Scenarios.search_page
           (6 # 10) Scenarios.username_fingerprint r
           (snd (ElementMatcher.findElement Samples.sqrt_Q
                   Scenarios.search_page (6 # 10)
                   Scenarios.username_fingerprint))).
  - vm_compute. reflexivity.
  - discriminate.
  - reflexivity.
Defined.

(** X11. The matcher queries the strategies of the fingerprint in their
    stored order and stops at the first that returns; only when none
    returned does it go on to the similarity scan, which sends one more
    query, the tag name, or none when the fingerprint has no tag name.
    Nothing else is ever queried. *)
Theorem findElement_queries (Math_sqrt : Q -> Q) (document : Document)
    (confidenceThreshold : Q) (fp : ElementFingerprint) :
  let run := ElementMatcher.findElement Math_sqrt document
               confidenceThreshold fp in
  (exists tried l rest r,
     alternativeLocators fp = (tried ++ l :: rest)%list
     /\ fst run = Normal r
     /\ ElementMatcher.locator r = Some l
     /\ QuerySpec.queries (snd run) = map l_value (tried ++ [l])%list)
  \/ (QuerySpec.queries (snd run)
      = (map l_value (alternativeLocators fp)
         ++ (if JS.truthy (tagName (attributes fp))
             then [JS.or_empty (tagName (attributes fp))] else []))%list
      /\ forall r, fst run = Normal r ->
           ElementMatcher.matchedBy r = BySimilarity).
Proof.
  cbv zeta. unfold ElementMatcher.findElement.
  destruct (findElement_loop_queries Math_sqrt document confidenceThreshold
              fp (alternativeLocators fp))
    as [(tried & l & rest & r & E & H1 & H2 & H3)|[H1 H2]].
  - left. exists tried, l, rest, r. repeat split; try assumption.
    destruct (try_locator_returns _ _ _ _ _ _ H2) as [(e & _ & ->)|_];
      [reflexivity|].
    clear -H2.
    unfold ElementMatcher.try_locator, bind, ElementMatcher.querySelectorAll
      in H2.
    destruct (document (l_value l)) as [[|e0 [|e1 es]]|]; cbn [ret fst] in H2;
      try discriminate.
    + injection H2 as <-. reflexivity.
    + destruct (ElementMatcher.findBestMatch _ _ _) as [best t].
      destruct (ElementMatcher.Qgeb _ _); cbn [ret fst] in H2;
        [|discriminate].
      injection H2 as <-. reflexivity.
  - right. split.
    + rewrite H2, findBySimilarity_queries. reflexivity.
    + intros r Hr. rewrite H1 in Hr.
      apply (findBySimilarity_fallback _ _ _ _ Hr).
Qed.

(** X12. A strategy whose selector does not parse, or matches nothing, is
    skipped without a trace in the result: the matcher returns what it
    returns for the fingerprint without those strategies. *)
Theorem findElement_skips_unusable (Math_sqrt : Q -> Q) (document : Document)
    (confidenceThreshold : Q) (fp : ElementFingerprint) :
  fst (ElementMatcher.findElement Math_sqrt document confidenceThreshold fp)
  = fst (ElementMatcher.findElement Math_sqrt document confidenceThreshold
           (QuerySpec.with_locators fp
              (filter (QuerySpec.usable document) (alternativeLocators fp)))).
Proof.
  unfold ElementMatcher.findElement.
  cbn [QuerySpec.with_locators alternativeLocators].
  rewrite findElement_loop_usable.
  rewrite (findElement_loop_attributes Math_sqrt document confidenceThreshold
             fp (QuerySpec.with_locators fp
                   (filter (QuerySpec.usable document)
                           (alternativeLocators fp))));
    reflexivity.
Qed.

(** X13. The matcher never makes up an element: the element of a result is
    one of the elements the document returned for a selector that the
    matcher queried, a strategy of the fingerprint or its tag name. *)
Theorem findElement_element_from_document (Math_sqrt : Q -> Q)
    (document : Document) (confidenceThreshold : Q)
    (fp : ElementFingerprint) (r : ElementMatcher.MatchResult)
    (effects : list Effect) (e : HTMLElement) :
  ElementMatcher.findElement Math_sqrt document confidenceThreshold fp
  = (Normal r, effects) ->
  ElementMatcher.element r = Some e ->
  exists selector es,
    document selector = Matches es
    /\ In e es
    /\ In selector (QuerySpec.queries effects)
    /\ (In selector (map l_value (alternativeLocators fp))
        \/ tagName (attributes fp) = Some selector).
Proof.
  intros H He. unfold ElementMatcher.findElement in H.
  destruct (findElement_loop_queries Math_sqrt document confidenceThreshold
              fp (alternativeLocators fp))
    as [(tried & l & rest & r' & E & H1 & H2 & H3)|[H1 H2]];
    rewrite H in *; cbn [fst snd] in *.
  - injection H1 as <-.
    destruct (try_locator_element _ _ _ _ _ _ _ H2 He) as (_ & es & Hq & Hin).
    exists (l_value l), es. repeat split; try assumption.
    + rewrite H3, map_app. apply in_or_app. right. left. reflexivity.
    + left. rewrite E, map_app. apply in_or_app. right. left. reflexivity.
  - symmetry in H1.
    destruct (findBySimilarity_element _ _ _ _ _ H1 He)
      as (Ht & es & Hq & Hin).
    exists (JS.or_empty (tagName (attributes fp))), es.
    repeat split; try assumption.
    + rewrite H2, findBySimilarity_queries, Ht. apply in_or_app. right.
      left. reflexivity.
    + right. destruct (tagName (attributes fp)); [reflexivity|discriminate].
Qed.

Lemma findElement_queries_witness :
  List.length
    (QuerySpec.queries
       (snd (ElementMatcher.findElement Samples.sqrt_Q Scenarios.renamed_page
               (6 # 10) Scenarios.username_fingerprint)))
  <= S (List.length (alternativeLocators Scenarios.username_fingerprint)).
Proof.
  destruct (findElement_queries Samples.sqrt_Q Scenarios.renamed_page
              (6 # 10) Scenarios.username_fingerprint)
    as [(tried & l & rest & r & E & _ & _ & ->)|[-> _]].
  - rewrite E, length_map, !length_app. cbn [List.length]. lia.
  - rewrite length_app, length_map.
    destruct (JS.truthy _); cbn [List.length]; lia.
Defined.

Lemma findElement_element_from_document_witness :
  exists selector es,
    Scenarios.renamed_page selector = Matches es
    /\ In Scenarios.username_renamed es
    /\ In selector
         (QuerySpec.queries
            (snd (ElementMatcher.findElement Samples.sqrt_Q
                    Scenarios.renamed_page (6 # 10)
                    Scenarios.username_fingerprint)))
    /\ (In selector
          (map l_value (alternativeLocators Scenarios.username_fingerprint))
        \/ tagName (attributes Scenarios.username_fingerprint)
           = Some selector).
Proof.
  apply (findElement_element_from_document Samples.sqrt_Q
           Scenarios.renamed_page (6 # 10) Scenarios.username_fingerprint
           {| ElementMatcher.element := Some Scenarios.username_renamed;
              ElementMatcher.locator :=
                Some {| l_type := LT_name;
                        l_value := Scenarios.name_selector "username";
                        l_priority := 5; l_confidence := 8 # 10 |};
              ElementMatcher.confidence := 8 # 10;
              ElementMatcher.matchedBy := ByLocator LT_name |}).
  - vm_compute. reflexivity.
  - reflexivity.
Defined.

(** ** The table of the strategies *)

Section TableFacts.
Import Fingerprint TableSpec.

Lemma StronglySorted_snoc {A} (R : A -> A -> Prop) (l : list A) (x : A) :
  StronglySorted R l -> Forall (fun y => R y x) l ->
  StronglySorted R (l ++ [x]).
Proof.
  induction 1 as [|a l Hl IH Ha]; intro Hx; cbn.
  - repeat constructor.
  - inversion Hx; subst. constructor; [apply IH; assumption|].
    apply Forall_app. split; [exact Ha|]. repeat constructor. assumption.
Qed.

Lemma built_push_if (p : Z) (c : bool) (loc : LocatorStrategy)
    (l : list LocatorStrategy) :
  built p l ->
  l_priority loc = p ->
  (c = true -> by_the_table loc) ->
  built (p + 1) (push_if c loc l).
Proof.
  intros (Hs & Hp & Ht & Hl) Hprio Hloc. unfold push_if, JS.push.
  destruct c.
  - repeat split.
    + apply StronglySorted_snoc; [exact Hs|].
      eapply Forall_impl; [|exact Hp]. unfold priority_lt. intros; lia.
    + apply Forall_app. split.
      * eapply Forall_impl; [|exact Hp]. intros; cbn in *; lia.
      * repeat constructor. lia.
    + apply Forall_app. split; [exact Ht|]. repeat constructor; apply Hloc;
        reflexivity.
    + rewrite length_app. cbn [List.length]. lia.
  - repeat split; try assumption.
    + eapply Forall_impl; [|exact Hp]. intros; cbn in *; lia.
    + lia.
Qed.

Lemma sort_by_priority_sorted_id (l : list LocatorStrategy) :
  StronglySorted priority_lt l -> sort_by_priority l = l.
Proof.
  induction 1 as [|a l Hl IH Ha]; cbn [sort_by_priority]; [reflexivity|].
  rewrite IH. destruct l as [|b l]; [reflexivity|].
  cbn [insert_by_priority]. inversion Ha as [|? ? Hab _]; subst.
  unfold priority_lt in Hab.
  destruct (l_priority a - l_priority b <=? 0)%Z eqn:E; [reflexivity|].
  apply Z.leb_gt in E. lia.
Qed.

Lemma generateTextLocator_value (tag txt : string) :
  generateTextLocator tag txt
  = Some (tag ++ ":contains(" ++ q ++ JS.escape_quotes txt ++ q ++ ")").
Proof.
  unfold generateTextLocator.
  destruct (String.eqb tag "button") eqn:E1;
    [apply String.eqb_eq in E1; subst; reflexivity|].
  destruct (String.eqb tag "a") eqn:E2;
    [apply String.eqb_eq in E2; subst; reflexivity|].
  destruct (String.eqb tag "label") eqn:E3;
    [apply String.eqb_eq in E3; subst; reflexivity|].
  reflexivity.
Qed.

Lemma truthy_nonempty (o : option string) :
  JS.truthy o = true -> JS.or_empty o <> EmptyString.
Proof. destruct o as [[|c s]|]; cbn; congruence. Qed.

Lemma built_weaken (p : Z) (l : list LocatorStrategy) :
  built p l -> built (p + 1) l.
Proof.
  intros (Hs & Hp & Ht & Hl). repeat split; try assumption; [|lia].
  eapply Forall_impl; [|exact Hp]. intros; cbn in *; lia.
Qed.

Ltac table_row p S2 :=
  apply (built_push_if p);
  [|reflexivity
   |let C := fresh "C" in
    intro C; repeat split; try (apply S2; exact C); cbn; auto].

(** The pushes of the source, before the final sort. *)
Lemma generated_built (element : HTMLElement) (attrs : ElementAttributes) :
  exists l,
    generateAlternativeLocators element attrs = sort_by_priority l
    /\ built 11 l.
Proof.
  eexists. split; [unfold generateAlternativeLocators; cbv zeta; reflexivity|].
  assert (S1 : forall (c : ascii) a, (String c a)%string <> EmptyString)
    by discriminate.
  assert (S2 : forall o, JS.truthy o = true ->
                 (JS.or_empty o)%string <> EmptyString)
    by apply truthy_nonempty.
  table_row 10%Z S2.
  table_row 9%Z S2.
  match goal with |- built _ (if ?c then _ else _) => destruct c end;
    [table_row 8%Z S2
    |apply (built_weaken 8)].
  all: table_row 7%Z S2.
  all: table_row 6%Z S2.
  all: table_row 5%Z S2.
  all: table_row 4%Z S2.
  all: table_row 3%Z S2.
  all: table_row 2%Z S2.
  all: table_row 1%Z S2.
  all: repeat split; try constructor; try lia.
Qed.

End TableFacts.

(** X14. The locators synthesized from any attributes follow a fixed table:
    the priority and the confidence of each are those of its kind, its
    selector is not empty, the priorities are strictly ascending, so that no
    kind comes twice, and there are at most ten of them.  The final sort
    moves nothing. *)
Theorem generateAlternativeLocators_table (element : HTMLElement)
    (attrs : ElementAttributes) :
  let locators := Fingerprint.generateAlternativeLocators element attrs in
  Forall TableSpec.by_the_table locators
  /\ StronglySorted TableSpec.priority_lt locators
  /\ NoDup (map l_type locators)
  /\ List.length locators <= 10.
Proof.
  cbv zeta.
  destruct (generated_built element attrs) as (l & -> & Hs & Hp & Ht & Hl).
  rewrite sort_by_priority_sorted_id by exact Hs.
  repeat split; try assumption; [|lia].
  clear Hp Hl. induction Hs as [|a l Hs IH Ha]; cbn [map]; [constructor|].
  inversion Ht as [|? ? Hta Htl]; subst.
  constructor; [|apply IH, Htl].
  intro Hin. apply in_map_iff in Hin. destruct Hin as (b & Eb & Hb).
  rewrite Forall_forall in Ha, Htl.
  specialize (Ha b Hb). unfold TableSpec.priority_lt in Ha.
  destruct Hta as (Pa & _). destruct (Htl b Hb) as (Pb & _).
  rewrite Pa, Pb, Eb in Ha. lia.
Qed.

(** X15. For every tag name the text locator is
    [tag:contains("...")] around the text with a backslash put before each
    double quote, so that the quoted text is longer by the number of its
    double quotes and has no double quote that does not follow a
    backslash; backslashes of the text itself are left as they are. *)
Theorem generateTextLocator_quoting (tag txt : string) :
  Fingerprint.generateTextLocator tag txt
  = Some (tag ++ ":contains(" ++ Fingerprint.q ++ JS.escape_quotes txt
          ++ Fingerprint.q ++ ")")
  /\ TableSpec.quotes_escaped_from false (JS.escape_quotes txt) = true
  /\ String.length (JS.escape_quotes txt)
     = String.length txt + TableSpec.count_quotes txt.
Proof.
  split; [apply generateTextLocator_value|]. split.
  - generalize false. induction txt as [|c txt IH]; intro b; [reflexivity|].
    cbn [JS.escape_quotes]. destruct (Ascii.eqb c JS.dquote) eqn:E.
    + cbn [TableSpec.quotes_escaped_from].
      replace (Ascii.eqb JS.backslash JS.dquote) with false by reflexivity.
      replace (Ascii.eqb JS.backslash JS.backslash) with true by reflexivity.
      replace (Ascii.eqb JS.dquote JS.dquote) with true by reflexivity.
      cbn [andb]. apply IH.
    + cbn [TableSpec.quotes_escaped_from]. rewrite E. cbn [andb]. apply IH.
  - induction txt as [|c txt IH]; [reflexivity|].
    cbn [JS.escape_quotes TableSpec.count_quotes].
    destruct (Ascii.eqb c JS.dquote); cbn [String.length]; rewrite IH; lia.
Qed.

(** ** The methods of the store *)

Section StoreMethods.
Import EngineSpec StoreSpec.

Lemma set_same_value {V} (k : string) (v : V) (m : Map_.t V) :
  Map_.get k m = Some v -> Map_.set k v m = m.
Proof.
  induction m as [|[k' v'] m IH]; cbn; [discriminate|].
  destruct (String.eqb k k') eqn:E.
  - apply String.eqb_eq in E. subst k'. intro H. injection H as ->.
    reflexivity.
  - intro H. rewrite IH by exact H. reflexivity.
Qed.

Lemma values_set_length {V} (k : string) (v : V) (m : Map_.t V) :
  List.length (Map_.values (Map_.set k v m))
  = if Map_.has k m then List.length (Map_.values m)
    else S (List.length (Map_.values m)).
Proof.
  unfold Map_.has, Map_.values.
  induction m as [|[k' v'] m IH]; cbn; [reflexivity|].
  destruct (String.eqb k k') eqn:E; cbn; [reflexivity|].
  rewrite IH. destruct (Map_.get k m); reflexivity.
Qed.

Lemma import_loop_heap (fps : list Heap.addr) (st : LocatorStore.State) :
  fst (LocatorStore.import_loop fps st) = fst st
  /\ LocatorStore.healingEvents (snd (LocatorStore.import_loop fps st))
     = LocatorStore.healingEvents (snd st).
Proof.
  revert st. induction fps as [|r fps IH]; intro st; [split; reflexivity|].
  cbn [LocatorStore.import_loop].
  destruct (IH (LocatorStore.saveFingerprint r st))
    as [-> ->].
  destruct st as [h s]. unfold LocatorStore.saveFingerprint.
  destruct (Heap.deref h r); split; reflexivity.
Qed.

Lemma saveFingerprint_get_any (r : Heap.addr) (st : LocatorStore.State)
    (n : string) :
  LocatorStore.getFingerprint n (LocatorStore.saveFingerprint r st)
  = match Heap.deref (fst st) r with
    | Some fp =>
        if String.eqb (fp_name fp) n then Some r
        else LocatorStore.getFingerprint n st
    | None => LocatorStore.getFingerprint n st
    end.
Proof.
  destruct st as [h s]. unfold LocatorStore.saveFingerprint,
    LocatorStore.getFingerprint. cbn [fst snd].
  destruct (Heap.deref h r) as [fp|]; [|reflexivity].
  cbn [snd LocatorStore.fingerprints].
  destruct (String.eqb (fp_name fp) n) eqn:E.
  - apply String.eqb_eq in E. subst n. apply get_set_same.
  - apply String.eqb_neq in E. apply get_set_other, E.
Qed.

Lemma import_loop_get (fps : list Heap.addr) (st : LocatorStore.State)
    (n : string) :
  LocatorStore.getFingerprint n (LocatorStore.import_loop fps st)
  = match last_named (fst st) n fps with
    | Some r => Some r
    | None => LocatorStore.getFingerprint n st
    end.
Proof.
  revert st. induction fps as [|r fps IH]; intro st; [reflexivity|].
  cbn [LocatorStore.import_loop last_named]. rewrite IH.
  assert (Hh : fst (LocatorStore.saveFingerprint r st) = fst st).
  { destruct st as [h s]. unfold LocatorStore.saveFingerprint.
    destruct (Heap.deref h r); reflexivity. }
  rewrite Hh. destruct (last_named (fst st) n fps); [reflexivity|].
  rewrite saveFingerprint_get_any.
  destruct (Heap.deref (fst st) r) as [fp|]; [|reflexivity].
  destruct (String.eqb (fp_name fp) n); reflexivity.
Qed.

End StoreMethods.

(** X16. Saving a fingerprint makes it the one found under its name,
    whatever was stored there before; the fingerprints under other names,
    the event log and the objects are untouched, and the number of stored
    fingerprints grows by one only if the name was new. *)
Theorem saveFingerprint_get (r : Heap.addr) (st : LocatorStore.State)
    (fp : ElementFingerprint) :
  Heap.deref (fst st) r = Some fp ->
  let st' := LocatorStore.saveFingerprint r st in
  LocatorStore.getFingerprint (fp_name fp) st' = Some r
  /\ LocatorStore.hasFingerprint (fp_name fp) st' = true
  /\ (forall n, n <> fp_name fp ->
        LocatorStore.getFingerprint n st' = LocatorStore.getFingerprint n st)
  /\ LocatorStore.getHealingEvents st' = LocatorStore.getHealingEvents st
  /\ fst st' = fst st
  /\ List.length (LocatorStore.getAllFingerprints st')
     = if LocatorStore.hasFingerprint (fp_name fp) st
       then List.length (LocatorStore.getAllFingerprints st)
       else S (List.length (LocatorStore.getAllFingerprints st)).
Proof.
  intros D st'.
  assert (G : forall n, LocatorStore.getFingerprint n st'
                = if String.eqb (fp_name fp) n then Some r
                  else LocatorStore.getFingerprint n st).
  { intro n. unfold st'. rewrite saveFingerprint_get_any, D. reflexivity. }
  split; [rewrite G, String.eqb_refl; reflexivity|].
  split.
  { unfold LocatorStore.hasFingerprint, Map_.has.
    fold (LocatorStore.getFingerprint (fp_name fp) st').
    rewrite G, String.eqb_refl. reflexivity. }
  split.
  { intros n Hn. rewrite G. destruct (String.eqb (fp_name fp) n) eqn:E;
      [|reflexivity]. apply String.eqb_eq in E. congruence. }
  destruct st as [h s]. unfold st', LocatorStore.saveFingerprint.
  cbn [fst] in D. rewrite D.
  repeat split.
  unfold LocatorStore.getAllFingerprints, LocatorStore.hasFingerprint.
  cbn [snd LocatorStore.fingerprints]. apply values_set_length.
Qed.

Lemma saveFingerprint_get_witness :
  LocatorStore.getFingerprint "usernameInput"
    (LocatorStore.saveFingerprint 0
       (SelfHealingEngine.store_state Runs.registered))
  = Some 0.
Proof.
  pose proof (saveFingerprint_get 0
                (SelfHealingEngine.store_state Runs.registered)) as H.
  destruct (Heap.deref (fst (SelfHealingEngine.store_state Runs.registered)) 0)
    as [fp|] eqn:D; [|discriminate D].
  specialize (H fp eq_refl). cbv zeta in H. destruct H as [H _].
  injection D as <-. exact H.
Defined.

(** X17. Recording a healing event appends it to the log and adds exactly 1
    to the heal count of the fingerprint stored under the event's element
    name, changing nothing else of it; the map and the fingerprints stored
    under other names are as before.  With no such fingerprint only the log
    changes. *)
Theorem recordHealingEvent_effect (event : HealingEvent)
    (st : LocatorStore.State) :
  EngineSpec.wf_state st ->
  let st' := LocatorStore.recordHealingEvent event st in
  LocatorStore.getHealingEvents st'
  = (LocatorStore.getHealingEvents st ++ [event])%list
  /\ LocatorStore.fingerprints (snd st') = LocatorStore.fingerprints (snd st)
  /\ LocatorStore.stored (elementName event) st'
     = option_map StoreSpec.healed_once
         (LocatorStore.stored (elementName event) st)
  /\ forall n, n <> elementName event ->
       LocatorStore.stored n st' = LocatorStore.stored n st.
Proof.
  intros Hwf st'. destruct st as [h s].
  unfold st', LocatorStore.recordHealingEvent, LocatorStore.stored,
    LocatorStore.getFingerprint, LocatorStore.getHealingEvents.
  cbn [fst snd].
  destruct (Map_.get (elementName event) (LocatorStore.fingerprints s))
    as [r|] eqn:G.
  - cbn [fst snd LocatorStore.fingerprints LocatorStore.healingEvents].
    rewrite (set_same_value _ _ _ G), G.
    repeat split.
    + rewrite deref_update_same. reflexivity.
    + intros n Hn.
      destruct (Map_.get n (LocatorStore.fingerprints s)) as [r'|] eqn:G';
        [|reflexivity].
      apply deref_update_other. intros ->.
      destruct (wf_state_get (h, s) _ _ Hwf G) as (fp & D & N).
      destruct (wf_state_get (h, s) _ _ Hwf G') as (fp' & D' & N').
      congruence.
  - cbn [fst snd LocatorStore.fingerprints LocatorStore.healingEvents].
    rewrite G. repeat split.
Qed.

Lemma recordHealingEvent_effect_witness :
  option_map healCount
    (LocatorStore.stored "usernameInput"
       (LocatorStore.recordHealingEvent
          {| ev_timestamp := 0; elementName := "usernameInput";
             originalLocator := "#username";
             healedLocator := "similarity-based";
             strategy := BySimilarity; ev_confidence := (7 # 10)%Q;
             testFile := EmptyString; testName := EmptyString |}
          (SelfHealingEngine.store_state Runs.registered)))
  = Some 1%Z.
Proof.
  pose proof (recordHealingEvent_effect
                {| ev_timestamp := 0; elementName := "usernameInput";
                   originalLocator := "#username";
                   healedLocator := "similarity-based";
                   strategy := BySimilarity; ev_confidence := (7 # 10)%Q;
                   testFile := EmptyString; testName := EmptyString |}
                (SelfHealingEngine.store_state Runs.registered)
                registered_wf) as H.
  cbv zeta in H. destruct H as (_ & _ & H & _).
  cbn [elementName] in H. rewrite H. reflexivity.
Defined.

(** X18. Importing a snapshot merges its fingerprints into the store and
    replaces the event log: under each name the store then holds the last
    fingerprint of that name in the snapshot, or, when the snapshot has
    none, what it held before; the events are those of the snapshot, those
    logged before are dropped. *)
Theorem import_merges (data : LocatorStore.Snapshot)
    (st : LocatorStore.State) (n : string) :
  LocatorStore.getFingerprint n (LocatorStore.import data st)
  = match StoreSpec.last_named (fst st) n
            (LocatorStore.snap_fingerprints data) with
    | Some r => Some r
    | None => LocatorStore.getFingerprint n st
    end
  /\ LocatorStore.getHealingEvents (LocatorStore.import data st)
     = LocatorStore.snap_healingEvents data
  /\ fst (LocatorStore.import data st) = fst st.
Proof.
  unfold LocatorStore.import.
  pose proof (import_loop_get (LocatorStore.snap_fingerprints data) st n) as G.
  pose proof (import_loop_heap (LocatorStore.snap_fingerprints data) st)
    as [Hh _].
  destruct (LocatorStore.import_loop _ st) as [h s].
  repeat split; assumption.
Qed.

(** ** The commands of the engine *)

Section EngineCommands.
Import SelfHealingEngine EngineSpec CommandSpec.

Variable sqrt : Q -> Q.
Variable doc : Document.
Variable cfg : SelfHealingConfig.
Variable clock : nat -> Z.

Lemma logged_app (t1 t2 : list Effect) :
  logged (t1 ++ t2) = (logged t1 ++ logged t2)%list.
Proof.
  induction t1 as [|[sel|c|ev] t1 IH]; cbn; congruence.
Qed.

Lemma logged_Scored (elements : list HTMLElement) :
  logged (map Scored elements) = [].
Proof. induction elements; cbn; auto. Qed.

Lemma try_locator_logged (thr : Q) (fp : ElementFingerprint)
    (l : LocatorStrategy) :
  logged (snd (ElementMatcher.try_locator sqrt doc thr fp l)) = [].
Proof.
  unfold ElementMatcher.try_locator, bind, ElementMatcher.querySelectorAll.
  destruct (doc (l_value l)) as [[|e [|e' es]]|]; cbn [ret snd];
    try reflexivity.
  pose proof (findBestMatch_effects sqrt (e :: e' :: es) (attributes fp)) as E.
  destruct (ElementMatcher.findBestMatch _ _ _) as [best t].
  cbn [snd] in E. subst t.
  destruct (ElementMatcher.Qgeb _ _); cbn [ret snd app logged];
    rewrite logged_app, logged_Scored; reflexivity.
Qed.

Lemma findBySimilarity_logged (attrs : ElementAttributes) :
  logged (snd (ElementMatcher.findBySimilarity sqrt doc attrs)) = [].
Proof.
  unfold ElementMatcher.findBySimilarity, bind, ElementMatcher.querySelectorAll.
  destruct (JS.truthy (tagName attrs)); cbn [negb ret snd]; [|reflexivity].
  destruct (doc _) as [candidates|]; cbn [ret snd]; [|reflexivity].
  pose proof (findBestMatch_effects sqrt candidates attrs) as E.
  destruct (ElementMatcher.findBestMatch _ _ _) as [best t].
  cbn [snd] in *. subst t.
  cbn [app logged]. rewrite app_nil_r, logged_Scored. reflexivity.
Qed.

Lemma findElement_loop_logged (thr : Q) (fp : ElementFingerprint)
    (locators : list LocatorStrategy) :
  logged (snd (ElementMatcher.findElement_loop sqrt doc thr fp locators)) = [].
Proof.
  induction locators as [|l rest IH].
  - apply findBySimilarity_logged.
  - rewrite findElement_loop_cons.
    pose proof (try_locator_logged thr fp l) as T.
    destruct (fst (ElementMatcher.try_locator sqrt doc thr fp l));
      cbn [snd]; [exact T|].
    rewrite logged_app, T, IH. reflexivity.
Qed.

(** The matcher logs no healing event. *)
Lemma matcher_logged (fp : ElementFingerprint) :
  logged (snd (matcher_findElement sqrt doc cfg fp)) = [].
Proof. apply findElement_loop_logged. Qed.

(** With no element, the best match has confidence 0. *)
Lemma findBestMatch_loop_none (elements : list HTMLElement)
    (target : ElementAttributes) (bestElement : option HTMLElement)
    (bestScore : Q) :
  (bestElement = None -> bestScore = 0%Q) ->
  ElementMatcher.bm_element
    (fst (ElementMatcher.findBestMatch_loop sqrt elements target bestElement
            bestScore)) = None ->
  ElementMatcher.bm_confidence
    (fst (ElementMatcher.findBestMatch_loop sqrt elements target bestElement
            bestScore)) = 0%Q.
Proof.
  revert bestElement bestScore.
  induction elements as [|e rest IH]; intros be bs Hb.
  - cbn. exact Hb.
  - cbn [ElementMatcher.findBestMatch_loop].
    unfold bind, ElementMatcher.score_of.
    destruct (ElementMatcher.Qltb bs _).
    + specialize (IH (Some e)
                     (ElementMatcher.calculateSimilarityScore sqrt e target)).
      destruct (ElementMatcher.findBestMatch_loop _ rest target _ _).
      cbn [fst] in *. apply IH. discriminate.
    + specialize (IH be bs Hb).
      destruct (ElementMatcher.findBestMatch_loop _ rest target _ _).
      cbn [fst] in *. exact IH.
Qed.

(** A result of the matcher without an element has confidence 0, or at
    least the threshold. *)
Lemma matcher_no_element (thr : Q) (fp : ElementFingerprint)
    (locators : list LocatorStrategy) (r : ElementMatcher.MatchResult) :
  fst (ElementMatcher.findElement_loop sqrt doc thr fp locators) = Normal r ->
  ElementMatcher.element r = None ->
  ElementMatcher.confidence r = 0%Q.
Proof.
  induction locators as [|l rest IH].
  - cbn [ElementMatcher.findElement_loop].
    unfold ElementMatcher.findBySimilarity, bind,
      ElementMatcher.querySelectorAll.
    destruct (negb (JS.truthy (tagName (attributes fp)))); cbn [ret fst].
    + intros H _. injection H as <-. reflexivity.
    + destruct (doc _) as [candidates|]; cbn [ret fst]; [|discriminate].
      pose proof (findBestMatch_loop_none candidates (attributes fp) None 0%Q
                    (fun _ => eq_refl)) as N.
      unfold ElementMatcher.findBestMatch.
      destruct (ElementMatcher.findBestMatch_loop _ _ _ _ _) as [best t].
      cbn [fst] in *. intros H He. injection H as <-.
      cbn [ElementMatcher.element ElementMatcher.confidence] in *.
      apply N, He.
  - rewrite findElement_loop_cons.
    destruct (fst (ElementMatcher.try_locator sqrt doc thr fp l))
      as [r'|] eqn:T; cbn [fst]; [|exact IH].
    intros H He. injection H as ->.
    revert T. unfold ElementMatcher.try_locator, bind,
      ElementMatcher.querySelectorAll.
    destruct (doc (l_value l)) as [[|e [|e' es]]|]; cbn [ret fst];
      try discriminate.
    + intro T. injection T as <-. discriminate He.
    + pose proof (findBestMatch_loop_none (e :: e' :: es) (attributes fp)
                    None 0%Q (fun _ => eq_refl)) as N.
      unfold ElementMatcher.findBestMatch.
      destruct (ElementMatcher.findBestMatch_loop _ _ _ _ _) as [best t].
      cbn [fst] in N.
      destruct (ElementMatcher.Qgeb _ _); cbn [ret fst]; [|discriminate].
      intro T. injection T as <-.
      cbn [ElementMatcher.element ElementMatcher.confidence] in *.
      apply N, He.
Qed.

(** What the matcher throws is the selector of the similarity scan. *)
Lemma matcher_throws (thr : Q) (fp : ElementFingerprint)
    (locators : list LocatorStrategy) (err : Error) :
  fst (ElementMatcher.findElement_loop sqrt doc thr fp locators) = Thrown err ->
  exists selector, err = SyntaxError selector /\ doc selector = Throws.
Proof.
  induction locators as [|l rest IH].
  - cbn [ElementMatcher.findElement_loop].
    unfold ElementMatcher.findBySimilarity, bind,
      ElementMatcher.querySelectorAll.
    destruct (negb (JS.truthy (tagName (attributes fp)))); cbn [ret fst];
      [discriminate|].
    destruct (doc _) as [candidates|] eqn:Hq; cbn [ret fst].
    + destruct (ElementMatcher.findBestMatch _ _ _). discriminate.
    + intro H. injection H as <-. eexists. split; [reflexivity|exact Hq].
  - rewrite findElement_loop_cons.
    destruct (fst (ElementMatcher.try_locator sqrt doc thr fp l));
      cbn [fst]; [discriminate|exact IH].
Qed.

Lemma has_set {V} (k n : string) (v : V) (m : Map_.t V) :
  Map_.has n m = true -> Map_.has n (Map_.set k v m) = true.
Proof.
  unfold Map_.has. destruct (String.eqb k n) eqn:E.
  - apply String.eqb_eq in E. subst n. rewrite get_set_same. reflexivity.
  - apply String.eqb_neq in E. rewrite get_set_other by exact E. tauto.
Qed.

(** The shape of [healAndFind]'s outcome. *)
Lemma healAndFind_cases (primary ename : string) (context : Context)
    (w : World) :
  (exists err effects,
     healAndFind sqrt doc cfg clock primary ename context w
     = (Thrown err, perform w effects)
     /\ logged effects = [])
  \/ (exists r fp result effects e,
        LocatorStore.getFingerprint ename (store_state w) = Some r
        /\ Heap.deref (heap w) r = Some fp
        /\ matcher_findElement sqrt doc cfg fp = (Normal result, effects)
        /\ ElementMatcher.element result = Some e
        /\ ElementMatcher.Qltb (ElementMatcher.confidence result)
                               (confidenceThreshold cfg) = false
        /\ let event :=
             {| ev_timestamp := clock (dates w);
                elementName := ename;
                originalLocator := primary;
                healedLocator :=
                  match ElementMatcher.locator result with
                  | Some l =>
                      if JS.is_empty (l_value l) then "similarity-based"
                      else l_value l
                  | None => "similarity-based"
                  end;
                strategy := ElementMatcher.matchedBy result;
                ev_confidence := ElementMatcher.confidence result;
                testFile := ctx_testFile context;
                testName := ctx_testName context |} in
           exists w',
             healAndFind sqrt doc cfg clock primary ename context w
             = (Normal e, w')
             /\ trace w'
                = (trace w ++ effects ++ [TaskLogHealingEvent event])%list
             /\ LocatorStore.healingEvents (store w')
                = (LocatorStore.healingEvents (store w) ++ [event])%list
             /\ forall n,
                  Map_.has n (LocatorStore.fingerprints (store w)) = true ->
                  Map_.has n (LocatorStore.fingerprints (store w')) = true).
Proof.
  unfold healAndFind.
  destruct (LocatorStore.getFingerprint ename (store_state w))
    as [r|] eqn:G.
  2:{ left. exists (NoFingerprintAvailable
                      (no_fingerprint_message ename primary)), [].
      split; [|reflexivity]. unfold perform. rewrite app_nil_r.
      destruct w; reflexivity. }
  destruct (Heap.deref (heap w) r) as [fp|] eqn:D.
  2:{ left. exists (NoFingerprintAvailable
                      (no_fingerprint_message ename primary)), [].
      split; [|reflexivity]. unfold perform. rewrite app_nil_r.
      destruct w; reflexivity. }
  pose proof (matcher_logged fp) as ML.
  destruct (matcher_findElement sqrt doc cfg fp)
    as [[result|err] effects] eqn:M; cbn [snd] in ML.
  2:{ left. exists err, effects. split; [reflexivity|exact ML]. }
  destruct (ElementMatcher.element result) as [e|] eqn:E.
  2:{ left. eexists. exists effects. split; [reflexivity|exact ML]. }
  destruct (ElementMatcher.Qltb _ _) eqn:L.
  { left. eexists. exists effects. split; [reflexivity|exact ML]. }
  right. exists r, fp, result, effects, e.
  repeat (split; [first [reflexivity|assumption]|]). cbv zeta.
  cbn [new_Date perform heap store dates trace].
  unfold LocatorStore.recordHealingEvent, store_state.
  cbn [heap store elementName].
  unfold LocatorStore.getFingerprint in G. cbn [store_state snd] in G.
  rewrite G.
  cbn [with_store_state perform heap store dates trace fst snd].
  rewrite deref_update_same, D. cbn [option_map].
  eexists. split; [reflexivity|].
  match goal with |- context [save_new ?f ?v] =>
    set (fp1 := f); set (w1 := v) end.
  destruct (save_new_dates fp1 w1) as [_ Ht]. rewrite Ht.
  unfold w1. cbn [trace]. split; [rewrite app_assoc; reflexivity|].
  unfold save_new. cbn [heap store].
  match goal with |- context [Heap.alloc ?h ?f] =>
    pose proof (deref_alloc_new h f) as DN;
    destruct (Heap.alloc h f) as [r1 h1] end.
  cbn [fst snd] in DN.
  unfold LocatorStore.saveFingerprint. rewrite DN.
  cbn [with_store_state store fst snd LocatorStore.healingEvents
       LocatorStore.fingerprints].
  split; [reflexivity|].
  intros n Hn. apply has_set, has_set, Hn.
Qed.

Lemma healAndFind_log (primary ename : string) (context : Context)
    (w : World) :
  let w' := snd (healAndFind sqrt doc cfg clock primary ename context w) in
  exists events,
    LocatorStore.healingEvents (store w')
    = (LocatorStore.healingEvents (store w) ++ events)%list
    /\ logged (trace w') = (logged (trace w) ++ events)%list
    /\ (forall n,
          Map_.has n (LocatorStore.fingerprints (store w)) = true ->
          Map_.has n (LocatorStore.fingerprints (store w')) = true)
    /\ Forall (fun event =>
                 Map_.has (elementName event)
                   (LocatorStore.fingerprints (store w')) = true)
              events.
Proof.
  cbv zeta.
  destruct (healAndFind_cases primary ename context w)
    as [(err & effects & H & ML)
       |(r & fp & result & effects & e & G & D & M & E & L & H)].
  - rewrite H. cbn [snd perform store trace]. exists [].
    rewrite logged_app, ML, !app_nil_r. repeat split; auto.
  - pose proof (matcher_logged fp) as ML. rewrite M in ML. cbn [snd] in ML.
    cbv zeta in H. destruct H as (w' & H & Ht & He & Hm). rewrite H.
    cbn [snd]. eexists [_]. split; [exact He|]. split.
    { rewrite Ht, !logged_app, ML. reflexivity. }
    split; [exact Hm|]. constructor; [|constructor]. cbn [elementName].
    apply Hm. unfold Map_.has. unfold LocatorStore.getFingerprint in G.
    cbn [store_state snd] in G. rewrite G. reflexivity.
Qed.

Lemma save_new_events (fp : ElementFingerprint) (w : World) :
  LocatorStore.healingEvents (store (save_new fp w))
  = LocatorStore.healingEvents (store w)
  /\ (forall n,
        Map_.has n (LocatorStore.fingerprints (store w)) = true ->
        Map_.has n (LocatorStore.fingerprints (store (save_new fp w))) = true)
  /\ Map_.has (fp_name fp) (LocatorStore.fingerprints (store (save_new fp w)))
     = true.
Proof.
  unfold save_new.
  pose proof (deref_alloc_new (heap w) fp) as DN.
  destruct (Heap.alloc (heap w) fp) as [r h]. cbn [fst snd] in DN.
  unfold LocatorStore.saveFingerprint. rewrite DN.
  cbn [with_store_state store fst snd LocatorStore.healingEvents
       LocatorStore.fingerprints].
  split; [reflexivity|]. split.
  - intros n Hn. apply has_set, Hn.
  - unfold Map_.has. rewrite get_set_same. reflexivity.
Qed.

Lemma save_new_other (fp x : ElementFingerprint) (w : World) (n : string) :
  n <> fp_name fp ->
  stored n w = Some x -> stored n (save_new fp w) = Some x.
Proof.
  intros Hn. unfold stored, LocatorStore.stored, LocatorStore.getFingerprint,
    save_new, store_state. cbn [fst snd].
  pose proof (deref_alloc_new (heap w) fp) as DN.
  pose proof (fun r => deref_alloc_old (heap w) fp x r) as DO.
  destruct (Heap.alloc (heap w) fp) as [r h]. cbn [fst snd] in DN, DO.
  unfold LocatorStore.saveFingerprint. rewrite DN.
  cbn [with_store_state heap store fst snd LocatorStore.fingerprints].
  rewrite get_set_other by congruence.
  destruct (Map_.get n _) as [r'|]; [|discriminate]. apply DO.
Qed.

Lemma findElement_log (primary ename : string) (context : Context)
    (w : World) :
  let w' := snd (findElement sqrt doc cfg clock primary ename context w) in
  exists events,
    LocatorStore.healingEvents (store w')
    = (LocatorStore.healingEvents (store w) ++ events)%list
    /\ logged (trace w') = (logged (trace w) ++ events)%list
    /\ (forall n,
          Map_.has n (LocatorStore.fingerprints (store w)) = true ->
          Map_.has n (LocatorStore.fingerprints (store w')) = true)
    /\ Forall (fun event =>
                 Map_.has (elementName event)
                   (LocatorStore.fingerprints (store w')) = true)
              events.
Proof.
  cbv zeta.
  assert (Q : logged (trace (perform w [DomQuery primary]))
              = logged (trace w)).
  { cbn [perform trace]. rewrite logged_app. apply app_nil_r. }
  assert (T : exists events,
            LocatorStore.healingEvents
              (store (perform w [DomQuery primary]))
            = (LocatorStore.healingEvents (store w) ++ events)%list
            /\ logged (trace (perform w [DomQuery primary]))
               = (logged (trace w) ++ events)%list
            /\ (forall n,
                  Map_.has n (LocatorStore.fingerprints (store w)) = true ->
                  Map_.has n
                    (LocatorStore.fingerprints
                       (store (perform w [DomQuery primary]))) = true)
            /\ Forall (fun event =>
                         Map_.has (elementName event)
                           (LocatorStore.fingerprints
                              (store (perform w [DomQuery primary]))) = true)
                      events).
  { exists []. rewrite Q, !app_nil_r. repeat split; auto. }
  assert (Hh : exists events,
            LocatorStore.healingEvents
              (store (snd (healAndFind sqrt doc cfg clock primary ename
                             context (perform w [DomQuery primary]))))
            = (LocatorStore.healingEvents (store w) ++ events)%list
            /\ logged (trace (snd (healAndFind sqrt doc cfg clock primary
                                     ename context
                                     (perform w [DomQuery primary]))))
               = (logged (trace w) ++ events)%list
            /\ (forall n,
                  Map_.has n (LocatorStore.fingerprints (store w)) = true ->
                  Map_.has n
                    (LocatorStore.fingerprints
                       (store (snd (healAndFind sqrt doc cfg clock primary
                                      ename context
                                      (perform w [DomQuery primary])))))
                  = true)
            /\ Forall (fun event =>
                         Map_.has (elementName event)
                           (LocatorStore.fingerprints
                              (store (snd (healAndFind sqrt doc cfg clock
                                             primary ename context
                                             (perform w [DomQuery primary])))))
                         = true)
                      events).
  { pose proof (healAndFind_log primary ename context
                  (perform w [DomQuery primary])) as H.
    cbv zeta in H. rewrite Q in H. exact H. }
  unfold findElement.
  destruct (doc primary) as [[|e [|e' es]]|]; cbn [snd].
  - destruct (negb (enabled cfg)); [exact T|exact Hh].
  - cbn [new_Date].
    match goal with |- context [save_new ?f ?v] =>
      set (fp1 := f); set (w1 := v) end.
    destruct (save_new_events fp1 w1) as (He & Hm & _).
    destruct (save_new_dates fp1 w1) as [_ Ht].
    exists []. cbn [snd]. rewrite He, Ht, !app_nil_r.
    split; [reflexivity|]. split; [exact Q|]. split; [|constructor].
    exact Hm.
  - destruct (negb (enabled cfg)); [exact T|exact Hh].
  - exact T.
Qed.

Lemma registerElement_log (locator_ ename : string) (w : World) :
  let w' := snd (registerElement doc clock locator_ ename w) in
  LocatorStore.healingEvents (store w') = LocatorStore.healingEvents (store w)
  /\ logged (trace w') = logged (trace w)
  /\ (forall n,
        Map_.has n (LocatorStore.fingerprints (store w)) = true ->
        Map_.has n (LocatorStore.fingerprints (store w')) = true).
Proof.
  cbv zeta.
  assert (Q : logged (trace (perform w [DomQuery locator_]))
              = logged (trace w)).
  { cbn [perform trace]. rewrite logged_app. apply app_nil_r. }
  unfold registerElement.
  destruct (doc locator_) as [[|e es]|]; cbn [snd];
    try (split; [reflexivity|]; split; [exact Q|]; auto).
  cbn [new_Date].
  match goal with |- context [save_new ?f ?v] =>
    set (fp1 := f); set (w1 := v) end.
  destruct (save_new_events fp1 w1) as (He & Hm & _).
  destruct (save_new_dates fp1 w1) as [_ Ht].
  cbn [snd]. rewrite He, Ht. split; [reflexivity|]. split; [exact Q|].
  exact Hm.
Qed.

End EngineCommands.

(** X19. A command that fails changes nothing: when [findElement] or
    [registerElement] throws, the fingerprint objects, the store and the
    clock are as before, and no healing event was logged to the terminal. *)
Theorem failed_command_untouched (Math_sqrt : Q -> Q)
    (document jQuery : Document)
    (config : SelfHealingConfig) (clock : nat -> Z)
    (locator_ elementName : string) (context : SelfHealingEngine.Context)
    (w : SelfHealingEngine.World) :
  (forall err w',
     SelfHealingEngine.findElement Math_sqrt document config clock locator_
       elementName context w = (Thrown err, w') ->
     CommandSpec.untouched w w'
     /\ CommandSpec.logged (SelfHealingEngine.trace w')
        = CommandSpec.logged (SelfHealingEngine.trace w))
  /\ (forall err w',
        SelfHealingEngine.registerElement jQuery clock locator_ elementName
          w = (Thrown err, w') ->
        CommandSpec.untouched w w'
        /\ SelfHealingEngine.trace w'
           = (SelfHealingEngine.trace w ++ [DomQuery locator_])%list).
Proof.
  assert (Q : CommandSpec.logged
                (SelfHealingEngine.trace
                   (SelfHealingEngine.perform w [DomQuery locator_]))
              = CommandSpec.logged (SelfHealingEngine.trace w)).
  { cbn [SelfHealingEngine.perform SelfHealingEngine.trace].
    rewrite logged_app. apply app_nil_r. }
  assert (Hh : forall err w',
            SelfHealingEngine.healAndFind Math_sqrt document config clock
              locator_ elementName context
              (SelfHealingEngine.perform w [DomQuery locator_])
            = (Thrown err, w') ->
            CommandSpec.untouched w w'
            /\ CommandSpec.logged (SelfHealingEngine.trace w')
               = CommandSpec.logged (SelfHealingEngine.trace w)).
  { intros err w' H.
    destruct (healAndFind_cases Math_sqrt document config clock locator_
                elementName context
                (SelfHealingEngine.perform w [DomQuery locator_]))
      as [(err0 & effects & H0 & ML)|(r & fp & result & effects & e & _ & _
                                      & _ & _ & _ & H0)].
    - rewrite H0 in H. injection H as _ <-.
      split; [repeat split|].
      cbn [SelfHealingEngine.perform SelfHealingEngine.trace].
      rewrite !logged_app, ML. cbn. rewrite !app_nil_r. reflexivity.
    - cbv zeta in H0. destruct H0 as (w0 & H0 & _). congruence. }
  split.
  - intros err w'. unfold SelfHealingEngine.findElement.
    destruct (document locator_) as [[|e [|e' es]]|].
    + destruct (negb (enabled config)); [|apply Hh].
      intro H. injection H as _ <-. split; [repeat split|exact Q].
    + discriminate.
    + destruct (negb (enabled config)); [|apply Hh].
      intro H. injection H as _ <-. split; [repeat split|exact Q].
    + intro H. injection H as _ <-. split; [repeat split|exact Q].
  - intros err w'. unfold SelfHealingEngine.registerElement.
    destruct (jQuery locator_) as [[|e es]|].
    + intro H. injection H as _ <-. repeat split.
    + discriminate.
    + intro H. injection H as _ <-. repeat split.
Qed.

Lemma failed_command_untouched_witness :
  CommandSpec.untouched SelfHealingEngine.initial (snd Runs.ghost).
Proof.
  pose proof (failed_command_untouched Samples.sqrt_Q Scenarios.login_page
                Scenarios.login_page
                SelfHealingEngine.default_config Scenarios.clock
                "#ghost" "ghost" Scenarios.context SelfHealingEngine.initial)
    as [H _].
  apply (H (NoFingerprintAvailable
              (SelfHealingEngine.no_fingerprint_message "ghost" "#ghost"))
           (snd Runs.ghost)).
  reflexivity.
Defined.

(** X20. A resolution that succeeds is either direct, and then records and
    logs no healing event, or healed, and then appends exactly one event to
    the store's log and logs that same event to the terminal after the
    matcher's effects.  The event carries the element name, the broken
    locator, the test file and test name of the context, the reading of the
    clock when the heal began and a confidence of at least the threshold; a
    heal attributed to the similarity scan names ['similarity-based'] as its
    locator. *)
Theorem findElement_healing_event (Math_sqrt : Q -> Q) (document : Document)
    (config : SelfHealingConfig) (clock : nat -> Z)
    (primary ename : string) (context : SelfHealingEngine.Context)
    (w w' : SelfHealingEngine.World) (e : HTMLElement) :
  SelfHealingEngine.findElement Math_sqrt document config clock primary ename
    context w = (Normal e, w') ->
  (document primary = Matches [e]
   /\ LocatorStore.getHealingEvents (SelfHealingEngine.store_state w')
      = LocatorStore.getHealingEvents (SelfHealingEngine.store_state w)
   /\ SelfHealingEngine.trace w'
      = (SelfHealingEngine.trace w ++ [DomQuery primary])%list)
  \/ (exists event effects,
        enabled config = true
        /\ LocatorStore.getHealingEvents (SelfHealingEngine.store_state w')
           = (LocatorStore.getHealingEvents (SelfHealingEngine.store_state w)
              ++ [event])%list
        /\ SelfHealingEngine.trace w'
           = (SelfHealingEngine.trace w
              ++ DomQuery primary :: effects
              ++ [TaskLogHealingEvent event])%list
        /\ CommandSpec.logged effects = []
        /\ elementName event = ename
        /\ originalLocator event = primary
        /\ testFile event = SelfHealingEngine.ctx_testFile context
        /\ testName event = SelfHealingEngine.ctx_testName context
        /\ ev_timestamp event = clock (SelfHealingEngine.dates w)
        /\ (confidenceThreshold config <= ev_confidence event)%Q
        /\ (strategy event = BySimilarity ->
            healedLocator event = "similarity-based")).
Proof.
  assert (Hh : SelfHealingEngine.healAndFind Math_sqrt document config clock
                 primary ename context
                 (SelfHealingEngine.perform w [DomQuery primary])
               = (Normal e, w') ->
               exists event effects,
                 LocatorStore.getHealingEvents
                   (SelfHealingEngine.store_state w')
                 = (LocatorStore.getHealingEvents
                      (SelfHealingEngine.store_state w) ++ [event])%list
                 /\ SelfHealingEngine.trace w'
                    = (SelfHealingEngine.trace w
                       ++ DomQuery primary :: effects
                       ++ [TaskLogHealingEvent event])%list
                 /\ CommandSpec.logged effects = []
                 /\ elementName event = ename
                 /\ originalLocator event = primary
                 /\ testFile event = SelfHealingEngine.ctx_testFile context
                 /\ testName event = SelfHealingEngine.ctx_testName context
                 /\ ev_timestamp event = clock (SelfHealingEngine.dates w)
                 /\ (confidenceThreshold config <= ev_confidence event)%Q
                 /\ (strategy event = BySimilarity ->
                     healedLocator event = "similarity-based")).
  { intro H.
    destruct (healAndFind_cases Math_sqrt document config clock primary
                ename context
                (SelfHealingEngine.perform w [DomQuery primary]))
      as [(err0 & effects & H0 & ML)
         |(r & fp & result & effects & e0 & G & D & M & E & L & H0)];
      [congruence|].
    pose proof (matcher_logged Math_sqrt document config fp) as ML.
    rewrite M in ML. cbn [snd] in ML.
    cbv zeta in H0. destruct H0 as (w0 & H0 & Ht & He & _).
    rewrite H0 in H. injection H as _ <-.
    eexists. exists effects.
    split; [exact He|].
    split; [rewrite Ht; cbn [SelfHealingEngine.perform
                             SelfHealingEngine.trace];
            rewrite <- app_assoc; reflexivity|].
    split; [exact ML|].
    cbn [elementName originalLocator testFile testName ev_timestamp
         ev_confidence strategy healedLocator SelfHealingEngine.perform
         SelfHealingEngine.dates].
    repeat (split; [reflexivity|]).
    split; [apply Qltb_false, L|].
    intro S.
    assert (F : fst (ElementMatcher.findElement_loop Math_sqrt document
                       (confidenceThreshold config) fp
                       (alternativeLocators fp)) = Normal result).
    { unfold SelfHealingEngine.matcher_findElement,
        ElementMatcher.findElement in M. rewrite M. reflexivity. }
    destruct (findElement_loop_returns _ _ _ _ _ _ F)
      as [(l & _ & Hl)|[_ Hs]]; [|rewrite Hs; reflexivity].
    destruct (try_locator_returns _ _ _ _ _ _ Hl)
      as [(e1 & _ & ->)|[_ Hk]]; [discriminate S|congruence]. }
  unfold SelfHealingEngine.findElement.
  destruct (document primary) as [[|e0 [|e' es]]|].
  - destruct (enabled config); cbn [negb]; [|discriminate].
    intro H. right. destruct (Hh H) as (event & effects & R).
    exists event, effects. split; [reflexivity|exact R].
  - cbn [SelfHealingEngine.new_Date]. intro H. injection H as -> <-.
    left. split; [reflexivity|].
    match goal with |- context [SelfHealingEngine.save_new ?f ?v] =>
      set (fp1 := f); set (w1 := v) end.
    destruct (save_new_events fp1 w1) as (He & _).
    destruct (save_new_dates fp1 w1) as [_ Ht].
    unfold LocatorStore.getHealingEvents, SelfHealingEngine.store_state.
    cbn [snd]. rewrite He, Ht. split; reflexivity.
  - destruct (enabled config); cbn [negb]; [|discriminate].
    intro H. right. destruct (Hh H) as (event & effects & R).
    exists event, effects. split; [reflexivity|exact R].
  - discriminate.
Qed.

Lemma findElement_healing_event_witness :
  List.length
    (LocatorStore.getHealingEvents
       (SelfHealingEngine.store_state (snd Runs.after_heal))) = 1.
Proof.
  destruct (fst Runs.after_heal) as [e|err] eqn:E; [|discriminate E].
  destruct (findElement_healing_event Samples.sqrt_Q Scenarios.renamed_page
              SelfHealingEngine.default_config Scenarios.clock
              "#username" "usernameInput" Scenarios.context Runs.registered
              (snd Runs.after_heal) e)
    as [(Hq & _)|(event & effects & _ & He & _)].
  - unfold Runs.after_heal in E |- *. rewrite <- E. apply surjective_pairing.
  - discriminate Hq.
  - rewrite He. reflexivity.
Defined.

(** X21. With healing switched off the engine sends the primary query and
    nothing else and records no event, and its outcome depends on neither
    the store, the context nor the score function: no fingerprint and no
    matcher has a say.  The outcome follows the document's answer alone:
    one element is returned, no element or several fail with the
    element-not-found error, whatever is stored under the name, and a
    selector the document rejects fails with the selector's own error. *)
Theorem findElement_healing_disabled (Math_sqrt : Q -> Q)
    (document : Document) (config : SelfHealingConfig) (clock : nat -> Z)
    (primary ename : string) (context : SelfHealingEngine.Context)
    (w : SelfHealingEngine.World) :
  enabled config = false ->
  let out :=
    SelfHealingEngine.findElement Math_sqrt document config clock primary
      ename context w in
  SelfHealingEngine.trace (snd out)
  = (SelfHealingEngine.trace w ++ [DomQuery primary])%list
  /\ LocatorStore.getHealingEvents (SelfHealingEngine.store_state (snd out))
     = LocatorStore.getHealingEvents (SelfHealingEngine.store_state w)
  /\ match document primary with
     | Matches [e] => fst out = Normal e
     | Matches _ =>
         out = (Thrown (ElementNotFound ("Element not found: " ++ primary)),
                SelfHealingEngine.perform w [DomQuery primary])
     | Throws =>
         out = (Thrown (SyntaxError primary),
                SelfHealingEngine.perform w [DomQuery primary])
     end
  /\ (forall Math_sqrt' context' w2,
        fst (SelfHealingEngine.findElement Math_sqrt' document config clock
               primary ename context' w2) = fst out).
Proof.
  intros Hd. cbv zeta. unfold SelfHealingEngine.findElement. rewrite Hd.
  cbn [negb].
  destruct (document primary) as [[|e [|e' es]]|]; cbn [fst snd].
  - repeat split.
  - cbn [SelfHealingEngine.new_Date].
    match goal with |- context [SelfHealingEngine.save_new ?f ?v] =>
      set (fp1 := f); set (w1 := v) end.
    destruct (save_new_events fp1 w1) as (He & _).
    destruct (save_new_dates fp1 w1) as [_ Ht].
    unfold LocatorStore.getHealingEvents, SelfHealingEngine.store_state.
    cbn [snd]. rewrite He, Ht. repeat split.
  - repeat split.
  - repeat split.
Qed.

Lemma findElement_healing_disabled_witness :
  fst (SelfHealingEngine.findElement Samples.sqrt_Q Scenarios.renamed_page
         Scenarios2.disabled_config Scenarios.clock "#username"
         "usernameInput" Scenarios.context Runs.registered)
  = Thrown (ElementNotFound "Element not found: #username").
Proof.
  pose proof (findElement_healing_disabled Samples.sqrt_Q
                Scenarios.renamed_page Scenarios2.disabled_config
                Scenarios.clock "#username" "usernameInput" Scenarios.context
                Runs.registered eq_refl) as H.
  cbv zeta in H. destruct H as (_ & _ & H & _).
  change (Scenarios.renamed_page "#username") with (Matches []) in H.
  cbv iota in H. rewrite H. reflexivity.
Defined.

Lemma registerElement_matches (jQuery : Document) (clock : nat -> Z)
    (locator_ ename : string) (w : SelfHealingEngine.World)
    (e : HTMLElement) (rest : list HTMLElement) :
  jQuery locator_ = Matches (e :: rest) ->
  exists w',
    SelfHealingEngine.registerElement jQuery clock locator_ ename w
    = (Normal (e :: rest), w')
    /\ EngineSpec.stored ename w'
       = Some (Fingerprint.captureElementFingerprint
                 (clock (SelfHealingEngine.dates w)) e ename locator_)
    /\ (forall n fp,
          n <> ename ->
          EngineSpec.stored n w = Some fp -> EngineSpec.stored n w' = Some fp)
    /\ LocatorStore.getHealingEvents (SelfHealingEngine.store_state w')
       = LocatorStore.getHealingEvents (SelfHealingEngine.store_state w)
    /\ SelfHealingEngine.dates w' = S (SelfHealingEngine.dates w)
    /\ SelfHealingEngine.trace w'
       = (SelfHealingEngine.trace w ++ [DomQuery locator_])%list.
Proof.
  intro Hq. unfold SelfHealingEngine.registerElement. rewrite Hq.
  cbn [SelfHealingEngine.new_Date SelfHealingEngine.perform
       SelfHealingEngine.heap SelfHealingEngine.store SelfHealingEngine.dates
       SelfHealingEngine.trace].
  eexists. split; [reflexivity|].
  match goal with |- context [SelfHealingEngine.save_new ?f ?v] =>
    set (fp1 := f); set (w1 := v) end.
  destruct (save_new_events fp1 w1) as (He & _).
  destruct (save_new_dates fp1 w1) as [Hd Ht].
  split; [apply (save_new_stored fp1 w1)|].
  split; [intros n fp Hn Hs; apply (save_new_other fp1 fp w1 n Hn); exact Hs|].
  unfold LocatorStore.getHealingEvents, SelfHealingEngine.store_state.
  cbn [snd]. rewrite He, Hd, Ht. repeat split.
Qed.

(** X22. Registering fingerprints the first element the locator matches and
    yields all of them: the fingerprint stored under the name is then a new
    capture of that element, with heal count 0, whatever was stored there
    before; the fingerprints stored under other names and the event log are
    kept, and one reading of the clock and one DOM query were made. *)
Theorem registerElement_first_match (jQuery : Document) (clock : nat -> Z)
    (locator_ ename : string) (w : SelfHealingEngine.World)
    (e : HTMLElement) (rest : list HTMLElement) :
  jQuery locator_ = Matches (e :: rest) ->
  exists w',
    SelfHealingEngine.registerElement jQuery clock locator_ ename w
    = (Normal (e :: rest), w')
    /\ EngineSpec.stored ename w'
       = Some (Fingerprint.captureElementFingerprint
                 (clock (SelfHealingEngine.dates w)) e ename locator_)
    /\ (forall n fp,
          n <> ename ->
          EngineSpec.stored n w = Some fp -> EngineSpec.stored n w' = Some fp)
    /\ LocatorStore.getHealingEvents (SelfHealingEngine.store_state w')
       = LocatorStore.getHealingEvents (SelfHealingEngine.store_state w)
    /\ SelfHealingEngine.dates w' = S (SelfHealingEngine.dates w)
    /\ SelfHealingEngine.trace w'
       = (SelfHealingEngine.trace w ++ [DomQuery locator_])%list.
Proof. apply registerElement_matches. Qed.

Lemma registerElement_first_match_witness :
  EngineSpec.stored "usernameInput" Runs.registered
  = Some (Fingerprint.captureElementFingerprint (Scenarios.clock 0)
            Scenarios.username_input "usernameInput" "#username").
Proof.
  destruct (registerElement_first_match Scenarios.login_page Scenarios.clock
              "#username" "usernameInput" SelfHealingEngine.initial
              Scenarios.username_input [] eq_refl)
    as (w' & H & Hs & _).
  unfold Runs.registered. rewrite H. exact Hs.
Defined.

(** X23. An element is registered through [cy.get], that is by jQuery's
    selector engine, and resolved by [querySelectorAll].  Where
    [querySelectorAll] answers the locator with the registered element
    alone, the resolution after registration is direct: the command yields
    that element, the stored fingerprint is the registered one but for its
    last-seen time and no healing event is recorded or logged.  Where
    [querySelectorAll] rejects the locator, as it does for a jQuery
    extension such as [button:contains("Login")], the resolution fails with
    the selector's error although the element is registered, and leaves the
    store as registration left it. *)
Theorem register_then_heal (Math_sqrt : Q -> Q) (jQuery document : Document)
    (config : SelfHealingConfig) (clock : nat -> Z)
    (locator_ ename : string) (context : SelfHealingEngine.Context)
    (w : SelfHealingEngine.World) (e : HTMLElement)
    (rest : list HTMLElement) :
  jQuery locator_ = Matches (e :: rest) ->
  let w1 :=
    snd (SelfHealingEngine.registerElement jQuery clock locator_ ename w) in
  (document locator_ = Matches [e] ->
   exists fp w2,
     EngineSpec.stored ename w1 = Some fp
     /\ healCount fp = 0%Z
     /\ SelfHealingEngine.findElement Math_sqrt document config clock
          locator_ ename context w1 = (Normal e, w2)
     /\ EngineSpec.stored ename w2
        = Some (CommandSpec.seen_at fp
                  (clock (S (SelfHealingEngine.dates w))))
     /\ LocatorStore.getHealingEvents (SelfHealingEngine.store_state w2)
        = LocatorStore.getHealingEvents (SelfHealingEngine.store_state w)
     /\ CommandSpec.logged (SelfHealingEngine.trace w2)
        = CommandSpec.logged (SelfHealingEngine.trace w))
  /\ (document locator_ = Throws ->
      EngineSpec.stored ename w1
      = Some (Fingerprint.captureElementFingerprint
                (clock (SelfHealingEngine.dates w)) e ename locator_)
      /\ SelfHealingEngine.findElement Math_sqrt document config clock
           locator_ ename context w1
         = (Thrown (SyntaxError locator_),
            SelfHealingEngine.perform w1 [DomQuery locator_])).
Proof.
  intro Hj. cbv zeta.
  destruct (registerElement_matches jQuery clock locator_ ename w e rest
              Hj) as (w1 & H1 & Hs1 & _ & He1 & Hd1 & Ht1).
  rewrite H1. cbn [snd]. split.
  - intro Hq.
    eexists. eexists. split; [exact Hs1|]. split; [reflexivity|].
    rewrite (findElement_direct Math_sqrt document config clock locator_
               ename context w1 e Hq).
    split; [reflexivity|].
    cbn [SelfHealingEngine.new_Date SelfHealingEngine.perform
         SelfHealingEngine.heap SelfHealingEngine.store
         SelfHealingEngine.dates SelfHealingEngine.trace snd].
    match goal with |- context [SelfHealingEngine.save_new ?f ?v] =>
      set (fp2 := f); set (w2 := v) end.
    destruct (save_new_events fp2 w2) as (He & _).
    destruct (save_new_dates fp2 w2) as [_ Ht].
    split; [etransitivity; [exact (save_new_stored fp2 w2)|];
            unfold fp2; rewrite Hd1; reflexivity|].
    unfold LocatorStore.getHealingEvents, SelfHealingEngine.store_state in *.
    cbn [snd] in *. rewrite He, Ht. unfold w2.
    cbn [SelfHealingEngine.store SelfHealingEngine.trace].
    split; [exact He1|]. rewrite Ht1, !logged_app. cbn.
    rewrite !app_nil_r. reflexivity.
  - intro Hq. split; [exact Hs1|].
    unfold SelfHealingEngine.findElement. rewrite Hq. reflexivity.
Qed.

Lemma register_then_heal_witness :
  let w1 :=
    snd (SelfHealingEngine.registerElement Scenarios3.login_page_jQuery
           Scenarios.clock Scenarios3.contains_login "loginByText"
           SelfHealingEngine.initial) in
  EngineSpec.stored "loginByText" w1
  = Some (Fingerprint.captureElementFingerprint (Scenarios.clock 0)
            Scenarios3.login_button "loginByText" Scenarios3.contains_login)
  /\ SelfHealingEngine.findElement Samples.sqrt_Q Scenarios3.login_page_dom
       SelfHealingEngine.default_config Scenarios.clock
       Scenarios3.contains_login "loginByText" Scenarios.context w1
     = (Thrown (SyntaxError Scenarios3.contains_login),
        SelfHealingEngine.perform w1 [DomQuery Scenarios3.contains_login]).
Proof.
  pose proof (register_then_heal Samples.sqrt_Q Scenarios3.login_page_jQuery
                Scenarios3.login_page_dom SelfHealingEngine.default_config
                Scenarios.clock Scenarios3.contains_login "loginByText"
                Scenarios.context SelfHealingEngine.initial
                Scenarios3.login_button [] eq_refl) as H.
  cbv zeta in H. destruct H as [_ H]. exact (H eq_refl).
Defined.

(** On the sample login page, where both engines answer [#username] alike,
    registration and then resolution is direct. *)
Example register_then_heal_direct :
  fst Runs.after_direct = Normal Scenarios.username_input.
Proof. vm_compute. reflexivity. Qed.

(** X24. In every world a run can reach, through any sequence of
    resolutions and registrations on any pages, the store invariant holds,
    the store's event log is exactly the sequence of healing events logged
    to the terminal, and every logged event names an element that has a
    stored fingerprint. *)
Theorem reachable_invariant (Math_sqrt : Q -> Q) (clock : nat -> Z)
    (w : SelfHealingEngine.World) :
  CommandSpec.reachable Math_sqrt clock w ->
  EngineSpec.wf w
  /\ LocatorStore.getHealingEvents (SelfHealingEngine.store_state w)
     = CommandSpec.logged (SelfHealingEngine.trace w)
  /\ CommandSpec.events_named w.
Proof.
  unfold CommandSpec.events_named, LocatorStore.getHealingEvents,
    LocatorStore.hasFingerprint, SelfHealingEngine.store_state.
  cbn [snd].
  induction 1 as [|document config primary ename context w R (Hwf & Hl & Hn)
                  |document locator_ ename w R (Hwf & Hl & Hn)].
  - split; [apply initial_wf|]. split; [reflexivity|constructor].
  - split; [apply findElement_wf, Hwf|].
    pose proof (findElement_log Math_sqrt document config clock primary ename
                  context w) as L.
    cbv zeta in L. destruct L as (events & He & Ht & Hm & Hf).
    rewrite He, Ht. split; [rewrite Hl; reflexivity|].
    apply Forall_app. split; [|exact Hf].
    eapply Forall_impl; [|exact Hn]. intros ev. apply Hm.
  - split; [apply registerElement_wf, Hwf|].
    pose proof (registerElement_log document clock locator_ ename w) as L.
    cbv zeta in L. destruct L as (He & Ht & Hm).
    rewrite He, Ht. split; [rewrite Hl; reflexivity|].
    eapply Forall_impl; [|exact Hn]. intros ev. apply Hm.
Qed.

Lemma reachable_invariant_witness : EngineSpec.wf (snd Runs.after_heal).
Proof.
  apply (reachable_invariant Samples.sqrt_Q Scenarios.clock
           (snd Runs.after_heal)).
  apply CommandSpec.reach_findElement.
  apply CommandSpec.reach_registerElement.
  apply CommandSpec.reach_initial.
Defined.

(** X25. On a store that satisfies its invariant, the [heal] command of
    the default engine never fails with the element-not-found error.  What
    it throws is the no-fingerprint error,
    and then nothing is stored under the name; or the low-confidence error,
    carrying the element name, the default threshold 0.6 and an achieved
    confidence below it; or the syntax error of a selector that the document
    rejects. *)
Theorem heal_command_errors (Math_sqrt : Q -> Q) (document : Document)
    (clock : nat -> Z) (cypress : Commands.Cypress)
    (locator_ ename : string) (w : SelfHealingEngine.World) (err : Error) :
  EngineSpec.wf w ->
  fst (Commands.heal Math_sqrt document clock cypress locator_ ename w)
  = Thrown err ->
  CommandSpec.heal_error document locator_ ename w err.
Proof.
  intros Hwf.
  assert (Hh : fst (SelfHealingEngine.healAndFind Math_sqrt document
                      SelfHealingEngine.default_config clock locator_ ename
                      {| SelfHealingEngine.ctx_testFile :=
                           Commands.spec_relative cypress;
                         SelfHealingEngine.ctx_testName :=
                           Commands.currentTest_title cypress |}
                      (SelfHealingEngine.perform w [DomQuery locator_]))
               = Thrown err ->
               CommandSpec.heal_error document locator_ ename w err).
  { unfold SelfHealingEngine.healAndFind.
    destruct (LocatorStore.getFingerprint ename _) as [r|] eqn:G.
    2:{ cbn [fst]. intro H. injection H as <-. split; [reflexivity|].
        unfold LocatorStore.hasFingerprint, Map_.has.
        unfold LocatorStore.getFingerprint in G.
        cbn [SelfHealingEngine.store_state SelfHealingEngine.perform
             SelfHealingEngine.store snd] in G |- *.
        rewrite G. reflexivity. }
    destruct (wf_state_get _ _ _ Hwf G) as (fp & D & _).
    cbn [SelfHealingEngine.perform SelfHealingEngine.heap
         SelfHealingEngine.store_state fst] in D |- *.
    rewrite D.
    destruct (SelfHealingEngine.matcher_findElement Math_sqrt document
                SelfHealingEngine.default_config fp)
      as [[result|err0] effects] eqn:M.
    2:{ cbn [fst]. intro H. injection H as <-.
        destruct (matcher_throws Math_sqrt document
                    (confidenceThreshold SelfHealingEngine.default_config)
                    fp (alternativeLocators fp) err0) as (sel & -> & Hs).
        { unfold SelfHealingEngine.matcher_findElement,
            ElementMatcher.findElement in M. rewrite M. reflexivity. }
        exact Hs. }
    assert (F : fst (ElementMatcher.findElement_loop Math_sqrt document
                       (confidenceThreshold SelfHealingEngine.default_config)
                       fp (alternativeLocators fp)) = Normal result).
    { unfold SelfHealingEngine.matcher_findElement,
        ElementMatcher.findElement in M. rewrite M. reflexivity. }
    destruct (ElementMatcher.element result) as [e|] eqn:E.
    2:{ cbn [fst]. intro H. injection H as <-.
        rewrite (matcher_no_element _ _ _ _ _ _ F E).
        repeat split. }
    destruct (ElementMatcher.Qltb _ _) eqn:L.
    { cbn [fst]. intro H. injection H as <-.
      split; [reflexivity|]. split; [reflexivity|].
      apply Qltb_true in L. exact L. }
    cbn [SelfHealingEngine.new_Date].
    match goal with |- context [Heap.deref ?h ?a] =>
      destruct (Heap.deref h a) end; discriminate. }
  unfold Commands.heal, SelfHealingEngine.findElement.
  destruct (document locator_) as [[|e [|e' es]]|] eqn:Hq.
  - exact Hh.
  - discriminate.
  - exact Hh.
  - cbn [fst]. intro H. injection H as <-. exact Hq.
Qed.

Lemma heal_command_errors_witness :
  CommandSpec.heal_error Scenarios.login_page "#ghost" "ghost"
    SelfHealingEngine.initial
    (NoFingerprintAvailable
       (SelfHealingEngine.no_fingerprint_message "ghost" "#ghost")).
Proof.
  apply (heal_command_errors Samples.sqrt_Q Scenarios.login_page
           Scenarios.clock
           {| Commands.spec_relative := "cypress/e2e/login.cy.ts";
              Commands.currentTest_title := "logs in" |}
           "#ghost" "ghost" SelfHealingEngine.initial).
  - apply initial_wf.
  - reflexivity.
Defined.

(** ** Healing through the test id *)

Section TestId.
Import Fingerprint SelfHealingEngine EngineSpec CommandSpec.

(** The locator synthesized from a test id [v]. *)
Let test_id (v : string) : LocatorStrategy :=
  {| l_type := LT_data_testid;
     l_value := "[data-testid=" ++ q ++ v ++ q ++ "]";
     l_priority := 1; l_confidence := 95 # 100 |}.

Lemma Forall_insert_by_priority (P : LocatorStrategy -> Prop)
    (a : LocatorStrategy) (l : list LocatorStrategy) :
  P a -> Forall P l -> Forall P (insert_by_priority a l).
Proof.
  intros Ha. induction 1 as [|b l Hb Hl IH]; cbn [insert_by_priority].
  - repeat constructor. exact Ha.
  - destruct (l_priority a - l_priority b <=? 0)%Z; repeat constructor;
      assumption.
Qed.

Lemma Forall_sort_by_priority (P : LocatorStrategy -> Prop)
    (l : list LocatorStrategy) :
  Forall P l -> Forall P (sort_by_priority l).
Proof.
  induction 1 as [|a l Ha Hl IH]; cbn [sort_by_priority]; [constructor|].
  apply Forall_insert_by_priority; assumption.
Qed.

(** A locator whose priority none of the others is below stays first. *)
Lemma sort_by_priority_least (a : LocatorStrategy)
    (l : list LocatorStrategy) :
  Forall (fun x => (l_priority a <= l_priority x)%Z) l ->
  sort_by_priority (a :: l) = a :: sort_by_priority l.
Proof.
  intro H. cbn [sort_by_priority].
  apply Forall_sort_by_priority in H.
  destruct (sort_by_priority l) as [|b s]; [reflexivity|].
  cbn [insert_by_priority]. inversion H as [|? ? Hb _]; subst.
  destruct (l_priority a - l_priority b <=? 0)%Z eqn:E; [reflexivity|].
  apply Z.leb_gt in E. lia.
Qed.

Lemma first_push_if (a loc : LocatorStrategy) (c : bool)
    (l : list LocatorStrategy) :
  (exists rest, l = a :: rest
                /\ Forall (fun x => (l_priority a <= l_priority x)%Z) rest) ->
  (l_priority a <= l_priority loc)%Z ->
  exists rest, push_if c loc l = a :: rest
               /\ Forall (fun x => (l_priority a <= l_priority x)%Z) rest.
Proof.
  intros (rest & -> & H) Hl. unfold push_if, JS.push. destruct c.
  - exists (rest ++ [loc])%list. split; [reflexivity|].
    apply Forall_app. split; [exact H|]. repeat constructor. exact Hl.
  - exists rest. split; [reflexivity|exact H].
Qed.

(** With a test id among the attributes, its locator is the first of the
    synthesized ones. *)
Lemma generated_first_test_id (element : HTMLElement)
    (attrs : ElementAttributes) :
  JS.truthy (data_attr attrs "data-testid") = true ->
  exists rest,
    generateAlternativeLocators element attrs
    = test_id (JS.or_empty (data_attr attrs "data-testid")) :: rest.
Proof.
  intro T. unfold generateAlternativeLocators. cbv zeta. rewrite T.
  match goal with |- exists rest, sort_by_priority ?U = ?a :: rest =>
    assert (H : exists rest,
              U = a :: rest
              /\ Forall (fun x => (l_priority a <= l_priority x)%Z) rest)
  end.
  { apply first_push_if; [|cbn; lia].
    apply first_push_if; [|cbn; lia].
    match goal with |- exists rest, (if ?c then _ else _) = _ /\ _ =>
      destruct c end;
      [apply first_push_if; [|cbn; lia]|].
    all: apply first_push_if; [|cbn; lia].
    all: apply first_push_if; [|cbn; lia].
    all: apply first_push_if; [|cbn; lia].
    all: apply first_push_if; [|cbn; lia].
    all: apply first_push_if; [|cbn; lia].
    all: apply first_push_if; [|cbn; lia].
    all: exists []; split; [reflexivity|constructor]. }
  destruct H as (rest & -> & H).
  rewrite (sort_by_priority_least _ rest H). eexists. reflexivity.
Qed.

Variable sqrt : Q -> Q.
Variable doc : Document.
Variable cfg : SelfHealingConfig.
Variable clock : nat -> Z.

(** A heal that goes through: what [healAndFind] does once the matcher has
    returned an element at a confidence that passes the gate. *)
Lemma healAndFind_heals (primary ename : string) (context : Context)
    (w : World) (r : Heap.addr) (fp : ElementFingerprint)
    (result : ElementMatcher.MatchResult) (effects : list Effect)
    (e : HTMLElement) :
  LocatorStore.getFingerprint ename (store_state w) = Some r ->
  Heap.deref (heap w) r = Some fp ->
  matcher_findElement sqrt doc cfg fp = (Normal result, effects) ->
  ElementMatcher.element result = Some e ->
  ElementMatcher.Qltb (ElementMatcher.confidence result)
                      (confidenceThreshold cfg) = false ->
  exists w' event,
    healAndFind sqrt doc cfg clock primary ename context w = (Normal e, w')
    /\ trace w' = (trace w ++ effects ++ [TaskLogHealingEvent event])%list
    /\ LocatorStore.healingEvents (store w')
       = (LocatorStore.healingEvents (store w) ++ [event])%list
    /\ healedLocator event
       = match ElementMatcher.locator result with
         | Some l =>
             if JS.is_empty (l_value l) then "similarity-based"
             else l_value l
         | None => "similarity-based"
         end
    /\ strategy event = ElementMatcher.matchedBy result
    /\ ev_confidence event = ElementMatcher.confidence result.
Proof.
  intros G D M E L.
  destruct (healAndFind_cases sqrt doc cfg clock primary ename context w)
    as [(err & effects0 & H & _)
       |(r' & fp' & result' & effects' & e' & G' & D' & M' & E' & _ & H)].
  - exfalso. unfold healAndFind in H. rewrite G, D, M in H.
    cbv beta iota zeta in H. rewrite E, L in H.
    cbn [new_Date] in H.
    match type of H with context [Heap.deref ?h ?a] =>
      destruct (Heap.deref h a) end; discriminate H.
  - rewrite G in G'. injection G' as <-.
    rewrite D in D'. injection D' as <-.
    rewrite M in M'. injection M' as <- <-.
    rewrite E in E'. injection E' as <-.
    cbv zeta in H. destruct H as (w' & H & Ht & He & _).
    exists w'. eexists. split; [exact H|]. split; [exact Ht|].
    split; [exact He|]. repeat split.
Qed.

(** The matcher on a fingerprint whose first locator matches one element. *)
Lemma matcher_first_unique (fp : ElementFingerprint) (l : LocatorStrategy)
    (rest : list LocatorStrategy) (e : HTMLElement) :
  alternativeLocators fp = l :: rest ->
  doc (l_value l) = Matches [e] ->
  matcher_findElement sqrt doc cfg fp
  = (Normal {| ElementMatcher.element := Some e;
               ElementMatcher.locator := Some l;
               ElementMatcher.confidence := l_confidence l;
               ElementMatcher.matchedBy := ByLocator (l_type l) |},
     [DomQuery (l_value l)]).
Proof.
  intros Ha Hq. unfold matcher_findElement, ElementMatcher.findElement.
  rewrite Ha, findElement_loop_cons.
  rewrite (try_locator_unique sqrt doc (confidenceThreshold cfg) fp l e Hq).
  reflexivity.
Qed.

End TestId.

(** X26. An element registered with a test id is healed through it: when
    the document answers the primary locator with no element or with
    several, and the test id of the stored fingerprint still selects exactly
    one, [findElement] yields that element after two queries, the primary
    locator and the test-id selector, scoring nothing, provided healing is
    on and the threshold is at most 0.95; the event it records names the
    test-id selector, the strategy [data-testid] and the confidence 0.95.
    (A primary selector that the document rejects never reaches the
    healing step.) *)
Theorem heal_by_test_id (Math_sqrt : Q -> Q) (document : Document)
    (config : SelfHealingConfig) (clock : nat -> Z)
    (primary ename : string) (context : SelfHealingEngine.Context)
    (w : SelfHealingEngine.World) (fp : ElementFingerprint)
    (old e : HTMLElement) (v : string) (es : list HTMLElement) :
  CaptureSpec.unique_attribute_names old ->
  getAttribute old "data-testid" = Some v ->
  v <> EmptyString ->
  EngineSpec.stored ename w = Some fp ->
  alternativeLocators fp
  = Fingerprint.generateAlternativeLocators old
      (Fingerprint.extractAttributes old) ->
  enabled config = true ->
  (confidenceThreshold config <= 95 # 100)%Q ->
  document primary = Matches es ->
  List.length es <> 1 ->
  document ("[data-testid=" ++ Fingerprint.q ++ v ++ Fingerprint.q ++ "]")
  = Matches [e] ->
  exists w' event,
    SelfHealingEngine.findElement Math_sqrt document config clock primary
      ename context w = (Normal e, w')
    /\ LocatorStore.getHealingEvents (SelfHealingEngine.store_state w')
       = (LocatorStore.getHealingEvents (SelfHealingEngine.store_state w)
          ++ [event])%list
    /\ healedLocator event
       = "[data-testid=" ++ Fingerprint.q ++ v ++ Fingerprint.q ++ "]"
    /\ strategy event = ByLocator LT_data_testid
    /\ ev_confidence event = (95 # 100)%Q
    /\ SelfHealingEngine.trace w'
       = (SelfHealingEngine.trace w
          ++ [DomQuery primary;
              DomQuery ("[data-testid=" ++ Fingerprint.q ++ v
                        ++ Fingerprint.q ++ "]");
              TaskLogHealingEvent event])%list.
Proof.
  intros Hn Hv Hne Hs Ha Hen Hthr Hq Hlen Hsel.
  rewrite (findElement_heals Math_sqrt document config clock primary ename
             context w es Hq Hlen Hen).
  assert (T : Fingerprint.data_attr (Fingerprint.extractAttributes old)
                "data-testid" = Some v).
  { rewrite (data_attr_captured_at old "data-testid" Hn). exact Hv. }
  destruct (generated_first_test_id old (Fingerprint.extractAttributes old))
    as (rest & Hg).
  { rewrite T. destruct v; [congruence|reflexivity]. }
  rewrite T in Hg. cbn [JS.or_empty] in Hg. rewrite <- Ha in Hg.
  unfold EngineSpec.stored, LocatorStore.stored in Hs.
  destruct (LocatorStore.getFingerprint ename
              (SelfHealingEngine.store_state w)) as [r|] eqn:G;
    [|discriminate Hs].
  cbn [SelfHealingEngine.store_state fst] in Hs.
  pose proof (matcher_first_unique Math_sqrt document config fp _ rest e Hg
                Hsel) as M.
  destruct (healAndFind_heals Math_sqrt document config clock primary ename
              context (SelfHealingEngine.perform w [DomQuery primary]) r fp
              _ _ e G Hs M eq_refl)
    as (w' & event & H & Ht & He & Hl & Hst & Hc).
  { apply Qltb_false. exact Hthr. }
  exists w', event. split; [exact H|]. split; [exact He|].
  split; [exact Hl|]. split; [exact Hst|]. split; [exact Hc|].
  rewrite Ht. cbn [SelfHealingEngine.perform SelfHealingEngine.trace].
  rewrite <- app_assoc. reflexivity.
Qed.

Lemma heal_by_test_id_witness :
  fst (SelfHealingEngine.findElement Samples.sqrt_Q Scenarios2.new_id_page
         SelfHealingEngine.default_config Scenarios.clock "#username"
         "usernameInput" Scenarios.context Runs.registered)
  = Normal Scenarios2.username_new_id.
Proof.
  assert (Hn : CaptureSpec.unique_attribute_names Scenarios.username_input).
  { unfold CaptureSpec.unique_attribute_names. cbn.
    repeat constructor; cbn; intuition discriminate. }
  assert (Hthr : (confidenceThreshold SelfHealingEngine.default_config
                  <= 95 # 100)%Q) by (cbn; discriminate).
  assert (Hlen : @List.length HTMLElement [] <> 1) by (cbn; discriminate).
  assert (Hne : "username-input" <> EmptyString) by discriminate.
  destruct (heal_by_test_id Samples.sqrt_Q Scenarios2.new_id_page
              SelfHealingEngine.default_config Scenarios.clock "#username"
              "usernameInput" Scenarios.context Runs.registered
              (Fingerprint.captureElementFingerprint (Scenarios.clock 0)
                 Scenarios.username_input "usernameInput" "#username")
              Scenarios.username_input Scenarios2.username_new_id
              "username-input" [] Hn eq_refl Hne eq_refl eq_refl eq_refl Hthr
              eq_refl Hlen eq_refl)
    as (w' & event & H & _).
  rewrite H. reflexivity.
Defined.

(** ** Exporting and importing into the same store *)

Section SameStore.
Import EngineSpec.

Lemma get_In_NoDup {V} (k : string) (v : V) (m : Map_.t V) :
  NoDup (Map_.keys m) -> In (k, v) m -> Map_.get k m = Some v.
Proof.
  induction m as [|[k' v'] m IH]; cbn; [tauto|].
  intros Hn [E|Hin].
  - injection E as -> ->. rewrite String.eqb_refl. reflexivity.
  - inversion Hn as [|? ? Hk Hn']; subst.
    destruct (String.eqb k k') eqn:E; [|apply IH; assumption].
    apply String.eqb_eq in E. subst k'. exfalso. apply Hk.
    unfold Map_.keys. apply in_map_iff. exists (k, v). split; [reflexivity|].
    exact Hin.
Qed.

(** Saving again the fingerprints the store already holds moves nothing. *)
Lemma import_loop_present (h : Heap.t) (s : LocatorStore.t)
    (entries : list (string * Heap.addr)) :
  wf_state (h, s) ->
  incl entries (LocatorStore.fingerprints s) ->
  LocatorStore.import_loop (map snd entries) (h, s) = (h, s).
Proof.
  intros [Hk HF]. cbn [fst snd] in Hk, HF.
  induction entries as [|[k r] entries IH]; intro Hi; [reflexivity|].
  cbn [map snd LocatorStore.import_loop].
  assert (Hin : In (k, r) (LocatorStore.fingerprints s))
    by (apply Hi; left; reflexivity).
  rewrite Forall_forall in HF. destruct (HF _ Hin) as (fp & D & N).
  cbn [fst snd] in D, N. unfold LocatorStore.saveFingerprint. rewrite D, N.
  rewrite (set_same_value k r _ (get_In_NoDup k r _ Hk Hin)).
  destruct s as [m events]. cbn [LocatorStore.fingerprints
                                  LocatorStore.healingEvents] in *.
  apply IH. intros x Hx. apply Hi. right. exact Hx.
Qed.

End SameStore.

(** X27. Exporting a store and importing the snapshot back into that same
    store changes nothing: no fingerprint moves or is replaced and the
    event log is the same. *)
Theorem import_export_same_store (st : LocatorStore.State) :
  EngineSpec.wf_state st ->
  LocatorStore.import (LocatorStore.export st) st = st.
Proof.
  destruct st as [h s]. intro Hwf.
  unfold LocatorStore.import, LocatorStore.export,
    LocatorStore.getAllFingerprints, LocatorStore.getHealingEvents,
    Map_.values.
  cbn [fst snd LocatorStore.snap_fingerprints LocatorStore.snap_healingEvents].
  rewrite (import_loop_present h s (LocatorStore.fingerprints s) Hwf)
    by apply incl_refl.
  destruct s; reflexivity.
Qed.

Lemma import_export_same_store_witness :
  LocatorStore.import
    (LocatorStore.export (SelfHealingEngine.store_state Runs.registered))
    (SelfHealingEngine.store_state Runs.registered)
  = SelfHealingEngine.store_state Runs.registered.
Proof.
  apply (import_export_same_store
           (SelfHealingEngine.store_state Runs.registered)).
  exact registered_wf.
Defined.

(** ** The score over its arithmetic, and the table *)

Section ScoreOverNumbers.
Import ScoreSpec.

(** The classes of a class string as a [Set] and as the table has them. *)
Lemma set_add_all_spec (seen xs : list string) :
  NoDup seen ->
  NoDup (JS.set_add_all seen xs)
  /\ forall x, In x (JS.set_add_all seen xs) <-> In x seen \/ In x xs.
Proof.
  revert seen. induction xs as [|y xs IH]; intros seen Hs; cbn.
  - split; [exact Hs|]. intro x. tauto.
  - destruct (JS.mem y seen) eqn:M.
    + apply mem_In in M. destruct (IH seen Hs) as [Hn Hi].
      split; [exact Hn|]. intro x. rewrite Hi.
      split; [tauto|]. intros [H|[<-|H]]; tauto.
    + assert (Hy : ~ In y seen).
      { intro H. apply mem_In in H. congruence. }
      destruct (IH (seen ++ [y])%list) as [Hn Hi].
      { apply NoDup_app; [exact Hs|repeat constructor; intros []|].
        intros x Hx [<-|[]]. exact (Hy Hx). }
      split; [exact Hn|]. intro x. rewrite Hi, in_app_iff. cbn. tauto.
Qed.

Lemma new_Set_classes (xs : list string) :
  Permutation (JS.new_Set xs) (nodup string_dec xs).
Proof.
  destruct (set_add_all_spec [] xs (NoDup_nil _)) as [Hn Hi].
  apply NoDup_Permutation; [exact Hn|apply NoDup_nodup|].
  intro x. unfold JS.new_Set. rewrite Hi, nodup_In. cbn. tauto.
Qed.

Lemma filter_length_Permutation {A} (f : A -> bool) (l l' : list A) :
  Permutation l l' ->
  List.length (filter f l) = List.length (filter f l').
Proof.
  induction 1 as [|x l l' _ IH|x y l|l l' l'' _ IH1 _ IH2]; cbn.
  - reflexivity.
  - destruct (f x); cbn; congruence.
  - destruct (f x), (f y); reflexivity.
  - congruence.
Qed.

Lemma class_counts (candidate target : string) :
  List.length
    (filter (fun c => JS.mem c (JS.new_Set (JS.split_space candidate)))
            (JS.new_Set (JS.split_space target)))
  = List.length
      (filter (fun c =>
                 if in_dec string_dec c (ScoreTable.classes candidate)
                 then true else false)
              (ScoreTable.classes target))
  /\ List.length (JS.new_Set (JS.split_space target))
     = List.length (ScoreTable.classes target).
Proof.
  unfold ScoreTable.classes. split.
  - rewrite (filter_length_Permutation _ _ _
               (new_Set_classes (JS.split_space target))).
    f_equal. apply filter_ext. intro c.
    destruct (in_dec string_dec c _) as [H|H].
    + apply mem_In.
      apply (Permutation_in _ (Permutation_sym (new_Set_classes _))), H.
    + destruct (JS.mem c _) eqn:M; [|reflexivity].
      exfalso. apply H. apply mem_In in M.
      apply (Permutation_in _ (new_Set_classes _)), M.
  - apply Permutation_length, new_Set_classes.
Qed.

Lemma string_dec_eqb {A} (x y : string) (a b : A) :
  (if string_dec x y then a else b) = (if String.eqb x y then a else b).
Proof.
  destruct (string_dec x y) as [->|H].
  - rewrite String.eqb_refl. reflexivity.
  - apply String.eqb_neq in H. rewrite H. reflexivity.
Qed.

Lemma string_dec_empty {A} (x : string) (a b : A) :
  (if string_dec x EmptyString then a else b)
  = (if JS.is_empty x then a else b).
Proof. destruct x; reflexivity. Qed.

Lemma or_empty_attribute (element : HTMLElement) (k : string) :
  JS.or_empty (getAttribute element k)
  = ScoreTable.candidate_attribute element k.
Proof. reflexivity. Qed.

Lemma or_empty_text (element : HTMLElement) :
  JS.or_empty (option_map JS.trim (textContent element))
  = ScoreTable.candidate_text element.
Proof.
  unfold ScoreTable.candidate_text.
  destruct (textContent element); reflexivity.
Qed.

Variable N : Number.t.

(** The text comparison of the source is that of the table: the matrix
    gives the edit distance, and the longer of two strings has the larger
    length. *)
Lemma stringSimilarity_table (str1 str2 : string) :
  Scoring.stringSimilarity N str1 str2
  = ScoreTable.text_similarity N str1 str2.
Proof.
  unfold Scoring.stringSimilarity, ScoreTable.text_similarity.
  rewrite string_dec_eqb. destruct (String.eqb str1 str2); [reflexivity|].
  rewrite !string_dec_empty.
  destruct (JS.is_empty str1) eqn:E1; [reflexivity|].
  destruct (JS.is_empty str2) eqn:E2; [reflexivity|]. cbn [orb].
  destruct (String.length str2 <? String.length str1) eqn:L.
  - apply Nat.ltb_lt in L.
    destruct (String.length str1 =? 0) eqn:Z;
      [apply Nat.eqb_eq in Z; lia|].
    rewrite levenshteinDistance_distance.
    rewrite Nat.max_l by lia. reflexivity.
  - apply Nat.ltb_ge in L.
    destruct (String.length str2 =? 0) eqn:Z.
    { apply Nat.eqb_eq in Z. destruct str2; [discriminate E2|discriminate Z]. }
    rewrite levenshteinDistance_sym, levenshteinDistance_distance.
    rewrite Nat.max_r by lia. reflexivity.
Qed.

Lemma exact_table (x y : string) :
  Scoring.exact N x y = ScoreTable.exact_match N x y.
Proof.
  unfold Scoring.exact, ScoreTable.exact_match. symmetry.
  apply string_dec_eqb.
Qed.

(** The eight blocks of the source are eight steps over the signals of the
    table. *)
Lemma calculateSimilarityScore_table_steps (element : HTMLElement)
    (target : ElementAttributes) :
  Scoring.calculateSimilarityScore N element target
  = ScoreTable.finish N
      (fold_left (ScoreTable.step N element target) signals
                 (Number.zero N, Number.zero N)).
Proof.
  assert (St : forall s acc,
             ScoreTable.step N element target acc s
             = if present s target
               then (Number.add N (fst acc)
                       (Number.mul N (ScoreTable.comparison N s element target)
                                   (ScoreTable.weight N s)),
                     Number.add N (snd acc) (ScoreTable.weight N s))
               else acc) by reflexivity.
  unfold Scoring.calculateSimilarityScore, signals. cbn [fold_left].
  rewrite !stringSimilarity_table, !exact_table, !or_empty_attribute,
    !or_empty_text.
  destruct (class_counts (ScoreTable.candidate_attribute element "class")
              (JS.or_empty (className target))) as [C1 C2].
  unfold el_className. rewrite !or_empty_attribute, C1, C2.
  destruct (position target) as [tp|] eqn:P;
    (destruct (dataAttributes target) as [[|e es]|] eqn:D;
     [ cbn [ElementMatcher.data_loop]
     | rewrite data_loop_counts, !Z.add_0_l;
       change (0 <? Z.of_nat (List.length (e :: es)))%Z with true | ]).
  all: destruct (JS.truthy (text target)) eqn:B1,
      (JS.truthy (ariaLabel target)) eqn:B2,
      (JS.truthy (placeholder target)) eqn:B4,
      (JS.truthy (name target)) eqn:B5,
      (JS.truthy (className target)) eqn:B6,
      (JS.truthy (role target)) eqn:B8.
  all: cbv beta iota zeta.
  all: rewrite (St S_text); cbn [present fst snd]; rewrite B1;
       rewrite (St S_ariaLabel); cbn [present fst snd]; rewrite B2;
       rewrite (St S_dataAttributes); cbn [present fst snd]; rewrite ?D;
       rewrite (St S_placeholder); cbn [present fst snd]; rewrite B4;
       rewrite (St S_name); cbn [present fst snd]; rewrite B5;
       rewrite (St S_className); cbn [present fst snd]; rewrite B6;
       rewrite (St S_position); cbn [present fst snd]; rewrite ?P;
       rewrite (St S_role); cbn [present fst snd]; rewrite B8.
  all: unfold ScoreTable.finish; cbn [fst snd ScoreTable.comparison];
       rewrite ?D, ?P.
  all: reflexivity.
Qed.

(** The steps add up, from the left, the weighted comparisons and the
    weights of the present signals. *)
Lemma fold_step_table (element : HTMLElement) (target : ElementAttributes)
    (ss : list Signal) (a b : Number.num N) :
  fold_left (ScoreTable.step N element target) ss (a, b)
  = (fold_left
       (fun acc s =>
          Number.add N acc
            (Number.mul N (ScoreTable.comparison N s element target)
                        (ScoreTable.weight N s)))
       (filter (fun s => present s target) ss) a,
     fold_left (fun acc s => Number.add N acc (ScoreTable.weight N s))
       (filter (fun s => present s target) ss) b).
Proof.
  revert a b. induction ss as [|s ss IH]; intros a b; [reflexivity|].
  cbn [fold_left filter]. unfold ScoreTable.step at 2.
  destruct (present s target); cbn [fst snd fold_left]; apply IH.
Qed.

(** The score of the source is the score of the table, in any arithmetic
    that is sound for it. *)
Lemma calculateSimilarityScore_table (element : HTMLElement)
    (target : ElementAttributes) :
  ScoreTable.sound N ->
  Scoring.calculateSimilarityScore N element target
  = ScoreTable.score N element target.
Proof.
  intros [Hz Hpos]. rewrite calculateSimilarityScore_table_steps.
  rewrite fold_step_table. unfold ScoreTable.finish, ScoreTable.score.
  cbn [fst snd].
  specialize (Hpos (fun s => present s target)).
  unfold ScoreTable.weight_total in Hpos.
  destruct (filter (fun s => present s target) signals) as [|s ss] eqn:F.
  - cbn [fold_left]. rewrite Hz. reflexivity.
  - rewrite Hpos by discriminate. reflexivity.
Qed.

End ScoreOverNumbers.

(** ** The two arithmetics *)

Section Arithmetics.
Import ScoreSpec.

Ltac by_cases select :=
  destruct (select S_text), (select S_ariaLabel),
    (select S_dataAttributes), (select S_placeholder), (select S_name),
    (select S_className), (select S_position), (select S_role);
  cbn [filter signals];
  first [ intros _; vm_compute; reflexivity
        | let H := fresh "H" in intro H; exfalso; apply H; reflexivity ].

(** Exact arithmetic is sound for the table. *)
Lemma Exact_sound (Math_sqrt : Q -> Q) :
  ScoreTable.sound (Number.Exact Math_sqrt).
Proof.
  split; [reflexivity|]. intro select. unfold signals. cbn [filter].
  by_cases select.
Qed.

(** So is binary64: each of the 255 sums of weights, rounded as it is
    accumulated, is above 0. *)
Lemma Binary64_sound : ScoreTable.sound Number.Binary64.
Proof.
  split; [reflexivity|]. intro select. unfold signals. cbn [filter].
  by_cases select.
Qed.

(** The exact embedding of [ElementMatcher] is the embedding over the
    arithmetic, taken at the exact one. *)
Lemma calculateSimilarityScore_exact (Math_sqrt : Q -> Q)
    (element : HTMLElement) (target : ElementAttributes) :
  ElementMatcher.calculateSimilarityScore Math_sqrt element target
  = Scoring.calculateSimilarityScore (Number.Exact Math_sqrt) element target.
Proof. reflexivity. Qed.

End Arithmetics.

(** C7, in the form the code satisfies.
    In the arithmetic of the code, binary64, the similarity score is the
    weighted mean of the table as that arithmetic computes it: over the
    signals present in the target, in the table's order, the sum of
    comparison times weight divided by the sum of the weights, each
    operation rounded, and 0 when no signal is present.  In exact
    arithmetic the same code gives the weighted mean itself. *)
Theorem calculateSimilarityScore_weighted_mean (element : HTMLElement)
    (target : ElementAttributes) :
  Scoring.calculateSimilarityScore Number.Binary64 element target
  = ScoreTable.score Number.Binary64 element target
  /\ forall Math_sqrt,
       ElementMatcher.calculateSimilarityScore Math_sqrt element target
       = ScoreTable.score (Number.Exact Math_sqrt) element target.
Proof.
  split.
  - exact (calculateSimilarityScore_table Number.Binary64 element target
             Binary64_sound).
  - intro Math_sqrt. rewrite calculateSimilarityScore_exact.
    exact (calculateSimilarityScore_table (Number.Exact Math_sqrt) element
             target (Exact_sound Math_sqrt)).
Qed.

(** C7, to the letter, fails on the field that lost its aria-label: name,
    class, position and role match and the aria-label does not, so the
    weighted mean is 0.3 / 0.5 = 3/5; the code returns the double below the
    double of 0.6. *)
Lemma weighted_mean_as_stated_fails : ~ ScoreTable.as_stated Samples.sqrt_Q.
Proof.
  intro H. specialize (H Rounding.candidate Rounding.recorded).
  assert (E : PrimFloat.ltb
                (Scoring.calculateSimilarityScore Number.Binary64
                   Rounding.candidate Rounding.recorded)
                (Number.float_of_Q (6 # 10))
              = PrimFloat.ltb
                  (Number.float_of_Q
                     (Qred (ScoreTable.score (Number.Exact Samples.sqrt_Q)
                              Rounding.candidate Rounding.recorded)))
                  (Number.float_of_Q (6 # 10)))
    by (rewrite H; reflexivity).
  vm_compute in E. discriminate E.
Qed.

(** On that field the exact mean is 3/5 and passes a threshold of 0.6; the
    double the code returns is below the double of 0.6 and fails it. *)
Example rounding_moves_the_score :
  (ScoreTable.score (Number.Exact Samples.sqrt_Q) Rounding.candidate
     Rounding.recorded == 3 # 5)%Q
  /\ PrimFloat.ltb
       (Scoring.calculateSimilarityScore Number.Binary64 Rounding.candidate
          Rounding.recorded)
       (Number.float_of_Q (6 # 10)) = true
  /\ Scoring.calculateSimilarityScore Number.Binary64 Rounding.candidate
       Rounding.recorded
     = PrimFloat.next_down (Number.float_of_Q (6 # 10)).
Proof. vm_compute. repeat split. Qed.

(** The comparisons that the exact embedding computes are those of the
    table. *)
Lemma comparison_table (Math_sqrt : Q -> Q) (s : ScoreSpec.Signal)
    (element : HTMLElement) (target : ElementAttributes) :
  ScoreSpec.comparison Math_sqrt s element target
  = ScoreTable.comparison (Number.Exact Math_sqrt) s element target.
Proof.
  destruct s; cbn [ScoreSpec.comparison ScoreTable.comparison].
  - rewrite or_empty_text.
    apply (stringSimilarity_table (Number.Exact Math_sqrt)).
  - rewrite or_empty_attribute.
    apply (exact_table (Number.Exact Math_sqrt)).
  - reflexivity.
  - rewrite or_empty_attribute.
    apply (exact_table (Number.Exact Math_sqrt)).
  - rewrite or_empty_attribute.
    apply (exact_table (Number.Exact Math_sqrt)).
  - destruct (class_counts (ScoreTable.candidate_attribute element "class")
                (JS.or_empty (className target))) as [C1 C2].
    unfold el_className, ScoreSpec.ratio, ScoreTable.class_overlap,
      ScoreTable.of_nat.
    rewrite or_empty_attribute, C1, C2. reflexivity.
  - reflexivity.
  - rewrite or_empty_attribute.
    apply (exact_table (Number.Exact Math_sqrt)).
Qed.

(** In exact arithmetic the text comparison of the table is the
    specification's [1 - distance / longer length]. *)
Lemma text_similarity_exact (Math_sqrt : Q -> Q) (candidate target : string) :
  candidate <> target ->
  candidate <> EmptyString ->
  target <> EmptyString ->
  let L := Nat.max (String.length candidate) (String.length target) in
  (ScoreTable.text_similarity (Number.Exact Math_sqrt) candidate target
   == 1 - inject_Z (Z.of_nat (Levenshtein.distance candidate target))
          / inject_Z (Z.of_nat L))%Q.
Proof.
  intros H1 H2 H3 L. unfold ScoreTable.text_similarity.
  destruct (string_dec candidate target) as [E|_]; [contradiction|].
  destruct (string_dec candidate EmptyString) as [E|_]; [contradiction|].
  destruct (string_dec target EmptyString) as [E|_]; [contradiction|].
  fold L. cbn [Number.div Number.sub Number.Exact Number.of_Z].
  unfold ScoreTable.of_nat. cbn [Number.of_Z Number.Exact].
  assert (HL : ~ (inject_Z (Z.of_nat L) == 0)%Q).
  { assert (0 < L) as Hpos.
    { unfold L. destruct candidate as [|c s]; [contradiction|].
      cbn [String.length]. lia. }
    intro E. unfold Qeq in E. cbn [Qnum Qden inject_Z] in E. lia. }
  field. exact HL.
Qed.

Section Literals.
Import PrimFloat.
Local Set Warnings "-inexact-float".

(** The doubles of the decimal literals of the source are those the
    embedding takes. *)
Example literals_as_doubles :
  List.map Number.float_of_Q
    [25 # 100; 2 # 10; 15 # 100; 1 # 10; 5 # 100; 5 # 10; 6 # 10]%Q
  = [0.25; 0.2; 0.15; 0.1; 0.05; 0.5; 0.6]%float
  /\ List.map Number.float_of_Z [0; 1; 50; 200]%Z = [0; 1; 50; 200]%float.
Proof. vm_compute. split; reflexivity. Qed.

End Literals.
